(** * zai-cli: the MCP client core (mcp-client.ts) and the secret redactor
    (redact.ts), embedded shallowly.

    Conventions of the embedding.
    - A JavaScript string is a [string]: a sequence of code units, here the
      code units below 256 (Latin-1).  [toLowerCase] and the regular
      expression class [\s] are written out for exactly these code units.
    - Millisecond quantities, counters and timestamps are [Z].  A number
      that comes out of [parseInt] is a [num]: an integer that a double
      holds, an infinity, or NaN ([None]); [parseInt] rounds as JavaScript
      does, the arithmetic on finite numbers is exact.
    - JavaScript objects and arrays live in a heap ([gmap loc cell]); a value
      is a primitive or a reference into the heap.
    - The client is a state-and-exception monad over the fields of
      [ZaiMcpClient] plus a log of every interaction with the outside world
      (transport, file system, timers); the outside world is an oracle that
      answers from the log so far. *)

From Stdlib Require Import ZArith Lia Bool Ascii String List.
From stdpp Require Import base option list gmap strings.

#[local] Set Warnings "-register-all".
Local Open Scope Z_scope.

(* ===================================================================== *)
(** * JavaScript string primitives                                         *)
(* ===================================================================== *)

Module JsString.

(** [s.startsWith(p)] *)
Fixpoint startsWith (s p : string) {struct p} : bool :=
  match p, s with
  | EmptyString, _ => true
  | String a p', String b s' => Ascii.eqb a b && startsWith s' p'
  | String _ _, EmptyString => false
  end.

(** [s.includes(needle)]: some suffix of [s] starts with [needle]. *)
Fixpoint includes (s needle : string) : bool :=
  startsWith s needle
  || match s with
     | EmptyString => false
     | String _ s' => includes s' needle
     end.

(** [s.endsWith(suffix)]: some suffix of [s] is [suffix]. *)
Fixpoint endsWith (s suffix : string) : bool :=
  String.eqb s suffix
  || match s with
     | EmptyString => false
     | String _ s' => endsWith s' suffix
     end.

Fixpoint drop (n : nat) (s : string) : string :=
  match n, s with
  | O, _ => s
  | S _, EmptyString => EmptyString
  | S n', String _ s' => drop n' s'
  end.

(** Code unit of a character. *)
Definition code (c : ascii) : nat := nat_of_ascii c.

(** [toLowerCase] on one code unit below 256: A-Z and the accented
    capitals U+00C0..U+00DE (without U+00D7, the multiplication sign) move
    up by 32. *)
Definition lowerChar (c : ascii) : ascii :=
  let n := code c in
  if ((65 <=? n) && (n <=? 90))%nat then ascii_of_nat (n + 32)
  else if ((192 <=? n) && (n <=? 222) && negb (n =? 215))%nat
       then ascii_of_nat (n + 32)
  else c.

Fixpoint toLowerCase (s : string) : string :=
  match s with
  | EmptyString => EmptyString
  | String c s' => String (lowerChar c) (toLowerCase s')
  end.

(** The class [\s] on code units below 256: TAB, LF, VT, FF, CR, SPACE and
    NO-BREAK SPACE. *)
Definition isSpace (c : ascii) : bool :=
  let n := code c in
  (((9 <=? n) && (n <=? 13)) || (n =? 32) || (n =? 160))%nat.

Fixpoint dropWhile (p : ascii -> bool) (s : string) : string :=
  match s with
  | EmptyString => EmptyString
  | String c s' => if p c then dropWhile p s' else s
  end.

(** [s.replaceAll(key, marker)] for a non-empty [key]: a scan from the left
    that, at every position where [key] starts, emits [marker] and resumes
    after the occurrence.  [skip] counts the code units of the current
    occurrence that are still to be passed over. *)
Fixpoint replaceAllFrom (key marker : string) (skip : nat) (s : string)
  : string :=
  match s with
  | EmptyString => EmptyString
  | String c s' =>
      match skip with
      | S k => replaceAllFrom key marker k s'
      | O =>
          if startsWith s key
          then marker +:+ replaceAllFrom key marker (String.length key - 1) s'
          else String c (replaceAllFrom key marker O s')
      end
  end.

Definition replaceAll (s key marker : string) : string :=
  replaceAllFrom key marker O s.

(** [s.indexOf(key)]: the start of the leftmost occurrence. *)
Fixpoint indexOf (s key : string) : option nat :=
  if startsWith s key then Some O
  else match s with
       | EmptyString => None
       | String _ s' => option_map S (indexOf s' key)
       end.

Fixpoint take (n : nat) (s : string) : string :=
  match n, s with
  | O, _ => EmptyString
  | S _, EmptyString => EmptyString
  | S n', String c s' => String c (take n' s')
  end.

(** A JavaScript string is truthy when it is not empty. *)
Definition truthy (s : string) : bool :=
  match s with EmptyString => false | _ => true end.

(** Every code unit of [s] satisfies [p]. *)
Fixpoint stringAll (p : ascii -> bool) (s : string) : bool :=
  match s with
  | EmptyString => true
  | String c s' => p c && stringAll p s'
  end.

(** [s] is empty or starts with a code unit that fails [p]. *)
Definition stopsAt (p : ascii -> bool) (s : string) : bool :=
  match s with
  | EmptyString => true
  | String c _ => negb (p c)
  end.

Definition notSpace (c : ascii) : bool := negb (isSpace c).

End JsString.

(* ===================================================================== *)
(** * redact.ts                                                            *)
(* ===================================================================== *)

Module Redact.
Import JsString.

Definition MARKER : string := "[REDACTED]".

Definition REDACT_KEYS : list string :=
  [ "authorization"; "Authorization"; "api_key"; "apiKey";
    "access_token"; "token"; "Z_AI_API_KEY"; "ZAI_API_KEY" ].

(** [REDACT_KEYS.has(key)] *)
Definition isRedactKey (key : string) : bool :=
  existsb (String.eqb key) REDACT_KEYS.

(** One attempt to match [Bearer\s+\S+] at the very start of [s]; the result
    is what follows the match.  Both quantifiers are greedy, and giving back
    white space cannot help [\S+], so the match takes the whole run of white
    space and then the whole run of other code units. *)
Definition matchBearer (s : string) : option string :=
  if startsWith s "Bearer" then
    let afterWord := drop 6 s in
    let afterSpaces := dropWhile isSpace afterWord in
    let afterToken := dropWhile (fun c => negb (isSpace c)) afterSpaces in
    if (String.length afterSpaces <? String.length afterWord)%nat
       && (String.length afterToken <? String.length afterSpaces)%nat
    then Some afterToken
    else None
  else None.

(** [/^Bearer\s+\S+/.test(s)] *)
Definition testBearer (s : string) : bool :=
  match matchBearer s with Some _ => true | None => false end.

(** [s.replace(/Bearer\s+\S+/, 'Bearer [REDACTED]')]: the leftmost match,
    and only that one, is replaced. *)
Fixpoint replaceBearer (s : string) : string :=
  match matchBearer s with
  | Some rest => "Bearer [REDACTED]" +:+ rest
  | None =>
      match s with
      | EmptyString => EmptyString
      | String c s' => String c (replaceBearer s')
      end
  end.

(** The first step of [redactString]: the credential, when one is set and
    it occurs, is replaced everywhere. *)
Definition scrubCredential (value : string) (apiKey : option string)
  : string :=
  match apiKey with
  | Some k =>
      if truthy k && includes value k
      then replaceAll value k MARKER
      else value
  | None => value
  end.

Definition redactString (value : string) (apiKey : option string) : string :=
  let result := scrubCredential value apiKey in
  if testBearer result then replaceBearer result else result.

(** ** Values and the heap

    [redactSecrets] receives an arbitrary JavaScript value.  Primitives are
    immediate; arrays and plain objects are cells of a heap and are passed
    by reference. *)

Definition loc := positive.

Inductive val :=
| VUndefined
| VNull
| VBool (b : bool)
| VNum (n : Z)
| VStr (s : string)
| VRef (l : loc).

(** An object cell lists its own enumerable properties in enumeration
    order, as [Object.entries] returns them. *)
Inductive cell :=
| CArr (items : list val)
| CObj (entries : list (string * val)).

Abbreviation heap := (gmap loc cell).

(** Insertion of an own property: an existing key keeps its place, a new
    key goes last. *)
Fixpoint assocSet (entries : list (string * val)) (key : string) (v : val)
  : list (string * val) :=
  match entries with
  | [] => [(key, v)]
  | (k, x) :: rest =>
      if String.eqb k key then (k, v) :: rest
      else (k, x) :: assocSet rest key v
  end.

(** [output[key] = v] on the object at [out].  On an object made by [{}]
    the key ["__proto__"] reaches the accessor of [Object.prototype], which
    changes the prototype (or does nothing) and creates no own property. *)
Definition setProperty (h : heap) (out : loc) (key : string) (v : val)
  : heap :=
  if String.eqb key "__proto__" then h
  else match h !! out with
       | Some (CObj es) => <[out := CObj (assocSet es key v)]> h
       | _ => h
       end.

(** [A[k] = v] on the array at [out], with [k] below its length. *)
Definition setIndex (h : heap) (out : loc) (k : nat) (v : val) : heap :=
  match h !! out with
  | Some (CArr xs) => <[out := CArr (<[k := v]> xs)]> h
  | _ => h
  end.

(** The body of [value.map((item) => redactSecrets(item, apiKey))], after
    the result array has been created: the callback [f] runs on the items
    from left to right and each result is stored at its index. *)
Fixpoint mapItems (f : heap -> val -> option (heap * val)) (out : loc)
         (k : nat) (items : list val) (h : heap) : option heap :=
  match items with
  | [] => Some h
  | item :: rest =>
      match f h item with
      | Some (h1, v1) => mapItems f out (S k) rest (setIndex h1 out k v1)
      | None => None
      end
  end.

(** The [for (const [key, child] of Object.entries(obj))] loop. *)
Fixpoint redactEntries (f : heap -> val -> option (heap * val)) (out : loc)
         (entries : list (string * val)) (h : heap) : option heap :=
  match entries with
  | [] => Some h
  | (key, child) :: rest =>
      if isRedactKey key
      then redactEntries f out rest (setProperty h out key (VStr MARKER))
      else match f h child with
           | Some (h1, v1) =>
               redactEntries f out rest (setProperty h1 out key v1)
           | None => None
           end
  end.

(** [redactSecrets(value, apiKey)].  The recursion follows references, so
    it is bounded by [fuel]; [None] means that the nesting is deeper than
    the fuel (in JavaScript: a cyclic value exhausts the stack) or that a
    reference dangles (which JavaScript excludes). *)
Fixpoint redactSecrets (fuel : nat) (apiKey : option string) (h : heap)
         (value : val) : option (heap * val) :=
  match fuel with
  | O => None
  | S fuel' =>
      match value with
      | VStr s => Some (h, VStr (redactString s apiKey))
      | VRef l =>
          match h !! l with
          | Some (CArr items) =>
              let out := fresh (dom h) in
              let h0 :=
                <[out := CArr (replicate (length items) VUndefined)]> h in
              match mapItems (redactSecrets fuel' apiKey) out O items h0 with
              | Some h' => Some (h', VRef out)
              | None => None
              end
          | Some (CObj entries) =>
              let out := fresh (dom h) in
              let h0 := <[out := CObj []]> h in
              match redactEntries (redactSecrets fuel' apiKey) out entries h0
              with
              | Some h' => Some (h', VRef out)
              | None => None
              end
          | None => None
          end
      | _ => Some (h, value)
      end
  end.

(** ** Nested values as trees

    The mathematical content of an acyclic value. *)

Inductive tree :=
| TUndefined
| TNull
| TBool (b : bool)
| TNum (n : Z)
| TStr (s : string)
| TArr (items : list tree)
| TObj (entries : list (string * tree)).

Section TreeInduction.

Variable P : tree -> Prop.
Hypothesis P_undefined : P TUndefined.
Hypothesis P_null : P TNull.
Hypothesis P_bool : forall b, P (TBool b).
Hypothesis P_num : forall n, P (TNum n).
Hypothesis P_str : forall s, P (TStr s).
Hypothesis P_arr : forall items, Forall P items -> P (TArr items).
Hypothesis P_obj :
  forall entries, Forall (fun kt => P (snd kt)) entries -> P (TObj entries).

(** Induction on nested values, with the hypothesis available for every
    array item and every property value. *)
Fixpoint tree_nested_ind (t : tree) : P t :=
  match t with
  | TUndefined => P_undefined
  | TNull => P_null
  | TBool b => P_bool b
  | TNum n => P_num n
  | TStr s => P_str s
  | TArr items =>
      P_arr items
        ((fix go (l : list tree) : Forall P l :=
            match l with
            | [] => @List.Forall_nil _ P
            | x :: r => @List.Forall_cons _ P x r (tree_nested_ind x) (go r)
            end) items)
  | TObj entries =>
      P_obj entries
        ((fix go (l : list (string * tree))
            : Forall (fun kt => P (snd kt)) l :=
            match l with
            | [] => @List.Forall_nil _ _
            | x :: r =>
                @List.Forall_cons _ (fun kt => P (snd kt)) x r
                            (tree_nested_ind (snd x)) (go r)
            end) entries)
  end.

End TreeInduction.

(** [repr_in P h t v]: in heap [h] the value [v] is the root of a
    representation of [t], all of whose cells sit at locations in [P]. *)
Inductive repr_in (P : loc -> Prop) (h : heap) : tree -> val -> Prop :=
| repr_undefined : repr_in P h TUndefined VUndefined
| repr_null : repr_in P h TNull VNull
| repr_bool b : repr_in P h (TBool b) (VBool b)
| repr_num n : repr_in P h (TNum n) (VNum n)
| repr_str s : repr_in P h (TStr s) (VStr s)
| repr_arr l vs items :
    P l -> h !! l = Some (CArr vs) ->
    Forall2 (repr_in P h) items vs ->
    repr_in P h (TArr items) (VRef l)
| repr_obj l es entries :
    P l -> h !! l = Some (CObj es) ->
    Forall2 (fun kt kv => fst kt = fst kv /\ repr_in P h (snd kt) (snd kv))
            entries es ->
    repr_in P h (TObj entries) (VRef l).

Definition repr (h : heap) : tree -> val -> Prop := repr_in (fun _ => True) h.

Fixpoint depth (t : tree) : nat :=
  match t with
  | TArr items => S (list_max (map depth items))
  | TObj entries => S (list_max (map (fun kt => depth (snd kt)) entries))
  | _ => O
  end.

(** The keys of an object are pairwise distinct, at every level: what
    makes a tree the content of a JavaScript value. *)
Fixpoint distinctKeys (t : tree) : Prop :=
  match t with
  | TArr items => fold_right (fun x acc => distinctKeys x /\ acc) True items
  | TObj entries =>
      NoDup (map fst entries)
      /\ fold_right (fun kt acc => distinctKeys (snd kt) /\ acc) True entries
  | _ => True
  end.

(** Distinct keys, none of which is ["__proto__"]. *)
Fixpoint plainKeys (t : tree) : Prop :=
  match t with
  | TArr items => fold_right (fun x acc => plainKeys x /\ acc) True items
  | TObj entries =>
      NoDup (map fst entries)
      /\ ~ In "__proto__" (map fst entries)
      /\ fold_right (fun kt acc => plainKeys (snd kt) /\ acc) True entries
  | _ => True
  end.

(** The own properties of the object [redactSecrets] builds, the values
    going through [g]: a property called ["__proto__"] leaves none. *)
Fixpoint sanitizedEntries (g : tree -> tree) (entries : list (string * tree))
  : list (string * tree) :=
  match entries with
  | [] => []
  | kt :: rest =>
      if String.eqb (fst kt) "__proto__" then sanitizedEntries g rest
      else (fst kt, if isRedactKey (fst kt) then TStr MARKER else g (snd kt))
           :: sanitizedEntries g rest
  end.

(** The content of the value [redactSecrets] returns. *)
Fixpoint sanitized (apiKey : option string) (t : tree) : tree :=
  match t with
  | TStr s => TStr (redactString s apiKey)
  | TArr items => TArr (map (sanitized apiKey) items)
  | TObj entries => TObj (sanitizedEntries (sanitized apiKey) entries)
  | _ => t
  end.

(** The sanitized copy as section 4.5 of the specification words it: rules
    1 and 2 on every string scalar, rule 3 on every mapping key, everything
    else unchanged. *)
Fixpoint redacted (apiKey : option string) (t : tree) : tree :=
  match t with
  | TStr s => TStr (redactString s apiKey)
  | TArr items => TArr (map (redacted apiKey) items)
  | TObj entries =>
      TObj (map (fun kt =>
                   (fst kt,
                    if isRedactKey (fst kt) then TStr MARKER
                    else redacted apiKey (snd kt)))
                entries)
  | _ => t
  end.

(** [JSON.parse(JSON.stringify(t))] on a data value: a property whose value
    is undefined is left out, an array item that is undefined becomes
    null. *)
Fixpoint cloneEntries (g : tree -> tree) (entries : list (string * tree))
  : list (string * tree) :=
  match entries with
  | [] => []
  | kt :: rest =>
      match snd kt with
      | TUndefined => cloneEntries g rest
      | _ => (fst kt, g (snd kt)) :: cloneEntries g rest
      end
  end.

Fixpoint jsonClone (t : tree) : tree :=
  match t with
  | TUndefined => TNull
  | TArr items => TArr (map jsonClone items)
  | TObj entries => TObj (cloneEntries jsonClone entries)
  | _ => t
  end.

(** Every cell of [h] is still there, unchanged, in [h']. *)
Definition preserves (h h' : heap) : Prop :=
  forall l c, h !! l = Some c -> h' !! l = Some c.

(** What the recursion needs of its recursive call on a value of content
    [t]: it returns, keeps every existing cell, and roots the sanitized
    content in cells that did not exist before. *)
Definition copies (apiKey : option string)
           (f : heap -> val -> option (heap * val)) (t : tree) : Prop :=
  forall h v,
    repr h t v ->
    exists h' v',
      f h v = Some (h', v')
      /\ preserves h h'
      /\ repr_in (fun l => l ∉ dom h) h' (sanitized apiKey t) v'.

(** ** Tool descriptors

    A [Tool] of the SDK is a plain data object with a [name]; its other
    properties are kept as a list of named trees. *)
Record Tool := mkTool { name : string; fields : list (string * tree) }.

Definition toolTree (tool : Tool) : tree :=
  TObj (("name", TStr (name tool)) :: fields tool).

(** [redactTool(tool)]: the content of the tool goes through
    [JSON.parse(JSON.stringify(tool))] and then through [redactSecrets];
    neither step touches the tool itself. *)
Definition redactTool (apiKey : option string) (tool : Tool) : Tool :=
  {| name := redactString (name tool) apiKey;
     fields :=
       sanitizedEntries (sanitized apiKey)
                        (cloneEntries jsonClone (fields tool)) |}.

End Redact.

(* ===================================================================== *)
(** * mcp-client.ts                                                        *)
(* ===================================================================== *)

Module Mcp.
Import JsString Redact.

(** ** Numbers and the environment *)

(** An integer or one of the two infinities. *)
Inductive ext :=
| Int (z : Z)
| PlusInfinity
| MinusInfinity.

(** A JavaScript number whose value is an integer, an infinity or NaN
    ([None]). *)
Definition num := option ext.

Definition extSign (a : ext) : Z :=
  match a with
  | Int z => Z.sgn z
  | PlusInfinity => 1
  | MinusInfinity => -1
  end.

(** [a < b] on numbers that are not NaN. *)
Definition extLtb (a b : ext) : bool :=
  match a, b with
  | Int x, Int y => x <? y
  | MinusInfinity, MinusInfinity => false
  | MinusInfinity, _ => true
  | Int _, PlusInfinity => true
  | _, _ => false
  end.

(** [a <= b] on numbers that are not NaN. *)
Definition extLeb (a b : ext) : bool :=
  match a, b with
  | Int x, Int y => x <=? y
  | MinusInfinity, _ => true
  | _, PlusInfinity => true
  | _, _ => false
  end.

(** [a + b]: the sum of opposite infinities is NaN. *)
Definition numAdd (a b : num) : num :=
  match a, b with
  | Some (Int x), Some (Int y) => Some (Int (x + y))
  | Some PlusInfinity, Some MinusInfinity
  | Some MinusInfinity, Some PlusInfinity => None
  | Some PlusInfinity, Some _ | Some _, Some PlusInfinity =>
      Some PlusInfinity
  | Some MinusInfinity, Some _ | Some _, Some MinusInfinity =>
      Some MinusInfinity
  | _, _ => None
  end.

(** [a * b]: an infinity times zero is NaN. *)
Definition numMul (a b : num) : num :=
  match a, b with
  | Some (Int x), Some (Int y) => Some (Int (x * y))
  | Some x, Some y =>
      match extSign x * extSign y with
      | Z0 => None
      | Zpos _ => Some PlusInfinity
      | Zneg _ => Some MinusInfinity
      end
  | _, _ => None
  end.

(** [Math.min(a, b)]: NaN when either argument is NaN. *)
Definition numMin (a b : num) : num :=
  match a, b with
  | Some (Int x), Some (Int y) => Some (Int (Z.min x y))
  | Some x, Some y => Some (if extLeb x y then x else y)
  | _, _ => None
  end.

(** [a <= b] and [a > b]: false as soon as one side is NaN. *)
Definition numLe (a b : num) : bool :=
  match a, b with Some x, Some y => extLeb x y | _, _ => false end.

Definition numGt (a b : num) : bool :=
  match a, b with Some x, Some y => extLtb y x | _, _ => false end.

Definition isDigit (c : ascii) : bool :=
  ((48 <=? code c) && (code c <=? 57))%nat.

Fixpoint parseDigits (acc : Z) (s : string) : Z :=
  match s with
  | EmptyString => acc
  | String c s' =>
      if isDigit c
      then parseDigits (acc * 10 + (Z.of_nat (code c) - 48)) s'
      else acc
  end.

(** The number that JavaScript makes of the integer [n >= 0]: the nearest
    double, a tie going to the even significand; below 2^53 that is [n]
    itself, and from 2^1024 on it is Infinity. *)
Definition toDouble (n : Z) : ext :=
  if n <? 2 ^ 53 then Int n
  else
    let ulp := 2 ^ (Z.log2 n - 52) in
    let q := n / ulp in
    let r := n mod ulp in
    let up := (ulp <? 2 * r) || ((ulp =? 2 * r) && Z.odd q) in
    let rounded := (if up then q + 1 else q) * ulp in
    if rounded <? 2 ^ 1024 then Int rounded else PlusInfinity.

(** [parseInt(s, 10)]: leading white space is skipped, one sign is accepted,
    then the longest run of decimal digits is read; no digit gives NaN.  The
    integer read is turned into a double, as Node does it: rounded to the
    nearest one, so that a long run of digits gives an infinity. *)
Definition parseInt (s : string) : num :=
  let t := dropWhile isSpace s in
  let signed :=
    match t with
    | String "-" r => (-1, r)
    | String "+" r => (1, r)
    | _ => (1, t)
    end in
  match snd signed with
  | String c _ =>
      if isDigit c
      then Some match toDouble (parseDigits 0 (snd signed)) with
                | Int m => Int (fst signed * m)
                | _ => if fst signed <? 0 then MinusInfinity
                       else PlusInfinity
                end
      else None
  | EmptyString => None
  end.

(** [Number.isFinite(n) ? n : 0] *)
Definition finiteOrZero (n : num) : Z :=
  match n with
  | Some (Int z) => z
  | _ => 0
  end.

(** [process.env]: a variable is unset ([None]) or holds a string. *)
Definition Env := string -> option string.

(** [process.env.X || fallback] with a string literal on the right. *)
Definition orDefault (x : option string) (fallback : string) : string :=
  match x with
  | Some s => if truthy s then s else fallback
  | None => fallback
  end.

(** [process.env.X || process.env.Y]: the right operand is returned as it is
    when the left one is unset or empty. *)
Definition orElse (x y : option string) : option string :=
  match x with
  | Some s => if truthy s then Some s else y
  | None => y
  end.

(** An environment that sets exactly one variable. *)
Definition envWith (key value : string) : Env :=
  fun k => if String.eqb k key then Some value else None.

Definition emptyEnv : Env := fun _ => None.

(** ** Errors

    The classes that mcp-client.ts imports from errors.ts, as it constructs
    and tests them; they are taken to extend [Error] side by side. *)

Inductive Thrown :=
| ApiError (message : string) (statusCode : Z)
| AuthError (message : string)
| TimeoutError (timeoutMs : num) (message : string)
| NetworkError (message : string)
| ValidationError (message : string)
| OtherError (message : string)   (* any other instance of Error *)
| NonError (text : string).       (* a thrown value that is no Error;
                                     [text] is [String(value)] *)

(** The name of the class of a thrown value, for comparison with the names
    the specification uses. *)
Definition className (e : Thrown) : string :=
  match e with
  | ApiError _ _ => "ApiError"
  | AuthError _ => "AuthError"
  | TimeoutError _ _ => "TimeoutError"
  | NetworkError _ => "NetworkError"
  | ValidationError _ => "ValidationError"
  | OtherError _ => "Error"
  | NonError _ => ""
  end.

(** [error instanceof Error] *)
Definition isErrorObject (e : Thrown) : bool :=
  match e with NonError _ => false | _ => true end.

(** [error instanceof Error ? error.message : String(error)] *)
Definition messageOf (e : Thrown) : string :=
  match e with
  | ApiError m _ | AuthError m | TimeoutError _ m | NetworkError m
  | ValidationError m | OtherError m => m
  | NonError t => t
  end.

Definition isApiError (e : Thrown) : bool :=
  match e with ApiError _ _ => true | _ => false end.

(** ** The outside world *)

Inductive UtcpClient := utcpClient (serial : nat).

(** What the underlying [client.close()] does: it fulfils or rejects after
    some milliseconds, or it never settles. *)
Inductive CloseBehaviour :=
| CloseFulfils (after : Z)
| CloseRejects (after : Z) (e : Thrown)
| CloseHangs.

(** The parsed content of the cache file, as [readToolsCache] looks at it:
    a falsy document, or an object whose [version] and [timestamp] are
    numbers when present and whose [tools] is [None] unless it is an
    array. *)
Inductive CacheJson :=
| JFalsy
| JData (version : option Z) (timestamp : option Z)
        (tools : option (list Tool)).

Inductive FileContent :=
| Missing
| Unparsable
| Parsed (data : CacheJson).

Inductive Event :=
| EvCreate
| EvRegister
| EvGetTools
| EvCallTool (toolName : string) (args : tree)
| EvClose (elapsed : Z)
| EvSleep (ms : num)
| EvRandom (r : Z)
| EvNow (t : Z)
| EvReadFile
| EvWriteFile (payload : CacheJson).

Record RegisterResult := { success : bool; errors : list string }.

(** Every answer of the outside world is a function of the log so far. *)
Record World := {
  createOutcome : list Event -> Thrown + UtcpClient;
  registerOutcome : list Event -> Thrown + RegisterResult;
  getToolsOutcome : list Event -> Thrown + list Tool;
  callToolOutcome : list Event -> string -> tree -> Thrown + tree;
  closeBehaviour : list Event -> CloseBehaviour;
  (** [Math.random()] is [randomNumerator / 2^53]. *)
  randomNumerator : list Event -> Z;
  dateNow : list Event -> Z;
  (** [fs.readFile] or the computation of the cache path throws. *)
  readFails : list Event -> bool;
  (** [fs.mkdir], the cache path or [fs.writeFile] throws. *)
  writeFails : list Event -> bool;
}.

(** ** Client state *)

Inductive Outcome (A : Type) :=
| Return (a : A)
| Throw (e : Thrown)
| OutOfFuel.
Arguments Return {A} a.
Arguments Throw {A} e.
Arguments OutOfFuel {A}.

Record State := {
  client : option UtcpClient;
  (** The stored promise, by the way it has settled. *)
  initPromise : option (Outcome unit);
  isInitialized : bool;
  cacheFile : FileContent;
  log : list Event;
}.

(** [new ZaiMcpClient(options)] in a world whose cache file is [file]. *)
Definition newClient (file : FileContent) : State :=
  {| client := None; initPromise := None; isInitialized := false;
     cacheFile := file; log := [] |}.

Definition M (A : Type) := State -> Outcome A * State.

Definition ret {A} (a : A) : M A := fun st => (Return a, st).

Definition throw {A} (e : Thrown) : M A := fun st => (Throw e, st).

Definition bind {A B} (m : M A) (k : A -> M B) : M B :=
  fun st =>
    match m st with
    | (Return a, st') => k a st'
    | (Throw e, st') => (Throw e, st')
    | (OutOfFuel, st') => (OutOfFuel, st')
    end.

(** [try { m } catch (error) { handler(error) }] *)
Definition tryCatch {A} (m : M A) (handler : Thrown -> M A) : M A :=
  fun st =>
    match m st with
    | (Throw e, st') => handler e st'
    | r => r
    end.

Declare Scope mcp_scope.
Delimit Scope mcp_scope with mcp.
Notation "'let*' x := m 'in' k" := (bind m (fun x => k))
  (at level 10, x name, m at level 100, k at level 200) : mcp_scope.
Notation "'run' m 'then' k" := (bind m (fun _ => k))
  (at level 10, m at level 100, k at level 200) : mcp_scope.

Definition emit (ev : Event) : M unit :=
  fun st =>
    (Return tt,
     {| client := client st; initPromise := initPromise st;
        isInitialized := isInitialized st; cacheFile := cacheFile st;
        log := log st ++ [ev] |}).

Definition setClient (c : option UtcpClient) : M unit :=
  fun st =>
    (Return tt,
     {| client := c; initPromise := initPromise st;
        isInitialized := isInitialized st; cacheFile := cacheFile st;
        log := log st |}).

Definition setInitPromise (p : option (Outcome unit)) : M unit :=
  fun st =>
    (Return tt,
     {| client := client st; initPromise := p;
        isInitialized := isInitialized st; cacheFile := cacheFile st;
        log := log st |}).

Definition setIsInitialized (b : bool) : M unit :=
  fun st =>
    (Return tt,
     {| client := client st; initPromise := initPromise st;
        isInitialized := b; cacheFile := cacheFile st; log := log st |}).

Definition setCacheFile (f : FileContent) : M unit :=
  fun st =>
    (Return tt,
     {| client := client st; initPromise := initPromise st;
        isInitialized := isInitialized st; cacheFile := f; log := log st |}).

(** A call to the outside world: the answer is read off the log, then the
    event is appended. *)
Definition ask {A} (answer : list Event -> Thrown + A) (ev : Event) : M A :=
  fun st =>
    match answer (log st) with
    | inr a => bind (emit ev) (fun _ => ret a) st
    | inl e => bind (emit ev) (fun _ => throw e) st
    end.

Fixpoint joinWith (sep : string) (l : list string) : string :=
  match l with
  | [] => ""
  | [x] => x
  | x :: rest => x +:+ sep +:+ joinWith sep rest
  end.

Section Client.
Local Open Scope mcp_scope.

Variable env : Env.
Variable world : World.
(** [JSON.parse], on the strings it accepts. *)
Variable JSON_parse : string -> option tree.
(** The message [new TimeoutError(ms)] builds (errors.ts). *)
Variable timeoutMessage : num -> string.

(** *** Module constants *)

Definition DEFAULT_TIMEOUT_MS : num :=
  parseInt (orDefault (env "Z_AI_TIMEOUT") "300000").
Definition DEFAULT_RETRY_BASE_MS : num :=
  parseInt (orDefault (env "ZAI_MCP_RETRY_BASE_MS") "500").
Definition DEFAULT_RETRY_MAX_MS : num :=
  parseInt (orDefault (env "ZAI_MCP_RETRY_MAX_MS") "8000").
Definition DEFAULT_RETRY_JITTER_MS : num :=
  parseInt (orDefault (env "ZAI_MCP_RETRY_JITTER_MS") "250").
Definition TOOL_CACHE_VERSION : Z := 1.
Definition DEFAULT_TOOL_CACHE_TTL_MS : num :=
  parseInt (orDefault (env "ZAI_MCP_TOOL_CACHE_TTL_MS") "86400000").
Definition TOOL_CACHE_ENABLED : bool :=
  negb (existsb
          (String.eqb (toLowerCase (orDefault (env "ZAI_MCP_TOOL_CACHE") "1")))
          ["0"; "false"]).

(** The credential [redactTool] reads. *)
Definition activeApiKey : option string :=
  orElse (env "Z_AI_API_KEY") (env "ZAI_API_KEY").

(** *** init *)

Definition classifyInitError (error : Thrown) : Thrown :=
  let m := messageOf error in
  if isErrorObject error
     && (includes m "401" || includes m "403" || includes m "auth")
  then AuthError ("Authentication failed: " +:+ m)
  else if isErrorObject error
          && (includes m "timeout" || includes m "ETIMEDOUT")
  then TimeoutError DEFAULT_TIMEOUT_MS (timeoutMessage DEFAULT_TIMEOUT_MS)
  else if isErrorObject error
          && (includes m "ECONNREFUSED" || includes m "network"
              || includes m "fetch")
  then NetworkError m
  else ApiError ("MCP initialization failed: " +:+ m) 500.

Definition _doInit : M unit :=
  tryCatch
    (let* c := ask (createOutcome world) EvCreate in
     run setClient (Some c) then
     let* result := ask (registerOutcome world) EvRegister in
     if negb (success result)
     then throw (ApiError ("Failed to register MCP servers: "
                           +:+ joinWith ", " (errors result)) 500)
     else setIsInitialized true)
    (fun error =>
       run setInitPromise None then
       if isApiError error then throw error
       else throw (classifyInitError error)).

(** [this.initPromise = this._doInit()] stores the promise before the body
    has run to its end; when the body fails, its handler has cleared the
    field again by the time a caller sees the rejection. *)
Definition init : M unit :=
  fun st =>
    if isInitialized st then ret tt st
    else match initPromise st with
         | Some settled => (settled, st)
         | None =>
             match _doInit st with
             | (Return _, st') => setInitPromise (Some (Return tt)) st'
             | r => r
             end
         end.

(** *** close *)

(** [Promise.race([client.close(), timer(timeoutMs)])]: how it settles and
    after how many milliseconds.  A timer never fires before 0 ms.  When the
    rejection and the timer fall on the same millisecond the timer is taken
    to be first. *)
Definition race (b : CloseBehaviour) (timeoutMs : Z) : option Thrown * Z :=
  let timer := Z.max 0 timeoutMs in
  match b with
  | CloseFulfils after => (None, Z.min after timer)
  | CloseRejects after e =>
      if after <? timer then (Some e, after) else (None, timer)
  | CloseHangs => (None, timer)
  end.

Definition close (timeoutMs : Z) : M unit :=
  fun st =>
    match client st with
    | Some _ =>
        let settled := race (closeBehaviour world (log st)) timeoutMs in
        (run emit (EvClose (snd settled)) then
         match fst settled with
         | Some e => throw e
         | None =>
             run setClient None then
             run setIsInitialized false then
             setInitPromise None
         end) st
    | None => ret tt st
    end.

(** *** Retry policy *)

Definition getRetryCount (toolName : string) : Z :=
  let globalRetries := parseInt (orDefault (env "ZAI_MCP_RETRY_COUNT") "0") in
  if includes toolName ".vision." then
    match orElse (env "ZAI_MCP_VISION_RETRY_COUNT") (env "Z_AI_RETRY_COUNT")
    with
    | Some visionRetriesRaw => finiteOrZero (parseInt visionRetriesRaw)
    | None => 2
    end
  else finiteOrZero globalRetries.

Definition isRetriableError (error : Thrown) : bool :=
  match error with
  | AuthError _ | ValidationError _ => false
  | _ =>
      let normalized := toLowerCase (messageOf error) in
      if includes normalized "401" || includes normalized "403"
         || includes normalized "auth"
      then false
      else
        includes normalized "timeout"
        || includes normalized "timed out"
        || includes normalized "etimedout"
        || includes normalized "econnrefused"
        || includes normalized "econnreset"
        || includes normalized "network"
        || includes normalized "fetch"
        || includes normalized "internal network failure"
        || includes normalized "unexpected system error"
        || includes normalized "http 500"
        || includes normalized "http 502"
        || includes normalized "http 503"
        || includes normalized "http 504"
        || includes normalized "rate limit"
        || includes normalized "429"
        || includes normalized "-500"
  end.

(** [Math.min(DEFAULT_RETRY_MAX_MS, DEFAULT_RETRY_BASE_MS * Math.pow(2, attempt - 1))] *)
Definition backoffMs (attempt : Z) : num :=
  numMin DEFAULT_RETRY_MAX_MS
         (numMul DEFAULT_RETRY_BASE_MS (Some (Int (2 ^ (attempt - 1))))).

(** [Math.floor(Math.random() * DEFAULT_RETRY_JITTER_MS)], the random number
    being [r / 2^53] with [0 <= r < 2^53]; the product is taken exactly, and
    zero times an infinity is NaN. *)
Definition jitterMs (r : Z) : num :=
  match DEFAULT_RETRY_JITTER_MS with
  | Some (Int j) => Some (Int ((r * j) / 2 ^ 53))
  | Some infinity => if r =? 0 then None else Some infinity
  | None => None
  end.

(** The argument of [sleep] before attempt [attempt + 1]. *)
Definition retryDelay (attempt r : Z) : num :=
  numAdd (backoffMs attempt) (jitterMs r).

Definition random : M Z :=
  fun st =>
    let r := randomNumerator world (log st) in
    (run emit (EvRandom r) then ret r) st.

Definition sleep (ms : num) : M unit := emit (EvSleep ms).

(** The state after [await this.close().catch(() => {})]. *)
Definition afterClose (st : State) : State :=
  snd (tryCatch (close 2000) (fun _ => ret tt) st).

(** The state after the random draw and the sleep that follow failed
    attempt number [attempt]. *)
Definition afterSleep (attempt : Z) (st : State) : State :=
  let r := randomNumerator world (log st) in
  snd (sleep (retryDelay attempt r) (snd (emit (EvRandom r) st))).

(** The typed error [callTool] surfaces. *)
Definition classifyCallError (error : Thrown) : Thrown :=
  let m := messageOf error in
  if isErrorObject error && (includes m "401" || includes m "403")
  then AuthError ("Authentication failed: " +:+ m)
  else if isErrorObject error
          && (includes m "timeout" || includes m "ETIMEDOUT")
  then TimeoutError DEFAULT_TIMEOUT_MS (timeoutMessage DEFAULT_TIMEOUT_MS)
  else if isErrorObject error
          && (includes m "ECONNREFUSED" || includes m "network")
  then NetworkError m
  else if isErrorObject error
          && (includes m "-500" || includes m "Unexpected system error")
  then ApiError m (-500)
  else ApiError ("MCP tool call failed: " +:+ m) 500.

(** A string result that parses as JSON is returned parsed. *)
Definition parseResult (result : tree) : tree :=
  match result with
  | TStr s => match JSON_parse s with Some t => t | None => result end
  | _ => result
  end.

(** The [while (true)] loop of [callTool]; one unit of fuel per iteration. *)
Fixpoint callToolLoop (fuel : nat) (toolName : string) (args : tree)
         (maxRetries attempt : Z) : M tree :=
  match fuel with
  | O => fun st => (OutOfFuel, st)
  | S fuel' =>
      run init then
      fun st =>
        match client st with
        | None => throw (ApiError "MCP client not initialized" 500) st
        | Some _ =>
            tryCatch
              (let* result :=
                 ask (fun l => callToolOutcome world l toolName args)
                     (EvCallTool toolName args) in
               ret (parseResult result))
              (fun error =>
                 let attempt := attempt + 1 in
                 if (attempt <=? maxRetries) && isRetriableError error
                 then
                   run tryCatch (close 2000) (fun _ => ret tt) then
                   let* r := random in
                   run sleep (retryDelay attempt r) then
                   callToolLoop fuel' toolName args maxRetries attempt
                 else throw (classifyCallError error))
              st
        end
  end.

Definition callTool (fuel : nat) (toolName : string) (args : tree) : M tree :=
  callToolLoop fuel toolName args (getRetryCount toolName) 0.

(** *** The tool cache *)

Definition readToolsCache (refresh : bool) : M (option (list Tool)) :=
  if negb TOOL_CACHE_ENABLED || refresh then ret None
  else if numLe DEFAULT_TOOL_CACHE_TTL_MS (Some (Int 0)) then ret None
  else
    fun st =>
      if readFails world (log st) then (run emit EvReadFile then ret None) st
      else
        (run emit EvReadFile then
         match cacheFile st with
         | Missing | Unparsable | Parsed JFalsy => ret None
         | Parsed (JData version timestamp tools) =>
             match version, tools with
             | Some v, Some ts =>
                 if negb (v =? TOOL_CACHE_VERSION) then ret None
                 else
                   fun st1 =>
                     let now := dateNow world (log st1) in
                     (run emit (EvNow now) then
                      let age :=
                        now - match timestamp with Some t => t | None => 0 end
                      in
                      if numGt (Some (Int age)) DEFAULT_TOOL_CACHE_TTL_MS
                      then ret None
                      else ret (Some ts)) st1
             | _, _ => ret None
             end
         end) st.

Definition writeToolsCache (tools : list Tool) : M unit :=
  if negb TOOL_CACHE_ENABLED || numLe DEFAULT_TOOL_CACHE_TTL_MS (Some (Int 0))
  then ret tt
  else
    fun st =>
      if writeFails world (log st) then ret tt st
      else
        let now := dateNow world (log st) in
        let payload :=
          JData (Some TOOL_CACHE_VERSION) (Some now)
                (Some (map (redactTool activeApiKey) tools)) in
        (run emit (EvNow now) then
         run emit (EvWriteFile payload) then
         setCacheFile (Parsed payload)) st.

Definition listTools (refresh : bool) : M (list Tool) :=
  let* cached := readToolsCache refresh in
  match cached with
  | Some tools => ret tools
  | None =>
      run init then
      fun st =>
        match client st with
        | None => throw (ApiError "MCP client not initialized" 500) st
        | Some _ =>
            (let* tools := ask (getToolsOutcome world) EvGetTools in
             run writeToolsCache tools then
             ret tools) st
        end
  end.

(** *** Name resolution *)

(** [tools.find((tool) => tool.name === toolName)] *)
Definition findExact (tools : list Tool) (toolName : string) : option Tool :=
  List.find (fun tool => String.eqb (name tool) toolName) tools.

(** [tools.find((tool) => tool.name.endsWith(`.${toolName}`))] *)
Definition findSuffix (tools : list Tool) (toolName : string) : option Tool :=
  List.find (fun tool => endsWith (name tool) ("." +:+ toolName)) tools.

Definition getTool (toolName : string) : M (option Tool) :=
  let* tools := listTools false in
  match findExact tools toolName with
  | Some exact => ret (Some exact)
  | None =>
      match findSuffix tools toolName with
      | Some suffix => ret (Some suffix)
      | None =>
          let* tools := listTools true in
          match findExact tools toolName with
          | Some exact => ret (Some exact)
          | None => ret (findSuffix tools toolName)
          end
      end
  end.

Definition resolveToolName (toolName : string) : M string :=
  let* tool := getTool toolName in
  match tool with
  | None => throw (ApiError ("Unknown tool: " +:+ toolName) 400)
  | Some t => ret (name t)
  end.

Definition callToolRaw (fuel : nat) (toolName : string) (args : tree)
  : M tree :=
  let* resolved := resolveToolName toolName in
  callTool fuel resolved args.

End Client.

(** ** Observations on logs and states *)

Fixpoint countEvents (p : Event -> bool) (l : list Event) : nat :=
  match l with
  | [] => O
  | ev :: rest => ((if p ev then 1 else 0) + countEvents p rest)%nat
  end.

(** A transport invocation attempt. *)
Definition isCallTool (ev : Event) : bool :=
  match ev with EvCallTool _ _ => true | _ => false end.

(** A live discovery. *)
Definition isGetTools (ev : Event) : bool :=
  match ev with EvGetTools => true | _ => false end.

(** A look at the cache file. *)
Definition isReadFile (ev : Event) : bool :=
  match ev with EvReadFile => true | _ => false end.



(** The states a client is in between two of its operations: an initialized
    client has a session, and a client that is not initialized holds no
    promise of an initialization. *)
Definition consistent (st : State) : Prop :=
  if isInitialized st then client st <> None else initPromise st = None.

(** The state of a client without a session. *)
Definition cleared (st : State) : Prop :=
  client st = None /\ isInitialized st = false /\ initPromise st = None.

(** [AuthError], [ValidationError], or a message with 401 or 403 in it. *)
Definition authOrValidation (e : Thrown) : bool :=
  match e with
  | AuthError _ | ValidationError _ => true
  | _ => includes (messageOf e) "401" || includes (messageOf e) "403"
  end.

End Mcp.

(* ===================================================================== *)
(** * Concrete worlds                                                      *)
(* ===================================================================== *)

Module Samples.
Import JsString Redact Mcp.

Definition sampleCatalog : list Tool :=
  [ mkTool "zai.vision.analyze_image" [] ].

(** A world in which registration succeeds, discovery returns
    [sampleCatalog], every tool call has the outcome [calling], the
    underlying close behaves as [closing], the clock shows [now], the random
    number is 0 and the file system works. *)
Definition sampleWorld (calling : Thrown + tree) (closing : CloseBehaviour)
           (now : Z) : World :=
  {| createOutcome := fun l => inr (utcpClient (length l));
     registerOutcome := fun _ => inr {| success := true; errors := [] |};
     getToolsOutcome := fun _ => inr sampleCatalog;
     callToolOutcome := fun _ _ _ => calling;
     closeBehaviour := fun _ => closing;
     randomNumerator := fun _ => 0;
     dateNow := fun _ => now;
     readFails := fun _ => false;
     writeFails := fun _ => false |}.

Definition noJson : string -> option tree := fun _ => None.

Definition sampleTimeoutMessage : num -> string :=
  fun _ => "Request timed out".

(** A client with a live session in a sample world. *)
Definition readyClient (w : World) : State :=
  snd (init emptyEnv w sampleTimeoutMessage (newClient Missing)).

(** A client whose cache file holds [tools], captured at [T]. *)
Definition cachedClient (T : Z) (tools : list Tool) : State :=
  newClient (Parsed (JData (Some TOOL_CACHE_VERSION) (Some T) (Some tools))).

(** The object [{"token": "secret123", "note": "uses secret123 internally"}]
    at location 1 of an otherwise empty heap, and its content. *)
Definition specHeap : gmap loc cell :=
  <[1%positive := CObj [ ("token", VStr "secret123");
                         ("note", VStr "uses secret123 internally") ]]> ∅.

Definition specTree : tree :=
  TObj [ ("token", TStr "secret123");
         ("note", TStr "uses secret123 internally") ].

(** Tool calls succeed; the underlying close never settles. *)
Definition quietWorld : World := sampleWorld (inr TNull) CloseHangs 0.

(** Every tool call fails with a gateway error. *)
Definition failingWorld : World :=
  sampleWorld (inl (OtherError "HTTP 503 from upstream")) CloseHangs 0.

(** Every tool call fails with a gateway error, and the transport can be
    created only once: from the second time on the connection is refused. *)
Definition relapsingWorld : World :=
  {| createOutcome :=
       fun l =>
         match l with
         | [] => inr (utcpClient 0)
         | _ => inl (OtherError "connect ECONNREFUSED 127.0.0.1:443")
         end;
     registerOutcome := fun _ => inr {| success := true; errors := [] |};
     getToolsOutcome := fun _ => inr sampleCatalog;
     callToolOutcome :=
       fun _ _ _ => inl (OtherError "HTTP 503 from upstream");
     closeBehaviour := fun _ => CloseHangs;
     randomNumerator := fun _ => 0;
     dateNow := fun _ => 0;
     readFails := fun _ => false;
     writeFails := fun _ => false |}.

(** Every tool call is refused for lack of authorization. *)
Definition refusingWorld : World :=
  sampleWorld (inl (OtherError "HTTP 401 Unauthorized")) CloseHangs 0.

(** The underlying close fulfils after 10 ms. *)
Definition closingWorld : World :=
  sampleWorld (inr TNull) (CloseFulfils 10) 0.

(** The underlying close rejects after 10 ms. *)
Definition brokenCloseWorld : World :=
  sampleWorld (inr TNull) (CloseRejects 10 (OtherError "socket hang up")) 0.

(** The clock shows 0 until the cache file has been written and [later]
    from then on. *)
Definition agingWorld (later : Z) : World :=
  {| createOutcome := fun l => inr (utcpClient (length l));
     registerOutcome := fun _ => inr {| success := true; errors := [] |};
     getToolsOutcome := fun _ => inr sampleCatalog;
     callToolOutcome := fun _ _ _ => inr TNull;
     closeBehaviour := fun _ => CloseHangs;
     randomNumerator := fun _ => 0;
     dateNow :=
       fun l =>
         if existsb (fun ev => match ev with EvWriteFile _ => true
                                           | _ => false end) l
         then later else 0;
     readFails := fun _ => false;
     writeFails := fun _ => false |}.

(** The clock shows [now]. *)
Definition clockWorld (now : Z) : World :=
  sampleWorld (inr TNull) CloseHangs now.

(** The digit 1 followed by 309 zeros. *)
Definition manyDigits : string :=
  String "1" (string_of_list_ascii (repeat "0"%char 309)).

End Samples.

(* ===================================================================== *)
(** * Further observations                                               *)
(* ===================================================================== *)

Module Checks.
Import JsString Redact Mcp.

(** A sleep between two attempts. *)
Definition isSleep (ev : Event) : bool :=
  match ev with EvSleep _ => true | _ => false end.

(** One of the four classes of error the client throws on purpose. *)
Definition isTyped (e : Thrown) : bool :=
  match e with
  | ApiError _ _ | AuthError _ | TimeoutError _ _ | NetworkError _ => true
  | _ => false
  end.

(** The property names whose values must not be let out. *)
Definition sensitive (key : string) : bool :=
  existsb (String.eqb key)
          [ "authorization"; "Authorization"; "api_key"; "apiKey";
            "access_token"; "token"; "Z_AI_API_KEY"; "ZAI_API_KEY" ].

(** No property under a sensitive name holds anything but the string
    [[REDACTED]], at any depth. *)
Fixpoint sealed (t : tree) : bool :=
  match t with
  | TArr items => forallb sealed items
  | TObj entries =>
      forallb (fun kt =>
                 (if sensitive (fst kt)
                  then match snd kt with
                       | TStr s => String.eqb s "[REDACTED]"
                       | _ => false
                       end
                  else true)
                 && sealed (snd kt))
              entries
  | _ => true
  end.

(** The value has no undefined part: what [JSON.parse] can return. *)
Fixpoint defined (t : tree) : bool :=
  match t with
  | TUndefined => false
  | TArr items => forallb defined items
  | TObj entries => forallb (fun kt => defined (snd kt)) entries
  | _ => true
  end.

End Checks.

(* ===================================================================== *)
(** * index.ts: the command line                                           *)
(* ===================================================================== *)

Module Cli.
Import JsString.

(** [arg === '--output-format' || arg === '-O'] *)
Definition isOutputFlag (arg : string) : bool :=
  String.eqb arg "--output-format" || String.eqb arg "-O".

(** The [for] loop of [extractGlobalOptions] from index [i] on, [args] being
    what is left from that index; [outputFormat] is [None] while it is
    undefined.  The flag takes the next argument with it; as the last
    argument it sets [outputFormat] to [args[args.length]], undefined. *)
Fixpoint extractFrom (args : list string) (outputFormat : option string)
         (rest : list string) : option string * list string :=
  match args with
  | [] => (outputFormat, rest)
  | arg :: tail =>
      if isOutputFlag arg then
        match tail with
        | [] => (None, rest)
        | value :: tail' => extractFrom tail' (Some value) rest
        end
      else extractFrom tail outputFormat (rest ++ [arg])
  end.

Definition extractGlobalOptions (args : list string)
  : option string * list string :=
  extractFrom args None [].

(** A value of the [flags] record. *)
Inductive FlagValue :=
| FlagBool (b : bool)
| FlagStr (s : string).

(** [flags[key] = v] on the record made by [{}]: the key ["__proto__"]
    reaches the accessor of [Object.prototype], which ignores a boolean or a
    string and creates no own property. *)
Definition setFlag (flags : gmap string FlagValue) (key : string)
           (v : FlagValue) : gmap string FlagValue :=
  if String.eqb key "__proto__" then flags else <[key := v]> flags.

(** [nextArg && !nextArg.startsWith('-')], [nextArg] being [args[i + 1]]:
    undefined and the empty string are falsy. *)
Definition takesValue (tail : list string) : bool :=
  match tail with
  | nextArg :: _ => truthy nextArg && negb (startsWith nextArg "-")
  | [] => false
  end.

(** The [while] loop of [parseArgs] from index [i] on, [args] being what is
    left from that index. *)
Fixpoint parseFrom (args : list string) (flags : gmap string FlagValue)
         (positional : list string)
  : gmap string FlagValue * list string :=
  match args with
  | [] => (flags, positional)
  | arg :: tail =>
      if startsWith arg "--" then
        let key := drop 2 arg in
        if startsWith key "no-" then
          parseFrom tail
                    (setFlag (setFlag flags (drop 3 key) (FlagBool false))
                             key (FlagBool true))
                    positional
        else
          match tail with
          | nextArg :: tail' =>
              if takesValue tail
              then parseFrom tail' (setFlag flags key (FlagStr nextArg))
                             positional
              else parseFrom tail (setFlag flags key (FlagBool true))
                             positional
          | [] => (setFlag flags key (FlagBool true), positional)
          end
      else if startsWith arg "-" && (String.length arg =? 2)%nat then
        let key := drop 1 arg in
        match tail with
        | nextArg :: tail' =>
            if takesValue tail
            then parseFrom tail' (setFlag flags key (FlagStr nextArg))
                           positional
            else parseFrom tail (setFlag flags key (FlagBool true))
                           positional
        | [] => (setFlag flags key (FlagBool true), positional)
        end
      else parseFrom tail flags (positional ++ [arg])
  end.

Definition parseArgs (args : list string)
  : gmap string FlagValue * list string :=
  parseFrom args ∅ [].

(** A string value of the record is a non-empty string that does not start
    with a dash. *)
Definition properValue (v : FlagValue) : Prop :=
  match v with
  | FlagStr s => truthy s = true /\ startsWith s "-" = false
  | FlagBool _ => True
  end.

End Cli.

(* ===================================================================== *)
(** * commands: what the commands compute from a catalog or a result      *)
(* ===================================================================== *)

Module Reports.
Import JsString Redact Mcp.

(** ** commands/search.ts *)

(** A search result as [WebSearchResult] declares it; the optional
    [publish_date] is [None] when it is undefined. *)
Record WebSearchResult := {
  refer : string;
  title : string;
  link : string;
  media : string;
  content : string;
  icon : string;
  publish_date : option string;
}.

(** An entry of the output; a property that is undefined or left out is
    [None]. *)
Record Formatted := {
  rank : Z;
  f_title : string;
  url : string;
  summary : string;
  source : option string;
  date : option string;
}.

(** [s || undefined] *)
Definition orUndefined (s : string) : option string :=
  if truthy s then Some s else None.

(** The callback of [results.map], at index [i]. *)
Definition formatResult (i : nat) (r : WebSearchResult) : Formatted :=
  {| rank := Z.of_nat i + 1;
     f_title := title r;
     url := link r;
     summary := content r;
     source := orUndefined (media r);
     date := match publish_date r with
             | Some d => orUndefined d
             | None => None
             end |}.

Definition formatResults (results : list WebSearchResult) : list Formatted :=
  imap formatResult results.

(** [l.slice(0, count)] for an integer [count]: a negative end counts from
    the end of the array. *)
Definition slice0 {A} (l : list A) (count : Z) : list A :=
  if count <? 0
  then firstn (Z.to_nat (Z.max 0 (Z.of_nat (length l) + count))) l
  else firstn (Z.to_nat count) l.

(** [options.count ? formattedResults.slice(0, options.count)
                   : formattedResults]: [count] is undefined ([None]), NaN,
    an integer or an infinity; undefined, NaN and 0 are falsy, and [slice]
    takes [Infinity] for the length and [-Infinity] for 0. *)
Definition limited {A} (count : option num) (l : list A) : list A :=
  match count with
  | Some (Some (Int c)) => if c =? 0 then l else slice0 l c
  | Some (Some PlusInfinity) => l
  | Some (Some MinusInfinity) => []
  | _ => l
  end.

(** ** commands/tools.ts: the filter of the listing *)

(** [options.filter ? tools.filter((tool) =>
      tool.name.toLowerCase().includes(options.filter.toLowerCase()))
    : tools] *)
Definition filterTools (filter : option string) (tools : list Tool)
  : list Tool :=
  match filter with
  | Some f =>
      if truthy f
      then List.filter
             (fun tool => includes (toLowerCase (name tool)) (toLowerCase f))
             tools
      else tools
  | None => tools
  end.

(** ** commands/doctor.ts: tools by server *)

(** [s.split(sep)] for a separator of one code unit. *)
Fixpoint split (sep : ascii) (s : string) : list string :=
  match s with
  | EmptyString => [EmptyString]
  | String c s' =>
      if Ascii.eqb c sep then EmptyString :: split sep s'
      else match split sep s' with
           | part :: parts => String c part :: parts
           | [] => [String c EmptyString]
           end
  end.

(** [parts.length >= 2 ? parts[1] : 'unknown'] with
    [parts = name.split('.')]. *)
Definition serverOf (toolName : string) : string :=
  match split "." toolName with
  | _ :: server :: _ => server
  | _ => "unknown"
  end.

(** The names that an object made by [{}] inherits from
    [Object.prototype]. *)
Definition inheritedNames : list string :=
  [ "constructor"; "hasOwnProperty"; "isPrototypeOf"; "propertyIsEnumerable";
    "toLocaleString"; "toString"; "valueOf"; "__proto__";
    "__defineGetter__"; "__defineSetter__"; "__lookupGetter__";
    "__lookupSetter__" ].

Definition isInherited (key : string) : bool :=
  existsb (String.eqb key) inheritedNames.

(** A value of the accumulator: a number, or the string that comes of
    adding 1 to something that is no number. *)
Inductive Tally :=
| Count (n : Z)
| Text.

(** [acc[server] = (acc[server] || 0) + 1].  A name that is no own property
    is looked up in [Object.prototype], where it is a function or an object,
    and [+ 1] then makes a string; the assignment to ["__proto__"] reaches
    the accessor, which ignores a string. *)
Definition bump (acc : gmap string Tally) (server : string)
  : gmap string Tally :=
  let current :=
    match acc !! server with
    | Some v => Some v
    | None => if isInherited server then Some Text else None
    end in
  let next :=
    match current with
    | Some (Count n) => Count ((if n =? 0 then 0 else n) + 1)
    | Some Text => Text
    | None => Count (0 + 1)
    end in
  if String.eqb server "__proto__" then acc else <[server := next]> acc.

(** [tools.reduce((acc, tool) => ..., {})] *)
Definition byServer (tools : list Tool) : gmap string Tally :=
  fold_left (fun acc tool => bump acc (serverOf (name tool))) tools ∅.

(** The sum of the numbers of the accumulator. *)
Definition total (acc : gmap string Tally) : Z :=
  map_fold (fun _ v sum => match v with Count n => n + sum | Text => sum end)
           0 acc.

(** Every entry of the accumulator is a positive number. *)
Definition counting (acc : gmap string Tally) : Prop :=
  map_Forall (fun _ v => exists n, v = Count n /\ 0 < n) acc.

End Reports.

(* ===================================================================== *)
(** * lib/silence.ts                                                       *)
(* ===================================================================== *)

Module Silence.
Import JsString.

(** The functions that [console.log] and [console.error] hold: the ones
    they held when silence.ts was loaded, or the filters that
    [silenceConsole] installs. *)
Inductive Printer :=
| OriginalLog
| OriginalError
| FilteringLog
| FilteringError.

(** [console.log], [console.error] and the module variable [silenced]. *)
Record Console := {
  consoleLog : Printer;
  consoleError : Printer;
  silenced : bool;
}.

(** The console once silence.ts has been loaded. *)
Definition loaded : Console :=
  {| consoleLog := OriginalLog; consoleError := OriginalError;
     silenced := false |}.

Definition silenceConsole (c : Console) : Console :=
  if silenced c then c
  else {| consoleLog := FilteringLog; consoleError := FilteringError;
          silenced := true |}.

Definition restoreConsole (c : Console) : Console :=
  if negb (silenced c) then c
  else {| consoleLog := OriginalLog; consoleError := OriginalError;
          silenced := false |}.

(** The test of the filter on [console.log], [msg] being
    [String(args[0] || '')]. *)
Definition logFiltered (msg : string) : bool :=
  includes msg "[McpCommunicationProtocol]"
  || includes msg "UTCP Client"
  || includes msg "Successfully registered manual"
  || includes msg "Calling tool"
  || includes msg "via protocol".

(** The test of the filter on [console.error]. *)
Definition errorFiltered (msg : string) : bool :=
  includes msg "[McpCommunicationProtocol" || includes msg "UTCP".

(** A call of the printer whose first argument is the string [msg] reaches
    the original function. *)
Definition reaches (p : Printer) (msg : string) : bool :=
  match p with
  | OriginalLog | OriginalError => true
  | FilteringLog => negb (logFiltered msg)
  | FilteringError => negb (errorFiltered msg)
  end.

End Silence.

(* ===================================================================== *)
(** * commands/tools.ts                                                    *)
(* ===================================================================== *)

Module Commands.
Import JsString Redact Mcp Checks Silence Reports.

(** What a command lets out: a call of [outputSuccess] (output.ts) with its
    argument, or a call of [console.error] that has reached the original
    function, with its text. *)
Inductive Emission :=
| OutputSuccess (payload : tree)
| ConsoleError (text : string).

(** How a command ends: its promise fulfils or rejects, or the process has
    exited through [process.exit]. *)
Inductive Ending :=
| Returns
| Rejects (e : Thrown)
| Exits (code : Z)
| Starves.

Record Process := {
  console : Console;
  emitted : list Emission;
  session : State;
}.

(** How [parseToolArgs] settles: with the arguments, with the [SyntaxError]
    of [JSON.parse], or with another error (of [fs.readFile] or of the
    standard input). *)
Inductive ToolArgs :=
| ArgsParsed (args : tree)
| ArgsSyntaxError (message : string)
| ArgsRejected (e : Thrown).

Definition P (A : Type) := Process -> Outcome A * Process.

Definition bindP {A B} (m : P A) (k : A -> P B) : P B :=
  fun p =>
    match m p with
    | (Return a, p') => k a p'
    | (Throw e, p') => (Throw e, p')
    | (OutOfFuel, p') => (OutOfFuel, p')
    end.

Declare Scope command_scope.
Delimit Scope command_scope with command.
Notation "'let*' x := m 'in' k" := (bindP m (fun x => k))
  (at level 10, x name, m at level 100, k at level 200) : command_scope.
Notation "'run' m 'then' k" := (bindP m (fun _ => k))
  (at level 10, m at level 100, k at level 200) : command_scope.

(** A method of the client of the command. *)
Definition onSession {A} (m : M A) : P A :=
  fun p =>
    match m (session p) with
    | (r, st) =>
        (r, {| console := console p; emitted := emitted p; session := st |})
    end.

Definition onConsole (f : Console -> Console) (p : Process) : Process :=
  {| console := f (console p); emitted := emitted p; session := session p |}.

Definition emitting (e : Emission) (p : Process) : Process :=
  {| console := console p; emitted := emitted p ++ [e];
     session := session p |}.

(** [new ZaiMcpClient(options)]: the fields of the client start afresh, the
    cache file and the history of the outside world are what they are. *)
Definition newSession (p : Process) : Process :=
  {| console := console p; emitted := emitted p;
     session := {| client := None; initPromise := None;
                   isInitialized := false;
                   cacheFile := cacheFile (session p);
                   log := log (session p) |} |}.

Section Tools.
Local Open Scope command_scope.

Variable env : Env.
Variable world : World.
Variable JSON_parse : string -> option tree.
Variable timeoutMessage : num -> string.
(** [formatErrorOutput] (errors.ts), which turns an error into a text. *)
Variable formatErrorOutput : Thrown -> string.
(** What [outputSuccess] (output.ts) throws on a payload, if it throws. *)
Variable outputSuccessThrows : tree -> option Thrown.

Definition outputSuccess (payload : tree) : P unit :=
  fun p =>
    match outputSuccessThrows payload with
    | Some e => (Throw e, emitting (OutputSuccess payload) p)
    | None => (Return tt, emitting (OutputSuccess payload) p)
    end.

(** [console.error(text)] *)
Definition callConsoleError (text : string) (p : Process) : Process :=
  if reaches (consoleError (console p)) text
  then emitting (ConsoleError text) p
  else p.

(** [try { body } catch (error) { restoreConsole();
    console.error(formatErrorOutput(error)); process.exit(1); }
    finally { await client.close().catch(() => {}); restoreConsole(); }]:
    the process exits inside the handler, so the [finally] block runs only
    when the body has returned. *)
Definition guarded (body : P unit) (p : Process) : Ending * Process :=
  match body p with
  | (Return _, p') =>
      (Returns,
       onConsole restoreConsole
         {| console := console p'; emitted := emitted p';
            session := afterClose world (session p') |})
  | (Throw error, p') =>
      (Exits 1,
       callConsoleError (formatErrorOutput error)
                        (onConsole restoreConsole p'))
  | (OutOfFuel, p') => (Starves, p')
  end.

(** [listTools(options)] with [options.typescript] falsy. *)
Definition listTools (filter : option string) (full : bool)
  : Process -> Ending * Process :=
  fun p =>
    guarded
      (let* tools := onSession (Mcp.listTools env world timeoutMessage false)
       in
       let filtered := filterTools filter tools in
       if full
       then outputSuccess
              (TArr (map (fun tool =>
                            toolTree (redactTool (activeApiKey env) tool))
                         filtered))
       else outputSuccess (TArr (map (fun tool => TStr (name tool)) filtered)))
      (newSession (onConsole silenceConsole p)).

Definition showTool (name : string) : Process -> Ending * Process :=
  fun p =>
    guarded
      (let* tool := onSession (getTool env world timeoutMessage name) in
       match tool with
       | None =>
           fun p1 =>
             (Throw (ValidationError ("Unknown tool: " +:+ name)),
              onConsole restoreConsole p1)
       | Some t => outputSuccess (toolTree (redactTool (activeApiKey env) t))
       end)
      (newSession (onConsole silenceConsole p)).

(** [callTool(toolName, options)], [parsed] being the way
    [parseToolArgs(options)] settles and [dryRun] being [options.dryRun]. *)
Definition callTool (fuel : nat) (toolName : string) (parsed : ToolArgs)
           (dryRun : bool) : Process -> Ending * Process :=
  fun p =>
    match parsed with
    | ArgsSyntaxError message =>
        (Exits 1,
         callConsoleError
           (formatErrorOutput (ValidationError ("Invalid JSON: " +:+ message)))
           p)
    | ArgsRejected e => (Rejects e, p)
    | ArgsParsed args =>
        guarded
          (let* resolved :=
             onSession (resolveToolName env world timeoutMessage toolName) in
           if dryRun
           then outputSuccess (TObj [("tool", TStr resolved); ("args", args)])
           else
             let* result :=
               onSession (callToolRaw env world JSON_parse timeoutMessage
                                      fuel resolved args) in
             outputSuccess result)
          (newSession (onConsole silenceConsole p))
    end.

End Tools.





End Commands.

Module MoreWorlds.
Import JsString Redact Mcp Samples Silence Reports Commands.

(** The transport cannot be created: the connection is refused. *)
Definition unreachableWorld : World :=
  {| createOutcome :=
       fun _ => inl (OtherError "connect ECONNREFUSED 127.0.0.1:443");
     registerOutcome := fun _ => inr {| success := true; errors := [] |};
     getToolsOutcome := fun _ => inr sampleCatalog;
     callToolOutcome := fun _ _ _ => inr TNull;
     closeBehaviour := fun _ => CloseHangs;
     randomNumerator := fun _ => 0;
     dateNow := fun _ => 0;
     readFails := fun _ => false;
     writeFails := fun _ => false |}.

(** The first [failures] tool calls fail with a gateway error, every later
    one returns ["ok"]. *)
Definition flakyWorld (failures : nat) : World :=
  {| createOutcome := fun l => inr (utcpClient (length l));
     registerOutcome := fun _ => inr {| success := true; errors := [] |};
     getToolsOutcome := fun _ => inr sampleCatalog;
     callToolOutcome :=
       fun l _ _ =>
         if (countEvents isCallTool l <? failures)%nat
         then inl (OtherError "HTTP 503 from upstream")
         else inr (TStr "ok");
     closeBehaviour := fun _ => CloseHangs;
     randomNumerator := fun _ => 0;
     dateNow := fun _ => 0;
     readFails := fun _ => false;
     writeFails := fun _ => false |}.

(** The cache file can be neither read nor written. *)
Definition brokenDiskWorld : World :=
  {| createOutcome := fun l => inr (utcpClient (length l));
     registerOutcome := fun _ => inr {| success := true; errors := [] |};
     getToolsOutcome := fun _ => inr sampleCatalog;
     callToolOutcome := fun _ _ _ => inr TNull;
     closeBehaviour := fun _ => CloseHangs;
     randomNumerator := fun _ => 0;
     dateNow := fun _ => 0;
     readFails := fun _ => true;
     writeFails := fun _ => true |}.

(** A catalog with tools of two servers. *)
Definition mixedCatalog : list Tool :=
  [ mkTool "zai.vision.analyze_image" [];
    mkTool "zai.search.webSearchPrime" [];
    mkTool "zai.vision.extract_text" [] ].

(** A process that has just started: the console is untouched, nothing has
    been let out, and the client to come finds the cache file [file]. *)
Definition bootProcess (file : FileContent) : Process :=
  {| console := loaded; emitted := []; session := newClient file |}.

(** A stand-in for [formatErrorOutput]. *)
Definition sampleFormat (e : Thrown) : string :=
  className e +:+ ": " +:+ messageOf e.

(** [outputSuccess] returns. *)
Definition quietOutput : tree -> option Thrown := fun _ => None.

(** Two search results, the second without publisher and date. *)
Definition sampleResults : list WebSearchResult :=
  [ {| refer := "ref_1"; title := "First"; link := "https://a.example";
       media := "A"; content := "alpha"; icon := "";
       publish_date := Some "2024-01-15" |};
    {| refer := "ref_2"; title := "Second"; link := "https://b.example";
       media := ""; content := "beta"; icon := "";
       publish_date := None |} ].

End MoreWorlds.

Import JsString Redact Mcp Samples.

(* ===================================================================== *)
(** * Sanity checks on concrete inputs                                     *)
(* ===================================================================== *)

Example includes_ex : includes "uses secret123 internally" "secret123" = true.
Proof. reflexivity. Qed.

Example redactString_note :
  redactString "uses secret123 internally" (Some "secret123")
  = "uses [REDACTED] internally".
Proof. reflexivity. Qed.

Example redactString_bearer :
  redactString "Bearer   abc.def rest" None = "Bearer [REDACTED] rest".
Proof. reflexivity. Qed.

Example replaceAll_overlap : replaceAll "aaa" "aa" "X" = "Xa".
Proof. reflexivity. Qed.

Example lower_ex : toLowerCase "HTTP 500 Auth" = "http 500 auth".
Proof. reflexivity. Qed.

(** A property called ["__proto__"] is copied but stored nowhere. *)
Example redactSecrets_proto_example :
  match redactSecrets 2 None
          (<[1%positive := CObj [ ("__proto__", VStr "x"); ("a", VNum 1) ]]> ∅)
          (VRef 1%positive)
  with
  | Some (h', v') =>
      v' = VRef 2%positive
      /\ h' !! 2%positive = Some (CObj [ ("a", VNum 1) ])
  | None => False
  end.
Proof. vm_compute. repeat split. Qed.

Example jsonClone_ex :
  jsonClone (TObj [ ("a", TUndefined); ("b", TArr [ TUndefined; TNum 1 ]) ])
  = TObj [ ("b", TArr [ TNull; TNum 1 ]) ].
Proof. reflexivity. Qed.

Example parseInt_ex :
  (parseInt "  -12abc", parseInt "abc", parseInt "", parseInt "+7")
  = (Some (Int (-12)), None, None, Some (Int 7)).
Proof. reflexivity. Qed.

(* ===================================================================== *)
(** * Facts about the string primitives                                    *)
(* ===================================================================== *)

Section StringFacts.

Lemma append_cons (x : ascii) (a b : string) :
  String x a +:+ b = String x (a +:+ b).
Proof. reflexivity. Qed.

Lemma append_nil (b : string) : "" +:+ b = b.
Proof. reflexivity. Qed.

Lemma append_assoc (a b c : string) : (a +:+ b) +:+ c = a +:+ (b +:+ c).
Proof.
  induction a as [|x a IH]; [reflexivity|].
  rewrite !append_cons. now rewrite IH.
Qed.

Lemma append_empty_r (a : string) : a +:+ "" = a.
Proof.
  induction a as [|x a IH]; [reflexivity|].
  rewrite append_cons. now rewrite IH.
Qed.

Lemma length_append (a b : string) :
  String.length (a +:+ b) = (String.length a + String.length b)%nat.
Proof.
  induction a as [|x a IH]; [reflexivity|].
  rewrite append_cons. simpl. now rewrite IH.
Qed.

Lemma startsWith_append (p rest : string) : startsWith (p +:+ rest) p = true.
Proof.
  induction p as [|x p IH]; [reflexivity|].
  rewrite append_cons. simpl. now rewrite Ascii.eqb_refl, IH.
Qed.

Lemma startsWith_inv (s p : string) :
  startsWith s p = true -> exists rest, s = p +:+ rest.
Proof.
  revert s; induction p as [|x p IH]; intros s H.
  - now exists s.
  - destruct s as [|y s]; simpl in H; [discriminate|].
    apply andb_true_iff in H as [Hxy Hrest].
    apply Ascii.eqb_eq in Hxy; subst y.
    destruct (IH _ Hrest) as [rest ->]. now exists rest.
Qed.

Lemma includes_unfold (s p : string) :
  includes s p
  = startsWith s p
    || match s with EmptyString => false | String _ s' => includes s' p end.
Proof. destruct s; reflexivity. Qed.

Lemma includes_append (pre p post : string) :
  includes (pre +:+ p +:+ post) p = true.
Proof.
  induction pre as [|x pre IH].
  - rewrite append_nil, includes_unfold. now rewrite startsWith_append.
  - rewrite append_cons, includes_unfold, IH. apply orb_true_r.
Qed.

Lemma includes_inv (s p : string) :
  includes s p = true -> exists pre post, s = pre +:+ p +:+ post.
Proof.
  induction s as [|x s IH]; rewrite includes_unfold; intros H.
  - rewrite orb_false_r in H. apply startsWith_inv in H as [rest ->].
    now exists "", rest.
  - apply orb_true_iff in H as [H|H].
    + apply startsWith_inv in H as [rest ->]. now exists "", rest.
    + destruct (IH H) as (pre & post & ->). now exists (String x pre), post.
Qed.

Lemma toLowerCase_append (a b : string) :
  toLowerCase (a +:+ b) = toLowerCase a +:+ toLowerCase b.
Proof.
  induction a as [|x a IH]; [reflexivity|].
  rewrite append_cons. simpl. now rewrite IH.
Qed.

(** A needle that lower-casing leaves alone is still found after the
    haystack has been lower-cased. *)
Lemma includes_toLowerCase (s p : string) :
  toLowerCase p = p -> includes s p = true ->
  includes (toLowerCase s) p = true.
Proof.
  intros Hp H. apply includes_inv in H as (pre & post & ->).
  rewrite !toLowerCase_append, Hp. apply includes_append.
Qed.

Lemma dropWhile_run (p : ascii -> bool) (a b : string) :
  stringAll p a = true -> stopsAt p b = true -> dropWhile p (a +:+ b) = b.
Proof.
  intros Ha Hb. induction a as [|x a IH].
  - rewrite append_nil. destruct b as [|y b]; simpl in *; [reflexivity|].
    now destruct (p y).
  - simpl in Ha. apply andb_true_iff in Ha as [Hx Ha].
    rewrite append_cons. simpl. rewrite Hx. auto.
Qed.

(** ** [replaceAll] replaces every occurrence, from the left *)

Lemma startsWith_empty (key : string) :
  key <> "" -> startsWith "" key = false.
Proof. destruct key; [congruence | reflexivity]. Qed.

Lemma indexOf_unfold (s key : string) :
  indexOf s key
  = if startsWith s key then Some O
    else match s with
         | EmptyString => None
         | String _ s' => option_map S (indexOf s' key)
         end.
Proof. destruct s; reflexivity. Qed.

Lemma indexOf_none_includes (s key : string) :
  indexOf s key = None <-> includes s key = false.
Proof.
  induction s as [|c s IH]; rewrite indexOf_unfold, includes_unfold.
  - destruct (startsWith "" key); simpl; split; congruence.
  - destruct (startsWith (String c s) key); simpl; [split; congruence|].
    rewrite <- IH. destruct (indexOf s key); simpl; split; congruence.
Qed.

Lemma replaceAllFrom_skip (key marker : string) (k : nat) (s : string) :
  replaceAllFrom key marker k s = replaceAllFrom key marker O (drop k s).
Proof.
  revert s. induction k as [|k IH]; intros s; [reflexivity|].
  destruct s as [|c s]; [reflexivity|]. simpl. apply IH.
Qed.

Lemma replaceAll_absent (s key marker : string) :
  indexOf s key = None -> replaceAll s key marker = s.
Proof.
  unfold replaceAll. induction s as [|c s IH]; [reflexivity|].
  rewrite indexOf_unfold. simpl.
  destruct (startsWith (String c s) key); [discriminate|].
  destruct (indexOf s key); [discriminate|]. intros _. now rewrite IH.
Qed.

Lemma replaceAll_leftmost (s key marker : string) (i : nat) :
  key <> "" -> indexOf s key = Some i ->
  replaceAll s key marker
  = take i s +:+ marker
    +:+ replaceAll (drop (i + String.length key) s) key marker.
Proof.
  unfold replaceAll. intros Hkey. revert i.
  induction s as [|c s IH]; intros i; rewrite indexOf_unfold.
  - now rewrite (startsWith_empty key Hkey).
  - simpl. destruct (startsWith (String c s) key) eqn:Hstart.
    + intros [= <-]. rewrite replaceAllFrom_skip.
      destruct key as [|k0 key]; [congruence|]. simpl.
      now rewrite Nat.sub_0_r.
    + destruct (indexOf s key) as [i'|]; [|discriminate].
      intros [= <-]. simpl. rewrite append_cons. f_equal. now apply IH.
Qed.

End StringFacts.

(* ===================================================================== *)
(** * The Bearer rule of [redactString]                                   *)
(* ===================================================================== *)

Section BearerRule.

Lemma matchBearer_shape (ws token rest : string) :
  ws <> "" -> stringAll isSpace ws = true ->
  token <> "" -> stringAll notSpace token = true ->
  stopsAt notSpace rest = true ->
  matchBearer ("Bearer" +:+ ws +:+ token +:+ rest) = Some rest.
Proof.
  intros Hws Hsp Htok Hns Hrest.
  unfold matchBearer. rewrite startsWith_append.
  change (drop 6 ("Bearer" +:+ ws +:+ token +:+ rest))
    with (ws +:+ token +:+ rest).
  assert (Hstop : stopsAt isSpace (token +:+ rest) = true).
  { destruct token as [|c token]; [congruence|].
    rewrite append_cons. simpl in *.
    apply andb_true_iff in Hns as [Hc _]. unfold notSpace in Hc.
    now rewrite Hc. }
  rewrite (dropWhile_run isSpace ws (token +:+ rest) Hsp Hstop).
  change (fun c : ascii => negb (isSpace c)) with notSpace.
  rewrite (dropWhile_run notSpace token rest Hns Hrest).
  rewrite !length_append.
  destruct ws as [|w ws]; [congruence|].
  destruct token as [|c token]; [congruence|]. simpl String.length.
  replace (_ <? _)%nat with true by (symmetry; apply Nat.ltb_lt; lia).
  replace (_ <? _)%nat with true by (symmetry; apply Nat.ltb_lt; lia).
  reflexivity.
Qed.

Lemma replaceBearer_at_start (s rest : string) :
  matchBearer s = Some rest -> replaceBearer s = "Bearer [REDACTED]" +:+ rest.
Proof.
  intros H.
  assert (Hunfold : replaceBearer s
                    = match matchBearer s with
                      | Some r => "Bearer [REDACTED]" +:+ r
                      | None =>
                          match s with
                          | EmptyString => EmptyString
                          | String c s' => String c (replaceBearer s')
                          end
                      end) by (destruct s; reflexivity).
  rewrite Hunfold. now rewrite H.
Qed.

(** C8, as the code has it: the Bearer shape is looked for at the start of
    the string only (the test is anchored).  When the string, after the
    credential has been scrubbed, is the word Bearer, a run of white space,
    a token of other code units and a rest that does not continue the token,
    the token is replaced by the marker and the white space by one blank. *)
Theorem redactString_bearer_at_start
  (value : string) (apiKey : option string) (ws token rest : string) :
  scrubCredential value apiKey = "Bearer" +:+ ws +:+ token +:+ rest ->
  ws <> "" -> stringAll isSpace ws = true ->
  token <> "" -> stringAll notSpace token = true ->
  stopsAt notSpace rest = true ->
  redactString value apiKey = "Bearer " +:+ MARKER +:+ rest.
Proof.
  intros Hv Hws Hsp Htok Hns Hrest. unfold redactString, testBearer.
  rewrite Hv.
  pose proof (matchBearer_shape ws token rest Hws Hsp Htok Hns Hrest) as Hm.
  rewrite Hm. now rewrite (replaceBearer_at_start _ _ Hm).
Qed.

Lemma redactString_bearer_at_start_witness :
  scrubCredential "Bearer  abc.def tail" None
  = "Bearer" +:+ "  " +:+ "abc.def" +:+ " tail"
  /\ redactString "Bearer  abc.def tail" None = "Bearer [REDACTED] tail".
Proof.
  split; [reflexivity|].
  apply (redactString_bearer_at_start
           "Bearer  abc.def tail" None "  " "abc.def" " tail");
    solve [reflexivity | discriminate].
Defined.

(** C8 as stated fails: a Bearer shape that does not start the string is
    left as it is, token included, although the unanchored replacement would
    have found it. *)
Lemma redactString_bearer_inside_counterexample :
  let s := "Authorization: Bearer abc123" in
  s = "Authorization: " +:+ "Bearer" +:+ " " +:+ "abc123" +:+ ""
  /\ matchBearer (drop 15 s) = Some ""
  /\ replaceBearer s = "Authorization: Bearer [REDACTED]"
  /\ redactString s None = s
  /\ includes (redactString s None) "abc123" = true.
Proof. repeat split; reflexivity. Qed.

End BearerRule.

(* ===================================================================== *)
(** * The credential rule of [redactString]                               *)
(* ===================================================================== *)

Section CredentialRule.

Lemma truthy_nonempty (key : string) : key <> "" -> truthy key = true.
Proof. destruct key; [congruence | reflexivity]. Qed.

(** Scrubbing a known credential is [replaceAll], whether or not the
    credential occurs. *)
Lemma scrubCredential_replaceAll (s key : string) :
  key <> "" -> scrubCredential s (Some key) = replaceAll s key MARKER.
Proof.
  intros Hkey. unfold scrubCredential. rewrite (truthy_nonempty key Hkey).
  simpl. destruct (includes s key) eqn:Hinc; [reflexivity|].
  symmetry. apply replaceAll_absent. now apply indexOf_none_includes.
Qed.

(** The scrubbed string, occurrence by occurrence: what precedes the
    leftmost occurrence of the credential is kept, the occurrence becomes
    the marker, and what follows it is scrubbed in the same way; a string
    without occurrence is kept. *)
Lemma scrubCredential_occurrences (s key : string) :
  key <> "" ->
  scrubCredential s (Some key)
  = match indexOf s key with
    | None => s
    | Some i =>
        take i s +:+ MARKER
        +:+ scrubCredential (drop (i + String.length key) s) (Some key)
    end.
Proof.
  intros Hkey. rewrite !scrubCredential_replaceAll by exact Hkey.
  destruct (indexOf s key) as [i|] eqn:Hidx.
  - rewrite scrubCredential_replaceAll by exact Hkey.
    now apply replaceAll_leftmost.
  - now apply replaceAll_absent.
Qed.

End CredentialRule.

(* ===================================================================== *)
(** * Retry policy: budget and delay                                       *)
(* ===================================================================== *)

Lemma digit_not_space (c : ascii) : isDigit c = true -> isSpace c = false.
Proof.
  destruct c as [[] [] [] [] [] [] [] []]; intros H; try discriminate H;
    reflexivity.
Qed.

Lemma dropWhile_digit (c : ascii) (digits : string) :
  isDigit c = true ->
  dropWhile isSpace (String c digits) = String c digits.
Proof. intros H. simpl. now rewrite (digit_not_space c H). Qed.

Lemma digit_not_sign (c : ascii) (digits : string) :
  isDigit c = true ->
  match String c digits with
  | String "-" r => (-1, r)
  | String "+" r => (1, r)
  | _ => (1, String c digits)
  end
  = (1, String c digits).
Proof.
  destruct c as [[] [] [] [] [] [] [] []]; intros H; try discriminate H;
    reflexivity.
Qed.

(** From 2^1024 on an integer is turned into Infinity. *)
Lemma toDouble_overflow (n : Z) : 2 ^ 1024 <= n -> toDouble n = PlusInfinity.
Proof.
  intros Hbig. unfold toDouble.
  assert (H53 : 2 ^ 53 < 2 ^ 1024) by (apply Z.pow_lt_mono_r; lia).
  replace (n <? 2 ^ 53) with false by (symmetry; apply Z.ltb_ge; lia).
  assert (Hpos : 0 < n) by lia.
  destruct (Z.log2_spec n Hpos) as [Hlow _].
  assert (Hlog : 1024 <= Z.log2 n).
  { rewrite <- (Z.log2_pow2 1024) by lia. now apply Z.log2_le_mono. }
  set (e := Z.log2 n) in *.
  set (ulp := 2 ^ (e - 52)).
  assert (Hulp : 0 < ulp) by (apply Z.pow_pos_nonneg; lia).
  assert (Hsplit : 2 ^ e = 2 ^ 52 * ulp).
  { unfold ulp. rewrite <- Z.pow_add_r by lia. f_equal. lia. }
  assert (Hq : 2 ^ 52 <= n / ulp).
  { apply Z.div_le_lower_bound; [exact Hulp|]. rewrite Z.mul_comm. lia. }
  assert (Hmono : 2 ^ 1024 <= 2 ^ e) by (apply Z.pow_le_mono_r; lia).
  cbv zeta.
  match goal with
  | |- (if ?b then _ else _) = _ =>
      replace b with false; [reflexivity|]
  end.
  symmetry. apply Z.ltb_ge.
  destruct ((ulp <? 2 * (n mod ulp))
            || (ulp =? 2 * (n mod ulp)) && Z.odd (n / ulp)); nia.
Qed.

Section RetryPolicy.

Variable env : Env.

(** C9: without any retry-count variable the budget is 2 for a name that
    contains [.vision.] and 0 for any other name; for a vision name an
    override (the first non-empty one of ZAI_MCP_VISION_RETRY_COUNT and
    Z_AI_RETRY_COUNT) that [parseInt] reads as a finite number is the
    budget, that number being the double nearest to the digits; an override
    that [parseInt] reads as NaN, or as an infinity because its digits run
    past the largest double, gives 0. *)
Theorem getRetryCount_budget (toolName : string) :
  (env "ZAI_MCP_RETRY_COUNT" = None ->
   env "ZAI_MCP_VISION_RETRY_COUNT" = None ->
   env "Z_AI_RETRY_COUNT" = None ->
   getRetryCount env toolName
   = if includes toolName ".vision." then 2 else 0)
  /\ (forall raw n,
        includes toolName ".vision." = true ->
        orElse (env "ZAI_MCP_VISION_RETRY_COUNT") (env "Z_AI_RETRY_COUNT")
        = Some raw ->
        parseInt raw = Some (Int n) ->
        getRetryCount env toolName = n)
  /\ (forall raw,
        includes toolName ".vision." = true ->
        orElse (env "ZAI_MCP_VISION_RETRY_COUNT") (env "Z_AI_RETRY_COUNT")
        = Some raw ->
        parseInt raw = None ->
        getRetryCount env toolName = 0)
  /\ (forall raw,
        includes toolName ".vision." = true ->
        orElse (env "ZAI_MCP_VISION_RETRY_COUNT") (env "Z_AI_RETRY_COUNT")
        = Some raw ->
        parseInt raw = Some PlusInfinity
        \/ parseInt raw = Some MinusInfinity ->
        getRetryCount env toolName = 0)
  /\ (forall digits,
        digits <> "" -> stringAll isDigit digits = true ->
        (parseDigits 0 digits < 2 ^ 53 ->
         parseInt digits = Some (Int (parseDigits 0 digits)))
        /\ (2 ^ 1024 <= parseDigits 0 digits ->
            parseInt digits = Some PlusInfinity)).
Proof.
  unfold getRetryCount. split; [|split; [|split; [|split]]].
  - intros -> -> ->. simpl. now destruct (includes toolName ".vision.").
  - intros raw n -> -> ->. reflexivity.
  - intros raw -> -> ->. reflexivity.
  - intros raw -> -> [-> | ->]; reflexivity.
  - intros digits Hne Hall.
    assert (Hparse : parseInt digits
                     = Some match toDouble (parseDigits 0 digits) with
                            | Int m => Int (1 * m)
                            | _ => PlusInfinity
                            end).
    { destruct digits as [|c digits]; [congruence|].
      pose proof Hall as Hc. cbn [stringAll] in Hc.
      apply andb_true_iff in Hc as [Hc _].
      unfold parseInt. rewrite (dropWhile_digit c digits Hc).
      rewrite (digit_not_sign c digits Hc). cbn [fst snd]. rewrite Hc.
      reflexivity. }
    rewrite Hparse. split.
    + intros Hsmall. unfold toDouble.
      replace (parseDigits 0 digits <? 2 ^ 53) with true
        by (symmetry; apply Z.ltb_lt; exact Hsmall).
      now rewrite Z.mul_1_l.
    + intros Hbig. now rewrite (toDouble_overflow _ Hbig).
Qed.

End RetryPolicy.

Lemma getRetryCount_budget_witness :
  getRetryCount emptyEnv "zai.vision.analyze_image" = 2
  /\ getRetryCount emptyEnv "zai.search.webSearchPrime" = 0
  /\ getRetryCount (envWith "ZAI_MCP_VISION_RETRY_COUNT" "5")
                   "zai.vision.analyze_image" = 5
  /\ getRetryCount (envWith "Z_AI_RETRY_COUNT" "many")
                   "zai.vision.analyze_image" = 0
  /\ getRetryCount (envWith "ZAI_MCP_VISION_RETRY_COUNT" manyDigits)
                   "zai.vision.analyze_image" = 0
  /\ parseInt "12" = Some (Int 12).
Proof.
  split; [|split; [|split; [|split; [|split]]]].
  - apply (proj1 (getRetryCount_budget emptyEnv "zai.vision.analyze_image"));
      reflexivity.
  - apply (proj1 (getRetryCount_budget emptyEnv "zai.search.webSearchPrime"));
      reflexivity.
  - apply (proj1 (proj2 (getRetryCount_budget
                           (envWith "ZAI_MCP_VISION_RETRY_COUNT" "5")
                           "zai.vision.analyze_image")) "5" 5);
      reflexivity.
  - apply (proj1 (proj2 (proj2 (getRetryCount_budget
                                  (envWith "Z_AI_RETRY_COUNT" "many")
                                  "zai.vision.analyze_image"))) "many");
      reflexivity.
  - apply (proj1 (proj2 (proj2 (proj2
             (getRetryCount_budget
                (envWith "ZAI_MCP_VISION_RETRY_COUNT" manyDigits)
                "zai.vision.analyze_image")))) manyDigits);
      [reflexivity | reflexivity | left; vm_compute; reflexivity].
  - refine (proj1 (proj2 (proj2 (proj2 (proj2
              (getRetryCount_budget emptyEnv "zai.vision.analyze_image"))))
                    "12" _ _) _);
      [discriminate | reflexivity | vm_compute; reflexivity].
Defined.

(** Digits that no double holds: beyond 2^53 the budget is the nearest
    double, and 1 followed by 309 zeros is read as Infinity, not finite,
    which gives 0. *)
Example getRetryCount_rounded :
  getRetryCount (envWith "ZAI_MCP_VISION_RETRY_COUNT" "9007199254740993")
                "zai.vision.analyze_image" = 9007199254740992
  /\ parseInt "9007199254740993" = Some (Int 9007199254740992)
  /\ String.length manyDigits = 310%nat
  /\ parseInt manyDigits = Some PlusInfinity
  /\ parseInt ("-" +:+ manyDigits) = Some MinusInfinity
  /\ getRetryCount (envWith "ZAI_MCP_RETRY_COUNT" manyDigits)
                   "zai.search.webSearchPrime" = 0.
Proof. vm_compute. repeat split. Qed.

(** An empty ZAI_MCP_VISION_RETRY_COUNT counts as unset. *)
Example getRetryCount_empty_override :
  getRetryCount (envWith "ZAI_MCP_VISION_RETRY_COUNT" "")
                "zai.vision.analyze_image" = 2.
Proof. reflexivity. Qed.

Section RetryDelay.

Variable env : Env.



End RetryDelay.


(* ===================================================================== *)
(** * [redactSecrets] makes a deep copy                                    *)
(* ===================================================================== *)

Section HeapFacts.

Lemma Forall2_weaken {A B} (R R' : A -> B -> Prop) (l : list A) (k : list B) :
  Forall (fun x => forall y, R x y -> R' x y) l ->
  Forall2 R l k -> Forall2 R' l k.
Proof.
  intros Hall H2. induction H2 as [|x y l k Hxy _ IH]; [constructor|].
  inversion Hall; subst. constructor; auto.
Qed.

(** A representation survives any change of the heap that keeps the cells
    it sits in, and may be read with any footprint that contains them. *)
Lemma repr_in_mono (P Q : loc -> Prop) (h h' : gmap loc cell) (t : tree) :
  (forall l c, P l -> h !! l = Some c -> Q l /\ h' !! l = Some c) ->
  forall v, repr_in P h t v -> repr_in Q h' t v.
Proof.
  intros Hcell. induction t as [| | | | |items IH|entries IH]
                  using tree_nested_ind;
    intros v Hv; inversion Hv; subst; try constructor.
  - destruct (Hcell _ _ H0 H1) as [Hq Hl]. econstructor; eauto.
    eapply Forall2_weaken; [|eassumption]. exact IH.
  - destruct (Hcell _ _ H0 H1) as [Hq Hl]. econstructor; eauto.
    eapply Forall2_weaken; [|eassumption].
    eapply Forall_impl; [exact IH|]. cbv beta.
    intros kt Hkt kv [Hk Hr]. split; auto.
Qed.


Lemma preserves_refl (h : gmap loc cell) : preserves h h.
Proof. intros l c H. exact H. Qed.

Lemma preserves_dom (h h' : gmap loc cell) :
  preserves h h' -> dom h ⊆ dom h'.
Proof.
  intros Hp l Hl. apply elem_of_dom in Hl as [c Hc].
  apply elem_of_dom. exists c. auto.
Qed.

Lemma insert_at_length {A} (l1 l2 : list A) (x y : A) :
  <[length l1 := x]> (l1 ++ y :: l2) = l1 ++ x :: l2.
Proof.
  induction l1 as [|a l1 IH]; simpl; [reflexivity|]. now rewrite IH.
Qed.

Section Callback.

Variable apiKey : option string.
Variable f : gmap loc cell -> val -> option (gmap loc cell * val).
Variable out : loc.
(** [I]: where the input may sit; [D]: what exists when the loop starts. *)
Variables Src D : gset loc.
Hypothesis out_in_D : out ∈ D.
Hypothesis out_not_in_Src : out ∉ Src.

Lemma mapItems_spec (items : list tree) :
  Forall (copies apiKey f) items ->
  forall (vs : list val) (done_ts : list tree) (done_vs : list val)
         (h : gmap loc cell),
    Forall2 (repr_in (fun l => l ∈ Src) h) items vs ->
    h !! out = Some (CArr (done_vs ++ replicate (length vs) VUndefined)) ->
    Forall2 (repr_in (fun l => l ∉ D) h) done_ts done_vs ->
    D ⊆ dom h ->
    exists h' new_vs,
      mapItems f out (length done_vs) vs h = Some h'
      /\ (forall l c, l <> out -> h !! l = Some c -> h' !! l = Some c)
      /\ h' !! out = Some (CArr (done_vs ++ new_vs))
      /\ Forall2 (repr_in (fun l => l ∉ D) h')
                 (done_ts ++ map (sanitized apiKey) items) (done_vs ++ new_vs).
Proof.
  induction 1 as [|t items Ht _ IH]; intros vs done_ts done_vs h Hin Hout Hdone HD.
  - inversion Hin; subst. exists h, []. simpl in *.
    rewrite !app_nil_r in *. repeat split; auto.
  - inversion Hin as [|? v ? vs' Hv Hvs]; subst. simpl.
    destruct (Ht h v) as (h1 & v1 & Hf & Hpres & Hnew).
    { eapply repr_in_mono; [|exact Hv]. intros; split; auto. }
    rewrite Hf. unfold setIndex. rewrite (Hpres _ _ Hout). simpl.
    rewrite insert_at_length.
    set (h2 := <[out := CArr (done_vs ++ v1 :: replicate (length vs') VUndefined)]> h1).
    assert (Hkeep : forall l c, l <> out -> h !! l = Some c -> h2 !! l = Some c).
    { intros l c Hne Hl. unfold h2. rewrite lookup_insert_ne; auto. }
    destruct (IH vs' (done_ts ++ [sanitized apiKey t]) (done_vs ++ [v1]) h2)
      as (h' & new_vs & Hrun & Hframe & Hcell & Hall).
    + eapply Forall2_weaken; [|exact Hvs].
      apply Forall_forall. intros t' _ v' Hr.
      eapply repr_in_mono; [|exact Hr]. intros l c Hl Hc. split; auto.
      apply Hkeep; auto. intros ->. contradiction.
    + unfold h2. rewrite lookup_insert_eq. now rewrite <- app_assoc.
    + apply Forall2_app.
      * eapply Forall2_weaken; [|exact Hdone].
        apply Forall_forall. intros t' _ v' Hr.
        eapply repr_in_mono; [|exact Hr]. intros l c Hl Hc. split; auto.
        apply Hkeep; auto. intros ->. contradiction.
      * constructor; [|constructor].
        eapply repr_in_mono; [|exact Hnew]. intros l c Hl Hc.
        assert (Hne : l <> out).
        { intros ->. apply Hl. apply HD. exact out_in_D. }
        split; [|unfold h2; rewrite lookup_insert_ne; auto].
        intros HlD. apply Hl. apply HD. exact HlD.
    + unfold h2. rewrite dom_insert_L.
      pose proof (preserves_dom _ _ Hpres) as Hdom.
      intros l Hl. apply elem_of_union. right. apply Hdom, HD, Hl.
    + rewrite length_app in Hrun. simpl in Hrun.
      replace (length done_vs + 1)%nat with (S (length done_vs)) in Hrun by lia.
      exists h', (v1 :: new_vs). rewrite Hrun.
      repeat split.
      * intros l c Hne Hl. apply Hframe; auto.
      * rewrite Hcell. now rewrite <- app_assoc.
      * rewrite <- !app_assoc in Hall. exact Hall.
Qed.


Lemma assocSet_new (es : list (string * val)) (key : string) (v : val) :
  key ∉ map fst es -> assocSet es key v = es ++ [(key, v)].
Proof.
  induction es as [|[k x] es IH]; simpl; intros Hk; [reflexivity|].
  destruct (String.eqb k key) eqn:E.
  - apply String.eqb_eq in E. subst. exfalso. apply Hk. left.
  - rewrite IH; [reflexivity|]. intros Hin. apply Hk. now right.
Qed.

Lemma NoDup_app_drop {A} (a b : list A) (x : A) :
  NoDup (a ++ x :: b) -> NoDup (a ++ b).
Proof.
  intros H. apply NoDup_app in H as (Ha & Hdisj & Hb).
  apply NoDup_cons in Hb as [_ Hb]. apply NoDup_app. repeat split; auto.
  intros y Hy Hyb. apply (Hdisj y Hy). now right.
Qed.

Lemma redactEntries_spec (entries : list (string * tree)) :
  Forall (fun kt => copies apiKey f (snd kt)) entries ->
  forall (es : list (string * val)) (done_ts : list (string * tree))
         (done_es : list (string * val)) (h : gmap loc cell),
    Forall2 (fun kt kv =>
               fst kt = fst kv
               /\ repr_in (fun l => l ∈ Src) h (snd kt) (snd kv))
            entries es ->
    NoDup (map fst done_es ++ map fst entries) ->
    h !! out = Some (CObj done_es) ->
    Forall2 (fun kt kv =>
               fst kt = fst kv
               /\ repr_in (fun l => l ∉ D) h (snd kt) (snd kv))
            done_ts done_es ->
    D ⊆ dom h ->
    exists h' new_es,
      redactEntries f out es h = Some h'
      /\ (forall l c, l <> out -> h !! l = Some c -> h' !! l = Some c)
      /\ h' !! out = Some (CObj (done_es ++ new_es))
      /\ Forall2 (fun kt kv =>
                    fst kt = fst kv
                    /\ repr_in (fun l => l ∉ D) h' (snd kt) (snd kv))
                 (done_ts ++ sanitizedEntries (sanitized apiKey) entries)
                 (done_es ++ new_es).
Proof.
  induction 1 as [|[k t] entries Ht _ IH];
    intros es done_ts done_es h Hin Hnodup Hout Hdone HD.
  - inversion Hin; subst. exists h, []. simpl in *.
    rewrite !app_nil_r in *. repeat split; auto.
  - inversion Hin as [|? [k' v] ? es' [Hk Hv] Hes]; subst.
    simpl in Hk, Hv, Ht, Hnodup. subst k'.
    (* what remains to be done once the heap has moved on to [h1] *)
    assert (Hrest : forall (h1 : gmap loc cell),
               (forall l c, l <> out -> h !! l = Some c -> h1 !! l = Some c) ->
               Forall2 (fun kt kv =>
                          fst kt = fst kv
                          /\ repr_in (fun l => l ∈ Src) h1 (snd kt) (snd kv))
                       entries es').
    { intros h1 Hkeep. eapply Forall2_weaken; [|exact Hes].
      apply Forall_forall. intros t' _ v' [Hk' Hr]. split; auto.
      eapply repr_in_mono; [|exact Hr]. intros l c Hl Hc. split; auto.
      apply Hkeep; auto. intros ->. contradiction. }
    assert (Hkept : forall (h1 : gmap loc cell),
               (forall l c, l <> out -> h !! l = Some c -> h1 !! l = Some c) ->
               Forall2 (fun kt kv =>
                          fst kt = fst kv
                          /\ repr_in (fun l => l ∉ D) h1 (snd kt) (snd kv))
                       done_ts done_es).
    { intros h1 Hkeep. eapply Forall2_weaken; [|exact Hdone].
      apply Forall_forall. intros t' _ v' [Hk' Hr]. split; auto.
      eapply repr_in_mono; [|exact Hr]. intros l c Hl Hc. split; auto.
      apply Hkeep; auto. intros ->. apply Hl. exact out_in_D. }
    (* the state after the property [k] has been stored with value [x] *)
    assert (Hstep : String.eqb k "__proto__" = false ->
               forall (h1 : gmap loc cell) (x : val) (tx : tree),
               preserves h h1 ->
               repr_in (fun l => l ∉ D) h1 tx x ->
               exists h' new_es,
                 redactEntries f out es' (setProperty h1 out k x) = Some h'
                 /\ (forall l c, l <> out -> h !! l = Some c -> h' !! l = Some c)
                 /\ h' !! out = Some (CObj (done_es ++ (k, x) :: new_es))
                 /\ Forall2 (fun kt kv =>
                               fst kt = fst kv
                               /\ repr_in (fun l => l ∉ D) h' (snd kt) (snd kv))
                            (done_ts ++ (k, tx)
                             :: sanitizedEntries (sanitized apiKey) entries)
                            (done_es ++ (k, x) :: new_es)).
    { intros Hkproto h1 x tx Hpres Hx.
      assert (Hknew : k ∉ map fst done_es).
      { apply NoDup_app in Hnodup as (_ & Hdisj & _).
        intros Hkin. apply (Hdisj k Hkin). left. }
      unfold setProperty. rewrite Hkproto, (Hpres _ _ Hout).
      rewrite (assocSet_new _ _ _ Hknew).
      set (h2 := <[out := CObj (done_es ++ [(k, x)])]> h1).
      assert (Hkeep : forall l c, l <> out -> h !! l = Some c ->
                                  h2 !! l = Some c).
      { intros l c Hne Hl. unfold h2. rewrite lookup_insert_ne; auto. }
      destruct (IH es' (done_ts ++ [(k, tx)]) (done_es ++ [(k, x)]) h2)
        as (h' & new_es & Hrun & Hframe & Hcell & Hall); auto.
      - rewrite map_app. simpl. now rewrite <- app_assoc.
      - unfold h2. now rewrite lookup_insert_eq.
      - apply Forall2_app; [auto|].
        constructor; [|constructor]. split; [reflexivity|]. simpl.
        eapply repr_in_mono; [|exact Hx]. intros l c Hl Hc. split; auto.
        unfold h2. rewrite lookup_insert_ne; auto.
        intros <-. apply Hl. exact out_in_D.
      - unfold h2. rewrite dom_insert_L.
        pose proof (preserves_dom _ _ Hpres) as Hdom.
        intros l Hl. apply elem_of_union. right. apply Hdom, HD, Hl.
      - exists h', new_es. rewrite Hrun. repeat split.
        + intros l c Hne Hl. apply Hframe; auto.
        + rewrite Hcell. now rewrite <- app_assoc.
        + rewrite <- !app_assoc in Hall. exact Hall. }
    simpl. destruct (String.eqb k "__proto__") eqn:Hkproto.
    + (* the prototype setter: the value is copied, no property is stored *)
      apply String.eqb_eq in Hkproto. subst k.
      change (isRedactKey "__proto__") with false. cbv iota.
      destruct (Ht h v) as (h1 & v1 & Hf & Hpres & _).
      { eapply repr_in_mono; [|exact Hv]. intros; split; auto. }
      rewrite Hf. unfold setProperty. simpl.
      destruct (IH es' done_ts done_es h1)
        as (h' & new_es & Hrun & Hframe & Hcell & Hall); auto.
      * eapply NoDup_app_drop. exact Hnodup.
      * pose proof (preserves_dom _ _ Hpres) as Hdom.
        intros l Hl. apply Hdom, HD, Hl.
      * exists h', new_es. rewrite Hrun. repeat split; auto.
    + destruct (isRedactKey k) eqn:Hred.
      * destruct (Hstep eq_refl h (VStr MARKER) (TStr MARKER)
                        (preserves_refl h))
          as (h' & new_es & Hrun & Hframe & Hcell & Hall); [constructor|].
        exists h', ((k, VStr MARKER) :: new_es). auto.
      * destruct (Ht h v) as (h1 & v1 & Hf & Hpres & Hnew).
        { eapply repr_in_mono; [|exact Hv]. intros; split; auto. }
        rewrite Hf.
        destruct (Hstep eq_refl h1 v1 (sanitized apiKey t) Hpres)
          as (h' & new_es & Hrun & Hframe & Hcell & Hall).
        { eapply repr_in_mono; [|exact Hnew]. intros l c Hl Hc.
          split; [intros HlD; apply Hl, HD, HlD | exact Hc]. }
        exists h', ((k, v1) :: new_es). auto.
Qed.

End Callback.


Lemma out_in_union (h : gmap loc cell) (out : loc) : out ∈ dom h ∪ {[out]}.
Proof. apply elem_of_union. right. now apply elem_of_singleton. Qed.

Lemma union_comm_subseteq (X Y : gset loc) : X ∪ Y ⊆ Y ∪ X.
Proof.
  intros l Hl. apply elem_of_union in Hl. apply elem_of_union. tauto.
Qed.

Lemma distinctKeys_items (items : list tree) :
  distinctKeys (TArr items) -> Forall distinctKeys items.
Proof.
  simpl. induction items as [|x items IH]; simpl; [constructor|].
  intros [Hx Hrest]. constructor; auto.
Qed.

Lemma distinctKeys_entries (entries : list (string * tree)) :
  distinctKeys (TObj entries) ->
  NoDup (map fst entries)
  /\ Forall (fun kt => distinctKeys (snd kt)) entries.
Proof.
  simpl. intros (Hnd & Hall). split; auto.
  clear Hnd. induction entries as [|x entries IH]; simpl in *;
    [constructor|]. destruct Hall as [Hx Hrest]. constructor; auto.
Qed.

Lemma plainKeys_distinct (t : tree) : plainKeys t -> distinctKeys t.
Proof.
  induction t as [| | | | |items IH|entries IH] using tree_nested_ind;
    simpl; auto.
  - induction IH as [|x items Hx _ IHitems]; simpl; [auto|].
    intros [H1 H2]. split; auto.
  - intros (Hnd & _ & Hall). split; [exact Hnd|].
    induction IH as [|x entries Hx _ IHentries]; simpl in *; [auto|].
    destruct Hall as [H1 H2]. split; auto.
    apply IHentries; auto. now apply NoDup_cons in Hnd as [_ Hnd].
Qed.

(** Without a property called ["__proto__"] the returned content is the one
    the specification describes. *)
Lemma sanitized_plain (apiKey : option string) (t : tree) :
  plainKeys t -> sanitized apiKey t = redacted apiKey t.
Proof.
  induction t as [| | | | |items IH|entries IH] using tree_nested_ind;
    simpl; auto.
  - intros Hall. f_equal.
    induction IH as [|x items Hx _ IHitems]; simpl in *; [reflexivity|].
    destruct Hall as [H1 H2]. f_equal; auto.
  - intros (_ & Hproto & Hall). f_equal.
    induction IH as [|[k x] entries Hx _ IHentries]; simpl in *;
      [reflexivity|].
    destruct Hall as [H1 H2].
    destruct (String.eqb k "__proto__") eqn:Hk.
    + apply String.eqb_eq in Hk. subst k. exfalso. apply Hproto. now left.
    + rewrite IHentries by tauto. destruct (isRedactKey k); [reflexivity|].
      now rewrite Hx.
Qed.

Lemma depth_items (items : list tree) (n : nat) :
  (list_max (map depth items) < S n)%nat ->
  Forall (fun t => (depth t < S n)%nat) items.
Proof.
  intros H. assert (Hle : (list_max (map depth items) <= n)%nat) by lia.
  apply list_max_le in Hle. apply List.Forall_map in Hle.
  eapply Forall_impl; [exact Hle|]. simpl. intros; lia.
Qed.

Lemma depth_entries (entries : list (string * tree)) (n : nat) :
  (list_max (map (fun kt => depth (snd kt)) entries) < S n)%nat ->
  Forall (fun kt => (depth (snd kt) < S n)%nat) entries.
Proof.
  intros H.
  assert (Hle : (list_max (map (fun kt => depth (snd kt)) entries) <= n)%nat)
    by lia.
  apply list_max_le in Hle. apply List.Forall_map in Hle.
  eapply Forall_impl; [exact Hle|]. simpl. intros; lia.
Qed.

(** With fuel above the depth of the value, [redactSecrets] returns a copy
    of the sanitized content in new cells and keeps every old cell. *)
Lemma redactSecrets_copies (apiKey : option string) (t : tree) :
  distinctKeys t ->
  forall fuel, (depth t < fuel)%nat ->
               copies apiKey (redactSecrets fuel apiKey) t.
Proof.
  induction t as [| | | | |items IH|entries IH] using tree_nested_ind;
    intros Hkeys fuel Hfuel; (destruct fuel as [|fuel]; [lia|]);
    intros h v Hv; inversion Hv; subst; simpl;
    try (exists h; eexists; split; [reflexivity|];
         split; [apply preserves_refl | constructor]).
  - (* array *)
    match goal with Hl : h !! _ = Some _ |- _ => rewrite Hl end.
    set (out := fresh (dom h)).
    assert (Hfresh : out ∉ dom h) by apply is_fresh.
    set (h0 := <[out := CArr (replicate (length vs) VUndefined)]> h).
    assert (Hcb : Forall (copies apiKey (redactSecrets fuel apiKey)) items).
    { apply distinctKeys_items in Hkeys. simpl in Hfuel.
      apply PeanoNat.lt_S_n in Hfuel. destruct fuel as [|fuel].
      { destruct items; simpl in Hfuel; lia. }
      apply depth_items in Hfuel.
      rewrite Forall_forall in IH, Hkeys, Hfuel. apply Forall_forall.
      intros x Hx. apply IH; auto. }
    destruct (mapItems_spec apiKey (redactSecrets fuel apiKey) out
                (dom h) (dom h ∪ {[out]}) (out_in_union h out) Hfresh
                items Hcb vs [] [] h0)
      as (h' & new_vs & Hrun & Hframe & Hcell & Hall).
    + eapply Forall2_weaken; [|eassumption].
      apply Forall_forall. intros t' _ v' Hr.
      eapply repr_in_mono; [|exact Hr]. intros l0 c0 _ Hc.
      assert (l0 ∈ dom h) by (apply elem_of_dom; eauto).
      split; auto. unfold h0. rewrite lookup_insert_ne; auto.
      intros ->. contradiction.
    + unfold h0. now rewrite lookup_insert_eq.
    + constructor.
    + unfold h0. rewrite dom_insert_L. apply union_comm_subseteq.
    + simpl in Hrun, Hcell, Hall. fold h0. rewrite Hrun.
      exists h', (VRef out). split; [reflexivity|]. split.
      * intros l0 c0 Hl. apply Hframe.
        -- intros ->. apply Hfresh. apply elem_of_dom; eauto.
        -- unfold h0. rewrite lookup_insert_ne; auto.
           intros <-. apply Hfresh. apply elem_of_dom; eauto.
      * econstructor; [exact Hfresh | exact Hcell |].
        eapply Forall2_weaken; [|exact Hall].
        apply Forall_forall. intros t' _ v' Hr.
        eapply repr_in_mono; [|exact Hr]. intros l0 c0 Hl Hc. split; auto.
        intros Hin. apply Hl. apply elem_of_union. now left.
  - (* object *)
    match goal with Hl : h !! _ = Some _ |- _ => rewrite Hl end.
    set (out := fresh (dom h)).
    assert (Hfresh : out ∉ dom h) by apply is_fresh.
    set (h0 := <[out := CObj []]> h).
    destruct (distinctKeys_entries _ Hkeys) as (Hnd & Hplain).
    assert (Hcb : Forall (fun kt => copies apiKey (redactSecrets fuel apiKey)
                                           (snd kt)) entries).
    { simpl in Hfuel. apply PeanoNat.lt_S_n in Hfuel. destruct fuel as [|fuel].
      { destruct entries; simpl in Hfuel; lia. }
      apply depth_entries in Hfuel.
      rewrite Forall_forall in IH, Hplain, Hfuel. apply Forall_forall.
      intros x Hx. apply IH; auto. }
    destruct (redactEntries_spec apiKey (redactSecrets fuel apiKey) out
                (dom h) (dom h ∪ {[out]}) (out_in_union h out) Hfresh
                entries Hcb es [] [] h0)
      as (h' & new_es & Hrun & Hframe & Hcell & Hall); auto.
    + eapply Forall2_weaken; [|eassumption].
      apply Forall_forall. intros t' _ v' [Hk Hr]. split; auto.
      eapply repr_in_mono; [|exact Hr]. intros l0 c0 _ Hc.
      assert (l0 ∈ dom h) by (apply elem_of_dom; eauto).
      split; auto. unfold h0. rewrite lookup_insert_ne; auto.
      intros ->. contradiction.
    + unfold h0. now rewrite lookup_insert_eq.
    + unfold h0. rewrite dom_insert_L. apply union_comm_subseteq.
    + simpl in Hrun, Hcell, Hall. fold h0. rewrite Hrun.
      exists h', (VRef out). split; [reflexivity|]. split.
      * intros l0 c0 Hl. apply Hframe.
        -- intros ->. apply Hfresh. apply elem_of_dom; eauto.
        -- unfold h0. rewrite lookup_insert_ne; auto.
           intros <-. apply Hfresh. apply elem_of_dom; eauto.
      * econstructor; [exact Hfresh | exact Hcell |].
        eapply Forall2_weaken; [|exact Hall].
        apply Forall_forall. intros t' _ v' [Hk Hr]. split; auto.
        eapply repr_in_mono; [|exact Hr]. intros l0 c0 Hl Hc. split; auto.
        intros Hin. apply Hl. apply elem_of_union. now left.
Qed.

End HeapFacts.

Section Occurrences.

Variable key : string.
Hypothesis key_nonempty : key <> "".

Lemma length_drop (k : nat) (s : string) :
  String.length (drop k s) = (String.length s - k)%nat.
Proof.
  revert s. induction k as [|k IH]; intros s; simpl; [lia|].
  destruct s as [|c s]; simpl; [reflexivity | apply IH].
Qed.

Lemma startsWith_take (n : nat) (s p : string) :
  startsWith (take n s) p = true -> startsWith s p = true.
Proof.
  revert n s. induction p as [|a p IH]; intros n s H; [reflexivity|].
  destruct n as [|n], s as [|b s]; simpl in H; try discriminate.
  simpl. apply andb_true_iff in H as [Hab Hrest].
  rewrite Hab. simpl. now apply (IH n).
Qed.

(** The leftmost occurrence splits the string. *)
Lemma indexOf_split (s : string) (i : nat) :
  indexOf s key = Some i ->
  s = take i s +:+ key +:+ drop (i + String.length key) s.
Proof.
  revert i. induction s as [|c s IH]; intros i; rewrite indexOf_unfold.
  - rewrite (startsWith_empty key key_nonempty). discriminate.
  - destruct (startsWith (String c s) key) eqn:Hstart.
    + intros [= <-]. simpl take. rewrite append_nil.
      apply startsWith_inv in Hstart as [rest Hrest]. rewrite Hrest at 1.
      f_equal. simpl plus.
      rewrite Hrest. clear. induction key as [|a k IHk]; [reflexivity|].
      rewrite append_cons. simpl. exact IHk.
    + destruct (indexOf s key) as [i'|]; [|discriminate].
      simpl. intros [= <-]. simpl. rewrite append_cons. f_equal.
      now apply IH.
Qed.

(** Nothing before the leftmost occurrence is an occurrence. *)
Lemma indexOf_prefix_free (s : string) (i : nat) :
  indexOf s key = Some i -> includes (take i s) key = false.
Proof.
  revert i. induction s as [|c s IH]; intros i; rewrite indexOf_unfold.
  - rewrite (startsWith_empty key key_nonempty). discriminate.
  - destruct (startsWith (String c s) key) eqn:Hstart.
    + intros [= <-]. simpl. rewrite (startsWith_empty key key_nonempty).
      reflexivity.
    + destruct (indexOf s key) as [i'|]; [|discriminate].
      simpl. intros [= <-]. simpl take. rewrite includes_unfold.
      rewrite (IH i' eq_refl), orb_false_r.
      destruct (startsWith (String c (take i' s)) key) eqn:Hp;
        [|reflexivity].
      apply (startsWith_take (S i') (String c s)) in Hp. congruence.
Qed.

Lemma joinWith_cons (sep piece : string) (pieces : list string) :
  pieces <> [] ->
  joinWith sep (piece :: pieces) = piece +:+ sep +:+ joinWith sep pieces.
Proof. destruct pieces; [congruence | reflexivity]. Qed.

(** Replacing every occurrence cuts the string at occurrences of the key
    into pieces that hold no occurrence, and joins the pieces with the
    marker. *)
Lemma replaceAll_pieces (marker : string) (n : nat) :
  forall s,
    (String.length s <= n)%nat ->
    exists pieces,
      pieces <> []
      /\ s = joinWith key pieces
      /\ replaceAll s key marker = joinWith marker pieces
      /\ Forall (fun piece => includes piece key = false) pieces.
Proof.
  induction n as [|n IH]; intros s Hlen;
    (destruct (indexOf s key) as [i|] eqn:Hidx;
     [|exists [s]; split; [discriminate|]; split; [reflexivity|];
       split; [now apply replaceAll_absent|];
       constructor; [now apply indexOf_none_includes | constructor]]).
  - destruct s; [|simpl in Hlen; lia].
    rewrite indexOf_unfold, (startsWith_empty key key_nonempty) in Hidx.
    discriminate.
  - assert (Hshort : (String.length (drop (i + String.length key) s) <= n)%nat).
    { rewrite length_drop.
      assert (0 < String.length key)%nat
        by (destruct key; [congruence | simpl; lia]).
      lia. }
    destruct (IH _ Hshort) as (pieces & Hne & Hsplit & Hrep & Hfree).
    exists (take i s :: pieces). split; [discriminate|].
    rewrite !(joinWith_cons _ _ _ Hne), <- Hsplit, <- Hrep.
    split; [now apply indexOf_split|].
    split; [now apply replaceAll_leftmost|].
    constructor; [now apply indexOf_prefix_free | exact Hfree].
Qed.

End Occurrences.

Section DeepCopy.

Variable apiKey : option string.

Lemma sanitizedEntries_sensitive (g : tree -> tree)
      (entries : list (string * tree)) (key : string) (child : tree) :
  In (key, child) entries -> isRedactKey key = true ->
  In (key, TStr MARKER) (sanitizedEntries g entries).
Proof.
  intros Hin Hkey. induction entries as [|[k c] entries IH]; [contradiction|].
  simpl. destruct Hin as [[= -> ->]|Hin].
  - rewrite Hkey.
    destruct (String.eqb key "__proto__") eqn:Hp; [|now left].
    apply String.eqb_eq in Hp. subst key. discriminate.
  - destruct (String.eqb k "__proto__"); [auto | right; auto].
Qed.

Lemma sanitizedEntries_other (g : tree -> tree)
      (entries : list (string * tree)) (key : string) (child : tree) :
  In (key, child) entries -> isRedactKey key = false ->
  key <> "__proto__" ->
  In (key, g child) (sanitizedEntries g entries).
Proof.
  intros Hin Hkey Hproto.
  induction entries as [|[k c] entries IH]; [contradiction|].
  simpl. destruct Hin as [[= -> ->]|Hin].
  - rewrite Hkey.
    destruct (String.eqb key "__proto__") eqn:Hp; [|now left].
    apply String.eqb_eq in Hp. congruence.
  - destruct (String.eqb k "__proto__"); [auto | right; auto].
Qed.

(** The sensitive names are the eight names of redact.ts. *)
Lemma isRedactKey_names (key : string) :
  isRedactKey key = true
  <-> In key [ "authorization"; "Authorization"; "api_key"; "apiKey";
               "access_token"; "token"; "Z_AI_API_KEY"; "ZAI_API_KEY" ].
Proof.
  unfold isRedactKey. rewrite existsb_exists. split.
  - intros (name & Hin & Heq). apply String.eqb_eq in Heq. now subst.
  - intros Hin. exists key. split; [exact Hin | apply String.eqb_refl].
Qed.

(** C7: on a nested value (acyclic, the keys of each object distinct), with
    fuel above its depth, [redactSecrets] returns; every cell that existed is
    unchanged, so the argument still holds its content; the result is rooted
    in cells none of which existed before, so it shares nothing with the
    argument and is a different reference; its content is [sanitized], which
    is this: a scalar that is no string is kept; an array is redacted item
    by item; a string goes through [redactString], which cuts it at
    occurrences of a known credential into pieces free of the credential,
    joins the pieces with the marker ["[REDACTED]"] and then applies the
    Bearer rule (without a credential the Bearer rule alone applies); a
    property named authorization, Authorization, api_key, apiKey,
    access_token, token, Z_AI_API_KEY or ZAI_API_KEY holds the marker
    whatever its value was, and any other property (but ["__proto__"])
    holds the redacted copy of its value.  Unless some key is
    ["__proto__"], that content is the copy the specification describes. *)
Theorem redactSecrets_deep_copy
        (t : tree) (h : gmap loc cell) (v : val) (fuel : nat) :
  distinctKeys t -> repr h t v -> (depth t < fuel)%nat ->
  exists h' v',
    redactSecrets fuel apiKey h v = Some (h', v')
    /\ preserves h h'
    /\ repr h' t v
    /\ repr_in (fun l => l ∉ dom h) h' (sanitized apiKey t) v'
    /\ (forall l, v = VRef l -> v' <> v)
    /\ (plainKeys t -> sanitized apiKey t = redacted apiKey t)
    /\ (sanitized apiKey TUndefined = TUndefined
        /\ sanitized apiKey TNull = TNull
        /\ (forall b, sanitized apiKey (TBool b) = TBool b)
        /\ (forall n, sanitized apiKey (TNum n) = TNum n)
        /\ (forall items,
               sanitized apiKey (TArr items)
               = TArr (map (sanitized apiKey) items))
        /\ (forall s, sanitized apiKey (TStr s) = TStr (redactString s apiKey)))
    /\ (forall key s,
           apiKey = Some key -> key <> "" ->
           exists pieces,
             s = joinWith key pieces
             /\ Forall (fun piece => includes piece key = false) pieces
             /\ redactString s apiKey
                = if testBearer (joinWith "[REDACTED]" pieces)
                  then replaceBearer (joinWith "[REDACTED]" pieces)
                  else joinWith "[REDACTED]" pieces)
    /\ (forall s,
           apiKey = None \/ apiKey = Some "" ->
           redactString s apiKey
           = if testBearer s then replaceBearer s else s)
    /\ (forall key s,
           apiKey = Some key -> key <> "" ->
           scrubCredential s apiKey
           = match indexOf s key with
             | None => s
             | Some i =>
                 take i s +:+ "[REDACTED]"
                 +:+ scrubCredential (drop (i + String.length key) s) apiKey
             end)
    /\ (forall entries key child,
           In (key, child) entries ->
           In key [ "authorization"; "Authorization"; "api_key"; "apiKey";
                    "access_token"; "token"; "Z_AI_API_KEY"; "ZAI_API_KEY" ] ->
           exists entries',
             sanitized apiKey (TObj entries) = TObj entries'
             /\ In (key, TStr "[REDACTED]") entries')
    /\ (forall entries key child,
           In (key, child) entries ->
           ~ In key [ "authorization"; "Authorization"; "api_key"; "apiKey";
                      "access_token"; "token"; "Z_AI_API_KEY";
                      "ZAI_API_KEY" ] ->
           key <> "__proto__" ->
           exists entries',
             sanitized apiKey (TObj entries) = TObj entries'
             /\ In (key, sanitized apiKey child) entries').
Proof.
  intros Hkeys Hv Hfuel.
  destruct (redactSecrets_copies apiKey t Hkeys fuel Hfuel h v Hv)
    as (h' & v' & Hrun & Hpres & Hnew).
  exists h', v'. split; [exact Hrun|]. split; [exact Hpres|].
  split; [|split; [exact Hnew|split; [|split; [|split; [|split;
    [|split; [|split; [|split]]]]]]]].
  - eapply repr_in_mono; [|exact Hv]. intros l c _ Hc. split; auto.
  - intros l -> Heq. subst v'.
    inversion Hv; subst; inversion Hnew; subst;
      match goal with
      | Hout : l ∉ dom h, Hl : h !! l = Some _ |- _ =>
          apply Hout; apply elem_of_dom; eauto
      end.
  - apply sanitized_plain.
  - repeat split; reflexivity.
  - intros key s -> Hkey.
    destruct (replaceAll_pieces key Hkey MARKER (String.length s) s (le_n _))
      as (pieces & _ & Hsplit & Hrep & Hfree).
    exists pieces. split; [exact Hsplit|]. split; [exact Hfree|].
    unfold redactString. rewrite (scrubCredential_replaceAll s key Hkey).
    rewrite Hrep. reflexivity.
  - intros s [-> | ->]; reflexivity.
  - intros key s -> Hkey. now apply scrubCredential_occurrences.
  - intros entries key child Hin Hkey. eexists. split; [reflexivity|].
    apply (sanitizedEntries_sensitive _ entries key child Hin).
    now apply isRedactKey_names.
  - intros entries key child Hin Hkey Hproto. eexists.
    split; [reflexivity|].
    apply (sanitizedEntries_other _ entries key child Hin); [|exact Hproto].
    destruct (isRedactKey key) eqn:Hred; [|reflexivity].
    exfalso. apply Hkey. now apply isRedactKey_names.
Qed.

End DeepCopy.

Lemma redactSecrets_deep_copy_witness :
  (exists h' v',
      redactSecrets 2 (Some "secret123") specHeap (VRef 1%positive)
      = Some (h', v')
      /\ preserves specHeap h'
      /\ repr h' specTree (VRef 1%positive)
      /\ repr_in (fun l => l ∉ dom specHeap) h'
                 (TObj [ ("token", TStr "[REDACTED]");
                         ("note", TStr "uses [REDACTED] internally") ]) v'
      /\ v' <> VRef 1%positive)
  /\ (exists h' v',
         redactSecrets 2 None specHeap (VRef 1%positive) = Some (h', v')
         /\ preserves specHeap h'
         /\ repr h' specTree (VRef 1%positive)
         /\ repr_in (fun l => l ∉ dom specHeap) h'
                    (TObj [ ("token", TStr "[REDACTED]");
                            ("note", TStr "uses secret123 internally") ]) v'
         /\ v' <> VRef 1%positive).
Proof.
  assert (Hkeys : distinctKeys specTree).
  { split.
    + apply (bool_decide_unpack _). vm_compute. exact I.
    + simpl. tauto. }
  assert (Hrepr : repr specHeap specTree (VRef 1%positive)).
  { econstructor; [exact I | reflexivity |]. repeat constructor. }
  assert (Hfuel : (depth specTree < 2)%nat) by (simpl; lia).
  split.
  - destruct (redactSecrets_deep_copy (Some "secret123") specTree specHeap
                (VRef 1%positive) 2 Hkeys Hrepr Hfuel)
      as (h' & v' & Hrun & Hpres & Hold & Hnew & Hneq & _).
    exists h', v'. repeat split; auto. exact (Hneq 1%positive eq_refl).
  - destruct (redactSecrets_deep_copy None specTree specHeap
                (VRef 1%positive) 2 Hkeys Hrepr Hfuel)
      as (h' & v' & Hrun & Hpres & Hold & Hnew & Hneq & _).
    exists h', v'. repeat split; auto. exact (Hneq 1%positive eq_refl).
Defined.

(** The rules on the strings of the example: the credential is cut out of
    the note, which falls into the pieces before and after it; and a
    sensitive name decides alone, whatever the value and without any
    credential. *)
Example redactSecrets_rules_example :
  "uses secret123 internally"
  = joinWith "secret123" ["uses "; " internally"]
  /\ redactString "uses secret123 internally" (Some "secret123")
     = joinWith "[REDACTED]" ["uses "; " internally"]
  /\ sanitized None (TObj [ ("apiKey", TObj [ ("id", TNum 7) ]);
                            ("items", TArr [ TStr "a"; TNull ]) ])
     = TObj [ ("apiKey", TStr "[REDACTED]");
              ("items", TArr [ TStr "a"; TNull ]) ].
Proof. repeat split; reflexivity. Qed.

(** The run behind the witness: the copy sits at the new location 2, the
    argument at location 1 is as it was. *)
Example redactSecrets_spec_example :
  match redactSecrets 2 (Some "secret123") specHeap (VRef 1%positive) with
  | Some (h', v') =>
      v' = VRef 2%positive
      /\ h' !! 2%positive
         = Some (CObj [ ("token", VStr "[REDACTED]");
                        ("note", VStr "uses [REDACTED] internally") ])
      /\ h' !! 1%positive = specHeap !! 1%positive
  | None => False
  end.
Proof. vm_compute. repeat split. Qed.

(** The content of [redactTool(tool)]. *)
Lemma redactTool_content (apiKey : option string) (tool : Tool) :
  toolTree (redactTool apiKey tool)
  = sanitized apiKey (jsonClone (toolTree tool)).
Proof. reflexivity. Qed.

(* ===================================================================== *)
(** * The client: cache, session, invocation, resolution                   *)
(* ===================================================================== *)

Lemma countEvents_app (p : Event -> bool) (a b : list Event) :
  countEvents p (a ++ b) = (countEvents p a + countEvents p b)%nat.
Proof. induction a as [|x a IH]; simpl; [reflexivity | rewrite IH; lia]. Qed.


Section ClientFacts.

Variable env : Env.
Variable world : World.
Variable JSON_parse : string -> option tree.
Variable timeoutMessage : num -> string.

Local Abbreviation readToolsCache := (Mcp.readToolsCache env world).
Local Abbreviation writeToolsCache := (Mcp.writeToolsCache env world).
Local Abbreviation init := (Mcp.init env world timeoutMessage).
Local Abbreviation close := (Mcp.close world).
Local Abbreviation afterClose := (Mcp.afterClose world).
Local Abbreviation afterSleep := (Mcp.afterSleep env world).
Local Abbreviation listTools := (Mcp.listTools env world timeoutMessage).
Local Abbreviation getTool := (Mcp.getTool env world timeoutMessage).
Local Abbreviation resolveToolName := (Mcp.resolveToolName env world timeoutMessage).
Local Abbreviation callToolLoop :=
  (Mcp.callToolLoop env world JSON_parse timeoutMessage).
Local Abbreviation callTool := (Mcp.callTool env world JSON_parse timeoutMessage).

(** ** The tool cache *)

(** What [writeToolsCache] leaves in the file when the write goes through:
    the current format version, the time of the write and the redacted
    catalog. *)
Lemma writeToolsCache_entry (tools : list Tool) (st : State) (ttl : Z) :
  TOOL_CACHE_ENABLED env = true ->
  DEFAULT_TOOL_CACHE_TTL_MS env = Some (Int ttl) -> 0 < ttl ->
  writeFails world (log st) = false ->
  cacheFile (snd (writeToolsCache tools st))
  = Parsed (JData (Some TOOL_CACHE_VERSION) (Some (dateNow world (log st)))
                  (Some (map (redactTool (activeApiKey env)) tools))).
Proof.
  intros Hen Httl Hpos Hw. unfold Mcp.writeToolsCache.
  rewrite Hen, Httl. simpl.
  replace (ttl <=? 0) with false by (symmetry; apply Z.leb_gt; lia).
  now rewrite Hw.
Qed.

(** C6: the entry that [writeToolsCache] persists at time [T] (and any entry
    of the current format version captured at [T]) is returned when it is
    read at [T + ttl - 1] and is absent when it is read at [T + ttl + 1];
    the read also gives null when the cache is disabled, when a refresh is
    forced, when the TTL is zero or negative, when the file cannot be read
    or parsed, and when the format version differs. *)
Theorem readToolsCache_ttl :
  (forall (st : State) (ttl : Z) (tools : list Tool),
      TOOL_CACHE_ENABLED env = true ->
      DEFAULT_TOOL_CACHE_TTL_MS env = Some (Int ttl) -> 0 < ttl ->
      writeFails world (log st) = false ->
      readFails world (log (snd (writeToolsCache tools st))) = false ->
      (dateNow world (log (snd (writeToolsCache tools st)) ++ [EvReadFile])
       = dateNow world (log st) + ttl - 1 ->
       fst (readToolsCache false (snd (writeToolsCache tools st)))
       = Return (Some (map (redactTool (activeApiKey env)) tools)))
      /\ (dateNow world (log (snd (writeToolsCache tools st)) ++ [EvReadFile])
          = dateNow world (log st) + ttl + 1 ->
          fst (readToolsCache false (snd (writeToolsCache tools st)))
          = Return None))
  /\ (forall (st : State) (T ttl : Z) (tools : list Tool),
      TOOL_CACHE_ENABLED env = true ->
      DEFAULT_TOOL_CACHE_TTL_MS env = Some (Int ttl) -> 0 < ttl ->
      readFails world (log st) = false ->
      cacheFile st
      = Parsed (JData (Some TOOL_CACHE_VERSION) (Some T) (Some tools)) ->
      (dateNow world (log st ++ [EvReadFile]) = T + ttl - 1 ->
       fst (readToolsCache false st) = Return (Some tools))
      /\ (dateNow world (log st ++ [EvReadFile]) = T + ttl + 1 ->
          fst (readToolsCache false st) = Return None))
  /\ (forall (st : State) (refresh : bool),
         TOOL_CACHE_ENABLED env = false \/ refresh = true
         \/ (exists ttl, DEFAULT_TOOL_CACHE_TTL_MS env = Some (Int ttl) /\ ttl <= 0)
         \/ readFails world (log st) = true
         \/ cacheFile st = Missing \/ cacheFile st = Unparsable
         \/ (exists version timestamp tools,
                cacheFile st = Parsed (JData version timestamp tools)
                /\ version <> Some TOOL_CACHE_VERSION) ->
         fst (readToolsCache refresh st) = Return None).
Proof.
  assert (Hentry : forall (st : State) (T ttl : Z) (tools : list Tool),
             TOOL_CACHE_ENABLED env = true ->
             DEFAULT_TOOL_CACHE_TTL_MS env = Some (Int ttl) -> 0 < ttl ->
             readFails world (log st) = false ->
             cacheFile st
             = Parsed (JData (Some TOOL_CACHE_VERSION) (Some T) (Some tools)) ->
             (dateNow world (log st ++ [EvReadFile]) = T + ttl - 1 ->
              fst (readToolsCache false st) = Return (Some tools))
             /\ (dateNow world (log st ++ [EvReadFile]) = T + ttl + 1 ->
                 fst (readToolsCache false st) = Return None)).
  { intros st T ttl tools Hen Httl Hpos Hr Hfile.
    unfold Mcp.readToolsCache. rewrite Hen, Httl. simpl.
    replace (ttl <=? 0) with false by (symmetry; apply Z.leb_gt; lia).
    rewrite Hr. unfold bind, emit, ret. simpl. rewrite Hfile. simpl.
    split; intros ->.
    + replace (ttl <? _) with false by (symmetry; apply Z.ltb_ge; lia).
      reflexivity.
    + replace (ttl <? _) with true by (symmetry; apply Z.ltb_lt; lia).
      reflexivity. }
  split; [|split; [exact Hentry|]].
  - intros st ttl tools Hen Httl Hpos Hw Hr.
    apply (Hentry _ (dateNow world (log st)) ttl); auto.
    now apply (writeToolsCache_entry tools st ttl).
  - intros st refresh H. unfold Mcp.readToolsCache.
    destruct (TOOL_CACHE_ENABLED env) eqn:Hen; [|reflexivity].
    destruct refresh; [reflexivity|]. simpl.
    destruct (numLe (DEFAULT_TOOL_CACHE_TTL_MS env) (Some (Int 0))) eqn:Hle;
      [reflexivity|].
    destruct (readFails world (log st)) eqn:Hr; [reflexivity|].
    unfold bind, emit, ret. simpl.
    destruct H as [H|[H|[H|[H|[H|[H|H]]]]]]; try discriminate.
    + destruct H as (ttl & Httl & Hneg). rewrite Httl in Hle. simpl in Hle.
      apply Z.leb_gt in Hle. lia.
    + now rewrite H.
    + now rewrite H.
    + destruct H as (version & timestamp & tools & -> & Hv).
      destruct version as [v|], tools as [ts|]; try reflexivity.
      destruct (v =? TOOL_CACHE_VERSION) eqn:Ev; [|reflexivity].
      apply Z.eqb_eq in Ev. congruence.
Qed.

(** ** Session life cycle *)

Lemma countEvents_snoc (p : Event -> bool) (l : list Event) (ev : Event) :
  countEvents p (l ++ [ev])
  = (countEvents p l + if p ev then 1 else 0)%nat.
Proof. rewrite countEvents_app. simpl. lia. Qed.

(** [init] on a consistent state: it settles, keeps the state consistent,
    leaves the cache file alone, talks to the transport only through
    [create] and [registerManual], and a success means a live session. *)
Lemma init_spec (st : State) :
  consistent st ->
  exists r st',
    init st = (r, st')
    /\ r <> OutOfFuel
    /\ consistent st'
    /\ cacheFile st' = cacheFile st
    /\ (forall p, p EvCreate = false -> p EvRegister = false ->
                  countEvents p (log st') = countEvents p (log st))
    /\ (r = Return tt -> client st' <> None /\ isInitialized st' = true).
Proof.
  unfold consistent, Mcp.init. intros Hinv.
  destruct (isInitialized st) eqn:Hi.
  { exists (Return tt), st. unfold ret. rewrite Hi.
    repeat split; auto; discriminate. }
  rewrite Hinv. unfold _doInit, tryCatch, bind, ask.
  destruct (createOutcome world (log st)) as [e|c] eqn:Hc.
  { unfold emit, throw, setInitPromise, bind. simpl.
    destruct (isApiError e); (eexists _, _; split; [reflexivity|]);
      simpl; rewrite Hi; repeat split; auto; try discriminate;
      intros p Hp _; rewrite countEvents_snoc, Hp; lia. }
  unfold emit, ret, setClient, bind. simpl.
  destruct (registerOutcome world (log st ++ [EvCreate])) as [e|res] eqn:Hr.
  { unfold throw, setInitPromise. simpl.
    destruct (isApiError e); (eexists _, _; split; [reflexivity|]);
      simpl; rewrite Hi; repeat split; auto; try discriminate;
      intros p Hp1 Hp2; rewrite !countEvents_snoc, Hp1, Hp2; lia. }
  simpl. destruct (success res) eqn:Hs; simpl.
  - unfold setIsInitialized, setInitPromise. simpl.
    eexists _, _. split; [reflexivity|]. simpl.
    repeat split; auto; try discriminate.
    intros p Hp1 Hp2. rewrite !countEvents_snoc, Hp1, Hp2. lia.
  - unfold throw, setInitPromise. simpl.
    eexists _, _. split; [reflexivity|]. simpl. rewrite Hi.
    repeat split; auto; try discriminate.
    intros p Hp1 Hp2. rewrite !countEvents_snoc, Hp1, Hp2. lia.
Qed.

(** [close] settles; when it resolves the client is cleared, when it rejects
    nothing but the log has changed. *)
Lemma close_spec (timeoutMs : Z) (st : State) :
  consistent st ->
  exists r st',
    close timeoutMs st = (r, st')
    /\ r <> OutOfFuel
    /\ consistent st'
    /\ cacheFile st' = cacheFile st
    /\ (forall p, (forall d, p (EvClose d) = false) ->
                  countEvents p (log st') = countEvents p (log st))
    /\ (r = Return tt -> cleared st').
Proof.
  unfold consistent, cleared, Mcp.close. intros Hinv.
  destruct (client st) as [c|] eqn:Hc.
  - unfold bind, emit, setClient, setIsInitialized, setInitPromise, throw.
    simpl.
    destruct (fst (race (closeBehaviour world (log st)) timeoutMs))
      as [e|] eqn:Hrace; simpl.
    + eexists _, _. split; [reflexivity|]. simpl.
      repeat split; auto; try discriminate;
        try (rewrite Hc; exact Hinv).
      intros p Hp. rewrite countEvents_snoc, Hp. lia.
    + eexists _, _. split; [reflexivity|]. simpl.
      repeat split; auto; try discriminate.
      intros p Hp. rewrite countEvents_snoc, Hp. lia.
  - exists (Return tt), st. unfold ret.
    destruct (isInitialized st); [congruence|].
    repeat split; auto; discriminate.
Qed.

(** C2, as the code has it: when the underlying close fulfils, hangs, or
    rejects only after the timer has fired, [close] resolves after at most
    the timeout and leaves the client cleared. *)
Theorem close_bounded (timeoutMs : Z) (st : State) :
  consistent st -> 0 <= timeoutMs ->
  (forall after e,
      closeBehaviour world (log st) = CloseRejects after e ->
      timeoutMs < after) ->
  exists st',
    close timeoutMs st = (Return tt, st')
    /\ cleared st'
    /\ (log st' = log st
        \/ exists elapsed,
             log st' = log st ++ [EvClose elapsed] /\ elapsed <= timeoutMs).
Proof.
  unfold consistent, cleared, Mcp.close. intros Hinv Ht Hrej.
  destruct (client st) as [c|] eqn:Hc.
  - unfold bind, emit, setClient, setIsInitialized, setInitPromise, throw.
    assert (Hfst : fst (race (closeBehaviour world (log st)) timeoutMs) = None
                   /\ snd (race (closeBehaviour world (log st)) timeoutMs)
                      <= timeoutMs).
    { unfold race.
      destruct (closeBehaviour world (log st)) as [after|after e|] eqn:Hb;
        simpl.
      - split; [reflexivity | lia].
      - specialize (Hrej after e eq_refl).
        replace (after <? Z.max 0 timeoutMs) with false
          by (symmetry; apply Z.ltb_ge; lia).
        simpl. split; [reflexivity | lia].
      - split; [reflexivity | lia]. }
    destruct Hfst as [Hnone Hle]. simpl. rewrite Hnone. simpl.
    eexists. split; [reflexivity|]. simpl. repeat split.
    right. eexists. split; [reflexivity | exact Hle].
  - exists st. unfold ret. destruct (isInitialized st); [congruence|].
    repeat split; auto.
Qed.

(** C10: without a live session [close] returns at once and touches
    neither the state nor the transport; so a [close] after a [close] that
    has resolved changes nothing, and two calls in a row do what one call
    does. *)
Theorem close_idempotent :
  (forall (timeoutMs : Z) (st : State),
      client st = None -> close timeoutMs st = (Return tt, st))
  /\ (forall (t1 t2 : Z) (st : State),
         fst (close t1 st) = Return tt ->
         close t2 (snd (close t1 st)) = (Return tt, snd (close t1 st)))
  /\ (forall (t1 t2 : Z) (st : State),
         bind (close t1) (fun _ => close t2) st = close t1 st).
Proof.
  assert (Hidle : forall (timeoutMs : Z) (st : State),
             client st = None -> close timeoutMs st = (Return tt, st)).
  { intros timeoutMs st Hc. unfold Mcp.close. now rewrite Hc. }
  split; [exact Hidle|split].
  - intros t1 t2 st Hok. apply Hidle. revert Hok. unfold Mcp.close.
    destruct (client st) as [c|] eqn:Hc; [|now rewrite <- Hc].
    unfold bind, emit, setClient, setIsInitialized, setInitPromise, throw.
    simpl.
    destruct (fst (race (closeBehaviour world (log st)) t1)); simpl;
      [discriminate | reflexivity].
  - intros t1 t2 st. unfold bind at 1.
    unfold Mcp.close at 1 3.
    destruct (client st) as [c|] eqn:Hc.
    + unfold bind, emit, setClient, setIsInitialized, setInitPromise, throw.
      simpl.
      destruct (fst (race (closeBehaviour world (log st)) t1)); simpl;
        reflexivity.
    + unfold ret. unfold Mcp.close. now rewrite Hc.
Qed.

(** ** The retrying invoker *)

Lemma afterClose_spec (st : State) :
  tryCatch (close 2000) (fun _ => ret tt) st = (Return tt, afterClose st)
  /\ (consistent st -> consistent (afterClose st))
  /\ countEvents isCallTool (log (afterClose st))
     = countEvents isCallTool (log st).
Proof.
  unfold Mcp.afterClose, tryCatch, consistent, Mcp.close.
  destruct (client st) as [c|] eqn:Hc.
  - unfold bind, emit, setClient, setIsInitialized, setInitPromise, throw, ret.
    simpl.
    destruct (fst (race (closeBehaviour world (log st)) 2000)); simpl;
      rewrite ?Hc; repeat split; auto; rewrite countEvents_snoc; simpl; lia.
  - unfold ret. simpl. rewrite ?Hc. repeat split; auto.
Qed.

Lemma afterSleep_spec (attempt : Z) (st : State) :
  (consistent st -> consistent (afterSleep attempt st))
  /\ countEvents isCallTool (log (afterSleep attempt st))
     = countEvents isCallTool (log st).
Proof.
  unfold Mcp.afterSleep, sleep, consistent, emit. simpl. split; [auto|].
  rewrite !countEvents_snoc. simpl. lia.
Qed.

(** One iteration whose transport call fails and is not retried. *)
Lemma callToolLoop_stop (fuel : nat) (toolName : string) (args : tree)
      (maxRetries attempt : Z) (st st1 : State) (c : UtcpClient)
      (e : Thrown) :
  init st = (Return tt, st1) ->
  client st1 = Some c ->
  callToolOutcome world (log st1) toolName args = inl e ->
  (attempt + 1 <=? maxRetries) && isRetriableError e = false ->
  callToolLoop (S fuel) toolName args maxRetries attempt st
  = (Throw (classifyCallError env timeoutMessage e),
     snd (emit (EvCallTool toolName args) st1)).
Proof.
  intros Hinit Hc Hout Hno. simpl. unfold bind at 1. rewrite Hinit, Hc.
  unfold tryCatch, bind, ask. rewrite Hout. unfold emit, throw. simpl.
  rewrite Hno, ?Hc. reflexivity.
Qed.

(** One iteration whose transport call fails and is retried. *)
Lemma callToolLoop_retry (fuel : nat) (toolName : string) (args : tree)
      (maxRetries attempt : Z) (st st1 : State) (c : UtcpClient)
      (e : Thrown) :
  init st = (Return tt, st1) ->
  client st1 = Some c ->
  callToolOutcome world (log st1) toolName args = inl e ->
  (attempt + 1 <=? maxRetries) && isRetriableError e = true ->
  callToolLoop (S fuel) toolName args maxRetries attempt st
  = callToolLoop fuel toolName args maxRetries (attempt + 1)
      (afterSleep (attempt + 1)
         (afterClose (snd (emit (EvCallTool toolName args) st1)))).
Proof.
  intros Hinit Hc Hout Hyes. simpl. unfold bind at 1. rewrite Hinit, Hc.
  unfold tryCatch at 1. unfold bind at 1. unfold ask. rewrite Hout.
  unfold bind at 1. unfold emit at 1. unfold throw at 1. cbv beta iota.
  rewrite Hyes. unfold bind at 1.
  destruct (afterClose_spec
              {| client := client st1; initPromise := initPromise st1;
                 isInitialized := isInitialized st1;
                 cacheFile := cacheFile st1;
                 log := log st1 ++ [EvCallTool toolName args] |})
    as [Hclose _].
  rewrite Hclose, ?Hc. reflexivity.
Qed.

(** ** The sleeps of an invocation *)



Section Sleeps.

Variables base maxDelay jitterMax : Z.
Hypothesis base_ok : DEFAULT_RETRY_BASE_MS env = Some (Int base).
Hypothesis max_ok : DEFAULT_RETRY_MAX_MS env = Some (Int maxDelay).
Hypothesis jitter_ok : DEFAULT_RETRY_JITTER_MS env = Some (Int jitterMax).
Hypothesis jitter_pos : 0 < jitterMax.
Hypothesis random_ok : forall l, 0 <= randomNumerator world l < 2 ^ 53.



End Sleeps.


(** C4: a transport failure that is an [AuthError], a [ValidationError] or
    carries 401 or 403 in its message is never retried, whatever the retry
    budget: the invocation makes one transport attempt and throws. *)
Theorem callTool_auth_single_attempt
        (fuel : nat) (toolName : string) (args : tree)
        (st st1 : State) (e : Thrown) :
  consistent st ->
  init st = (Return tt, st1) ->
  callToolOutcome world (log st1) toolName args = inl e ->
  authOrValidation e = true ->
  isRetriableError e = false
  /\ exists st',
       callTool (S fuel) toolName args st
       = (Throw (classifyCallError env timeoutMessage e), st')
       /\ (forall maxRetries,
              callToolLoop (S fuel) toolName args maxRetries 0 st
              = (Throw (classifyCallError env timeoutMessage e), st'))
       /\ log st' = log st1 ++ [EvCallTool toolName args]
       /\ countEvents isCallTool (log st')
          = (countEvents isCallTool (log st) + 1)%nat.
Proof.
  intros Hinv Hinit Hout Hauth.
  assert (Hnot : isRetriableError e = false).
  { unfold authOrValidation in Hauth. unfold isRetriableError.
    assert (Hmsg : includes (messageOf e) "401"
                   || includes (messageOf e) "403" = true ->
                   includes (toLowerCase (messageOf e)) "401"
                   || includes (toLowerCase (messageOf e)) "403"
                   || includes (toLowerCase (messageOf e)) "auth" = true).
    { intros H. apply orb_true_iff in H as [H|H];
        apply includes_toLowerCase in H; try reflexivity; rewrite H;
        rewrite ?orb_true_r; reflexivity. }
    destruct e; try reflexivity; rewrite (Hmsg Hauth); reflexivity. }
  split; [exact Hnot|].
  destruct (init_spec st Hinv) as (r & st1' & Hi & _ & _ & _ & Hcount & Hlive).
  rewrite Hinit in Hi. injection Hi as <- <-.
  destruct (Hlive eq_refl) as [Hclient _].
  destruct (client st1) as [c|] eqn:Hc; [|congruence].
  assert (Hloop : forall maxRetries,
             callToolLoop (S fuel) toolName args maxRetries 0 st
             = (Throw (classifyCallError env timeoutMessage e),
                snd (emit (EvCallTool toolName args) st1))).
  { intros maxRetries.
    apply (callToolLoop_stop fuel toolName args maxRetries 0 st st1 c e);
      auto. rewrite Hnot. apply andb_false_r. }
  eexists. split; [apply Hloop|]. split; [exact Hloop|].
  simpl. split; [reflexivity|].
  rewrite countEvents_snoc. simpl.
  rewrite (Hcount isCallTool eq_refl eq_refl). reflexivity.
Qed.

Section AlwaysFailing.

Variable toolName : string.
Variable args : tree.

Hypothesis create_ok : forall l, exists c, createOutcome world l = inr c.
Hypothesis register_ok :
  forall l, exists res, registerOutcome world l = inr res
                        /\ success res = true.
Hypothesis call_fails :
  forall l, exists e, callToolOutcome world l toolName args = inl e
                      /\ isRetriableError e = true.

Lemma init_succeeds (st : State) :
  consistent st ->
  exists st' c,
    init st = (Return tt, st')
    /\ client st' = Some c
    /\ consistent st'
    /\ countEvents isCallTool (log st') = countEvents isCallTool (log st).
Proof.
  intros Hinv.
  destruct (init_spec st Hinv) as (r & st' & Hi & _ & Hinv' & _ & Hcount & Hlive).
  assert (Hr : r = Return tt).
  { revert Hi. unfold Mcp.init. unfold consistent in Hinv.
    destruct (isInitialized st) eqn:Hinit.
    - unfold ret. congruence.
    - rewrite Hinv. unfold _doInit, tryCatch, bind, ask.
      destruct (create_ok (log st)) as [c ->].
      unfold emit, ret, setClient, bind. simpl.
      destruct (register_ok (log st ++ [EvCreate])) as (res & -> & Hs).
      simpl. rewrite Hs. simpl. unfold setInitPromise. simpl. congruence. }
  subst r. destruct (Hlive eq_refl) as [Hclient _].
  destruct (client st') as [c|] eqn:Hc; [|congruence].
  exists st', c. repeat split; auto.
Qed.

(** What [callTool] makes of an error that it has retried until the budget
    ran out: a [TimeoutError], a [NetworkError] or an [ApiError]. *)
Lemma classifyCallError_retriable (e : Thrown) :
  isRetriableError e = true ->
  className (classifyCallError env timeoutMessage e) = "TimeoutError"
  \/ className (classifyCallError env timeoutMessage e) = "NetworkError"
  \/ className (classifyCallError env timeoutMessage e) = "ApiError".
Proof.
  intros Hre. unfold classifyCallError.
  assert (Hno : includes (messageOf e) "401" || includes (messageOf e) "403"
                = false).
  { destruct (includes (messageOf e) "401" || includes (messageOf e) "403")
      eqn:Hin; [|reflexivity].
    assert (Hlow : includes (toLowerCase (messageOf e)) "401"
                   || includes (toLowerCase (messageOf e)) "403"
                   || includes (toLowerCase (messageOf e)) "auth" = true).
    { apply orb_true_iff in Hin as [H|H];
        apply includes_toLowerCase in H; try reflexivity; rewrite H;
        rewrite ?orb_true_r; reflexivity. }
    unfold isRetriableError in Hre. rewrite Hlow in Hre.
    destruct e; discriminate. }
  rewrite Hno, andb_false_r.
  repeat match goal with |- context [if ?b then _ else _] => destruct b end;
    simpl; auto.
Qed.

(** With a transport that fails every call with a retriable error, the loop
    started at attempt count [attempt] makes one transport attempt, plus one
    for every value of the count that is still within the budget, and then
    throws the typed error of the last failure: the transport call is the
    last event of the log. *)
Lemma callToolLoop_exhausts (maxRetries : Z) (n : nat) :
  forall (attempt : Z) (fuel : nat) (st : State),
    n = Z.to_nat (maxRetries - attempt) ->
    (n < fuel)%nat ->
    consistent st ->
    exists e l st',
      callToolLoop fuel toolName args maxRetries attempt st
      = (Throw (classifyCallError env timeoutMessage e), st')
      /\ log st' = l ++ [EvCallTool toolName args]
      /\ callToolOutcome world l toolName args = inl e
      /\ isRetriableError e = true
      /\ countEvents isCallTool (log st')
         = (countEvents isCallTool (log st) + n + 1)%nat.
Proof.
  induction n as [|n IH]; intros attempt fuel st Hn Hfuel Hinv;
    (destruct fuel as [|fuel]; [lia|]);
    destruct (init_succeeds st Hinv) as (st1 & c & Hinit & Hc & Hinv1 & Hcnt);
    destruct (call_fails (log st1)) as (e & Hout & Hretri).
  - exists e, (log st1). eexists. split; [|split; [|split; [|split]]].
    + apply (callToolLoop_stop fuel toolName args maxRetries attempt st st1 c e);
        auto.
      apply andb_false_iff. left. apply Z.leb_gt. lia.
    + reflexivity.
    + exact Hout.
    + exact Hretri.
    + simpl. rewrite countEvents_snoc. simpl. lia.
  - rewrite (callToolLoop_retry fuel toolName args maxRetries attempt
                                st st1 c e Hinit Hc Hout).
    2:{ rewrite Hretri, andb_true_r. apply Z.leb_le. lia. }
    set (st2 := snd (emit (EvCallTool toolName args) st1)).
    assert (Hinv2 : consistent st2) by exact Hinv1.
    destruct (afterClose_spec st2) as (_ & Hinv3 & Hcnt3).
    destruct (afterSleep_spec (attempt + 1) (afterClose st2)) as (Hinv4 & Hcnt4).
    destruct (IH (attempt + 1) fuel (afterSleep (attempt + 1) (afterClose st2)))
      as (e' & l' & st' & Hrun & Hlast & Hout' & Hretri' & Hcount);
      [lia | lia | auto |].
    exists e', l', st'. split; [exact Hrun|]. split; [exact Hlast|].
    split; [exact Hout'|]. split; [exact Hretri'|].
    rewrite Hcount, Hcnt4, Hcnt3. unfold st2. simpl.
    rewrite countEvents_snoc. simpl. lia.
Qed.

End AlwaysFailing.

(** C3, as the code has it: when every transport call fails with a
    retriable error and the session can be set up again before every
    attempt (every [create] and every registration succeeds), an invocation
    with retry budget [m] makes [max(0, m) + 1] transport attempts, 3 for a
    budget of 2, and then throws the typed error of the last failure: the
    failed call is the last event of the log, and what is thrown is the
    [TimeoutError], [NetworkError] or [ApiError] that [callTool] makes of
    its error. *)
Theorem callTool_retry_bound
        (toolName : string) (args : tree) (fuel : nat) (st : State) :
  (forall l, exists c, createOutcome world l = inr c) ->
  (forall l, exists res, registerOutcome world l = inr res
                         /\ success res = true) ->
  (forall l, exists e, callToolOutcome world l toolName args = inl e
                       /\ isRetriableError e = true) ->
  consistent st ->
  (Z.to_nat (getRetryCount env toolName) < fuel)%nat ->
  exists e l st',
    callTool fuel toolName args st
    = (Throw (classifyCallError env timeoutMessage e), st')
    /\ log st' = l ++ [EvCallTool toolName args]
    /\ callToolOutcome world l toolName args = inl e
    /\ (className (classifyCallError env timeoutMessage e) = "TimeoutError"
        \/ className (classifyCallError env timeoutMessage e)
           = "NetworkError"
        \/ className (classifyCallError env timeoutMessage e) = "ApiError")
    /\ countEvents isCallTool (log st')
       = (countEvents isCallTool (log st)
          + Z.to_nat (getRetryCount env toolName) + 1)%nat
    /\ (getRetryCount env toolName = 2 ->
        countEvents isCallTool (log st')
        = (countEvents isCallTool (log st) + 3)%nat).
Proof.
  intros Hcreate Hreg Hfail Hinv Hfuel. unfold Mcp.callTool.
  destruct (callToolLoop_exhausts toolName args Hcreate Hreg Hfail
              (getRetryCount env toolName)
              (Z.to_nat (getRetryCount env toolName)) 0 fuel st)
    as (e & l & st' & Hrun & Hlast & Hout & Hretri & Hcount); auto.
  { f_equal. lia. }
  exists e, l, st'. split; [exact Hrun|]. split; [exact Hlast|].
  split; [exact Hout|]. split; [now apply classifyCallError_retriable|].
  split; [exact Hcount|].
  intros H2. rewrite Hcount, H2. lia.
Qed.

(** ** Name resolution *)

Lemma init_log (st : State) (p : Event -> bool) :
  p EvCreate = false -> p EvRegister = false ->
  countEvents p (log (snd (init st))) = countEvents p (log st).
Proof.
  intros Hp1 Hp2. unfold Mcp.init.
  destruct (isInitialized st); [reflexivity|].
  destruct (initPromise st); [reflexivity|].
  unfold _doInit, tryCatch, bind, ask.
  destruct (createOutcome world (log st)) as [e|c].
  { unfold emit, throw, setInitPromise, bind. simpl.
    destruct (isApiError e); simpl; rewrite countEvents_snoc, Hp1; lia. }
  unfold emit, ret, setClient, bind. simpl.
  destruct (registerOutcome world (log st ++ [EvCreate])) as [e|res].
  { unfold throw, setInitPromise. simpl.
    destruct (isApiError e); simpl; rewrite !countEvents_snoc, Hp1, Hp2; lia. }
  simpl. destruct (success res); simpl;
    rewrite !countEvents_snoc, Hp1, Hp2; lia.
Qed.

Lemma writeToolsCache_log (tools : list Tool) (st : State)
      (p : Event -> bool) :
  (forall t, p (EvNow t) = false) ->
  (forall d, p (EvWriteFile d) = false) ->
  fst (writeToolsCache tools st) = Return tt
  /\ countEvents p (log (snd (writeToolsCache tools st)))
     = countEvents p (log st).
Proof.
  intros Hp1 Hp2. unfold Mcp.writeToolsCache.
  destruct (negb (TOOL_CACHE_ENABLED env)
            || numLe (DEFAULT_TOOL_CACHE_TTL_MS env) (Some (Int 0)));
    [split; reflexivity|].
  destruct (writeFails world (log st)); [split; reflexivity|].
  unfold bind, emit, setCacheFile. simpl. split; [reflexivity|].
  rewrite !countEvents_snoc, Hp1, Hp2. lia.
Qed.

(** A forced listing that returns has made one live discovery and has not
    looked at the cache file. *)
Lemma listTools_forced (st st' : State) (tools : list Tool) :
  listTools true st = (Return tools, st') ->
  countEvents isGetTools (log st')
  = (countEvents isGetTools (log st) + 1)%nat
  /\ countEvents isReadFile (log st') = countEvents isReadFile (log st).
Proof.
  unfold Mcp.listTools, Mcp.readToolsCache.
  rewrite orb_true_r. unfold bind at 1. unfold ret at 1. unfold bind at 1.
  pose proof (init_log st isGetTools eq_refl eq_refl) as Hg.
  pose proof (init_log st isReadFile eq_refl eq_refl) as Hr.
  destruct (init st) as [[[]| |] st1]; try discriminate.
  simpl in Hg, Hr.
  destruct (client st1); [|discriminate].
  unfold bind at 1. unfold ask.
  destruct (getToolsOutcome world (log st1)) as [e|ts];
    unfold bind, emit, throw, ret; simpl; [discriminate|].
  match goal with
  | |- context [writeToolsCache ts ?s] =>
      destruct (writeToolsCache_log ts s isGetTools) as [Hw1 Hw2];
        [reflexivity | reflexivity |];
      destruct (writeToolsCache_log ts s isReadFile) as [_ Hw3];
        [reflexivity | reflexivity |];
      destruct (writeToolsCache ts s) as [[[]| |] s']; try discriminate
  end.
  simpl in *. intros H. injection H as <- <-.
  rewrite Hw2, Hw3, !countEvents_snoc, Hg, Hr. simpl. split; lia.
Qed.

(** C1, as the code has it: when neither the exact nor the suffix match
    finds the identifier in the first listing, the catalog is listed once
    more with the cache bypassed (one live discovery, no look at the cache
    file), the two matches are repeated on the new catalog, and an
    identifier that is still unmatched makes [getTool] return undefined and
    [resolveToolName] throw an [ApiError] with status 400 whose message is
    ["Unknown tool: "] followed by the identifier. *)
Theorem resolveToolName_unknown
        (toolName : string) (st st1 st2 : State) (tools1 tools2 : list Tool) :
  listTools false st = (Return tools1, st1) ->
  findExact tools1 toolName = None ->
  findSuffix tools1 toolName = None ->
  listTools true st1 = (Return tools2, st2) ->
  getTool toolName st
  = (Return (match findExact tools2 toolName with
             | Some exact => Some exact
             | None => findSuffix tools2 toolName
             end), st2)
  /\ countEvents isGetTools (log st2)
     = (countEvents isGetTools (log st1) + 1)%nat
  /\ countEvents isReadFile (log st2) = countEvents isReadFile (log st1)
  /\ (findExact tools2 toolName = None ->
      findSuffix tools2 toolName = None ->
      resolveToolName toolName st
      = (Throw (ApiError ("Unknown tool: " +:+ toolName) 400), st2)).
Proof.
  intros H1 He Hs H2.
  assert (Hget : getTool toolName st
                 = (Return (match findExact tools2 toolName with
                            | Some exact => Some exact
                            | None => findSuffix tools2 toolName
                            end), st2)).
  { unfold Mcp.getTool. unfold bind at 1. rewrite H1, He, Hs.
    unfold bind. rewrite H2.
    destruct (findExact tools2 toolName); reflexivity. }
  destruct (listTools_forced st1 st2 tools2 H2) as [Hg Hr].
  repeat split; auto.
  intros He2 Hs2. unfold Mcp.resolveToolName, bind.
  rewrite Hget, He2, Hs2. reflexivity.
Qed.

End ClientFacts.

(* ===================================================================== *)
(** * The client on concrete worlds                                        *)
(* ===================================================================== *)

Lemma consistent_newClient (file : FileContent) : consistent (newClient file).
Proof. reflexivity. Qed.

Lemma readToolsCache_ttl_witness :
  fst (readToolsCache emptyEnv (agingWorld (0 + 86400000 - 1)) false
         (snd (writeToolsCache emptyEnv (agingWorld (0 + 86400000 - 1))
                               sampleCatalog (newClient Missing))))
  = Return (Some (map (redactTool (activeApiKey emptyEnv)) sampleCatalog))
  /\ fst (readToolsCache emptyEnv (clockWorld (1000 + 86400000 - 1)) false
         (cachedClient 1000 sampleCatalog))
  = Return (Some sampleCatalog)
  /\ fst (readToolsCache emptyEnv (clockWorld (1000 + 86400000 + 1)) false
            (cachedClient 1000 sampleCatalog))
     = Return None
  /\ fst (readToolsCache emptyEnv quietWorld true
            (cachedClient 1000 sampleCatalog))
     = Return None.
Proof.
  split; [|split; [|split]].
  - apply (proj1 (proj1 (readToolsCache_ttl
                           emptyEnv (agingWorld (0 + 86400000 - 1)))
                        (newClient Missing) 86400000 sampleCatalog
                        eq_refl eq_refl eq_refl eq_refl eq_refl)).
    reflexivity.
  - apply (proj1 (proj1 (proj2 (readToolsCache_ttl
                                  emptyEnv (clockWorld (1000 + 86400000 - 1))))
                        (cachedClient 1000 sampleCatalog) 1000 86400000
                        sampleCatalog eq_refl eq_refl eq_refl eq_refl eq_refl)).
    reflexivity.
  - apply (proj2 (proj1 (proj2 (readToolsCache_ttl
                                  emptyEnv (clockWorld (1000 + 86400000 + 1))))
                        (cachedClient 1000 sampleCatalog) 1000 86400000
                        sampleCatalog eq_refl eq_refl eq_refl eq_refl eq_refl)).
    reflexivity.
  - apply (proj2 (proj2 (readToolsCache_ttl emptyEnv quietWorld))
                 (cachedClient 1000 sampleCatalog) true).
    right. left. reflexivity.
Defined.

(** Written at time 0 and read back at once: the catalog comes from the
    file, no second discovery is made. *)
Example listTools_cached :
  log (snd (bind (listTools emptyEnv quietWorld sampleTimeoutMessage false)
                 (fun _ => listTools emptyEnv quietWorld sampleTimeoutMessage
                                     false)
                 (newClient Missing)))
  = [ EvReadFile; EvCreate; EvRegister; EvGetTools; EvNow 0;
      EvWriteFile (JData (Some 1) (Some 0) (Some sampleCatalog));
      EvReadFile; EvNow 0 ].
Proof. reflexivity. Qed.

Lemma close_bounded_witness :
  exists st',
    close closingWorld 2000 (readyClient closingWorld) = (Return tt, st')
    /\ cleared st'
    /\ (log st' = log (readyClient closingWorld)
        \/ exists elapsed,
             log st' = log (readyClient closingWorld) ++ [EvClose elapsed]
             /\ elapsed <= 2000).
Proof.
  apply (close_bounded closingWorld 2000 (readyClient closingWorld)).
  - unfold consistent. simpl. discriminate.
  - lia.
  - intros after e H. simpl in H. discriminate.
Defined.

(** The run behind the witness. *)
Example close_fulfilling_trace :
  log (snd (close closingWorld 2000 (readyClient closingWorld)))
  = [ EvCreate; EvRegister; EvClose 10 ].
Proof. reflexivity. Qed.

(** C2 as stated fails when the underlying close rejects before the timer:
    [close] then rejects too, and the client keeps its session, its
    initialized flag and its promise. *)
Lemma close_rejecting_counterexample :
  consistent (readyClient brokenCloseWorld)
  /\ closeBehaviour brokenCloseWorld (log (readyClient brokenCloseWorld))
     = CloseRejects 10 (OtherError "socket hang up")
  /\ fst (close brokenCloseWorld 2000 (readyClient brokenCloseWorld))
     = Throw (OtherError "socket hang up")
  /\ client (snd (close brokenCloseWorld 2000 (readyClient brokenCloseWorld)))
     = Some (utcpClient 0)
  /\ isInitialized
       (snd (close brokenCloseWorld 2000 (readyClient brokenCloseWorld)))
     = true
  /\ initPromise
       (snd (close brokenCloseWorld 2000 (readyClient brokenCloseWorld)))
     = Some (Return tt).
Proof.
  split; [unfold consistent; simpl; discriminate|].
  repeat split; reflexivity.
Qed.

Lemma close_idempotent_witness :
  close quietWorld 2000 (newClient Missing) = (Return tt, newClient Missing)
  /\ close quietWorld 2000 (snd (close quietWorld 2000
                                       (readyClient quietWorld)))
     = (Return tt, snd (close quietWorld 2000 (readyClient quietWorld)))
  /\ bind (close quietWorld 2000) (fun _ => close quietWorld 2000)
          (readyClient quietWorld)
     = close quietWorld 2000 (readyClient quietWorld).
Proof.
  split; [|split].
  - apply (proj1 (close_idempotent quietWorld) 2000 (newClient Missing)).
    reflexivity.
  - apply (proj1 (proj2 (close_idempotent quietWorld)) 2000 2000
                 (readyClient quietWorld)).
    reflexivity.
  - apply (proj2 (proj2 (close_idempotent quietWorld)) 2000 2000
                 (readyClient quietWorld)).
Defined.

Lemma callTool_retry_bound_witness :
  exists e l st',
    callTool emptyEnv failingWorld noJson sampleTimeoutMessage 3
             "zai.vision.analyze_image" TNull (newClient Missing)
    = (Throw (classifyCallError emptyEnv sampleTimeoutMessage e), st')
    /\ log st' = l ++ [EvCallTool "zai.vision.analyze_image" TNull]
    /\ callToolOutcome failingWorld l "zai.vision.analyze_image" TNull
       = inl e
    /\ (className (classifyCallError emptyEnv sampleTimeoutMessage e)
        = "TimeoutError"
        \/ className (classifyCallError emptyEnv sampleTimeoutMessage e)
           = "NetworkError"
        \/ className (classifyCallError emptyEnv sampleTimeoutMessage e)
           = "ApiError")
    /\ countEvents isCallTool (log st')
       = (countEvents isCallTool (log (newClient Missing))
          + Z.to_nat (getRetryCount emptyEnv "zai.vision.analyze_image")
          + 1)%nat
    /\ (getRetryCount emptyEnv "zai.vision.analyze_image" = 2 ->
        countEvents isCallTool (log st')
        = (countEvents isCallTool (log (newClient Missing)) + 3)%nat).
Proof.
  apply (callTool_retry_bound emptyEnv failingWorld noJson
           sampleTimeoutMessage "zai.vision.analyze_image" TNull 3
           (newClient Missing)).
  - intros l. eexists. reflexivity.
  - intros l. eexists. split; reflexivity.
  - intros l. eexists. split; reflexivity.
  - reflexivity.
  - apply Nat.ltb_lt. reflexivity.
Defined.

(** The error of the witness: the last failure, as an [ApiError]. *)
Example callTool_failing_error :
  fst (callTool emptyEnv failingWorld noJson sampleTimeoutMessage 3
                "zai.vision.analyze_image" TNull (newClient Missing))
  = Throw (ApiError "MCP tool call failed: HTTP 503 from upstream" 500).
Proof. vm_compute. reflexivity. Qed.

(** C3 as stated fails when the session cannot be set up again: with a
    budget of 2 and every transport call failing with a retriable error,
    the invocation closes the session after the first failure, and when the
    transport cannot be created for the second attempt it throws the error
    of the initialization, after one transport attempt and not three. *)
Lemma callTool_retry_bound_counterexample :
  getRetryCount emptyEnv "zai.vision.analyze_image" = 2
  /\ (forall l,
         callToolOutcome relapsingWorld l "zai.vision.analyze_image" TNull
         = inl (OtherError "HTTP 503 from upstream"))
  /\ isRetriableError (OtherError "HTTP 503 from upstream") = true
  /\ fst (callTool emptyEnv relapsingWorld noJson sampleTimeoutMessage 3
                   "zai.vision.analyze_image" TNull (newClient Missing))
     = Throw (NetworkError "connect ECONNREFUSED 127.0.0.1:443")
  /\ log (snd (callTool emptyEnv relapsingWorld noJson sampleTimeoutMessage 3
                        "zai.vision.analyze_image" TNull
                        (newClient Missing)))
     = [ EvCreate; EvRegister; EvCallTool "zai.vision.analyze_image" TNull;
         EvClose 2000; EvRandom 0; EvSleep (Some (Int 500)); EvCreate ]
  /\ countEvents isCallTool
       (log (snd (callTool emptyEnv relapsingWorld noJson
                           sampleTimeoutMessage 3
                           "zai.vision.analyze_image" TNull
                           (newClient Missing))))
     = 1%nat
  /\ 1%nat <> 3%nat.
Proof.
  split; [reflexivity|]. split; [intros l; reflexivity|].
  repeat split; try (vm_compute; reflexivity). discriminate.
Qed.

(** The run behind the witness: three transport calls, two sleeps. *)
Example callTool_failing_trace :
  log (snd (callTool emptyEnv failingWorld noJson sampleTimeoutMessage 3
              "zai.vision.analyze_image" TNull (newClient Missing)))
  = [ EvCreate; EvRegister; EvCallTool "zai.vision.analyze_image" TNull;
      EvClose 2000; EvRandom 0; EvSleep (Some (Int 500));
      EvCreate; EvRegister; EvCallTool "zai.vision.analyze_image" TNull;
      EvClose 2000; EvRandom 0; EvSleep (Some (Int 1000));
      EvCreate; EvRegister; EvCallTool "zai.vision.analyze_image" TNull ].
Proof. reflexivity. Qed.

Lemma callTool_auth_single_attempt_witness :
  getRetryCount (envWith "ZAI_MCP_RETRY_COUNT" "5")
                "zai.search.webSearchPrime" = 5
  /\ exists st',
       callTool (envWith "ZAI_MCP_RETRY_COUNT" "5") refusingWorld noJson
                sampleTimeoutMessage 6 "zai.search.webSearchPrime" TNull
                (newClient Missing)
       = (Throw (classifyCallError (envWith "ZAI_MCP_RETRY_COUNT" "5")
                                   sampleTimeoutMessage
                                   (OtherError "HTTP 401 Unauthorized")), st')
       /\ log st' = log (readyClient refusingWorld)
                    ++ [EvCallTool "zai.search.webSearchPrime" TNull]
       /\ countEvents isCallTool (log st')
          = (countEvents isCallTool (log (newClient Missing)) + 1)%nat.
Proof.
  split; [reflexivity|].
  destruct (callTool_auth_single_attempt
              (envWith "ZAI_MCP_RETRY_COUNT" "5") refusingWorld noJson
              sampleTimeoutMessage 5 "zai.search.webSearchPrime" TNull
              (newClient Missing) (readyClient refusingWorld)
              (OtherError "HTTP 401 Unauthorized")
              (consistent_newClient Missing) eq_refl eq_refl eq_refl)
    as (_ & st' & Hrun & _ & Hlog & Hcount).
  exists st'. repeat split; assumption.
Defined.

(** The surfaced error of the witness is an [AuthError]. *)
Example callTool_refused_error :
  fst (callTool (envWith "ZAI_MCP_RETRY_COUNT" "5") refusingWorld noJson
                sampleTimeoutMessage 6 "zai.search.webSearchPrime" TNull
                (newClient Missing))
  = Throw (AuthError "Authentication failed: HTTP 401 Unauthorized").
Proof. reflexivity. Qed.

Lemma resolveToolName_unknown_witness :
  getTool emptyEnv quietWorld sampleTimeoutMessage "missing"
          (newClient Missing)
  = (Return None,
     snd (listTools emptyEnv quietWorld sampleTimeoutMessage true
            (snd (listTools emptyEnv quietWorld sampleTimeoutMessage false
                    (newClient Missing)))))
  /\ resolveToolName emptyEnv quietWorld sampleTimeoutMessage "missing"
                     (newClient Missing)
     = (Throw (ApiError "Unknown tool: missing" 400),
        snd (listTools emptyEnv quietWorld sampleTimeoutMessage true
               (snd (listTools emptyEnv quietWorld sampleTimeoutMessage false
                       (newClient Missing))))).
Proof.
  pose proof (resolveToolName_unknown
                emptyEnv quietWorld sampleTimeoutMessage "missing"
                (newClient Missing)
                (snd (listTools emptyEnv quietWorld sampleTimeoutMessage false
                        (newClient Missing)))
                (snd (listTools emptyEnv quietWorld sampleTimeoutMessage true
                        (snd (listTools emptyEnv quietWorld
                                sampleTimeoutMessage false
                                (newClient Missing)))))
                sampleCatalog sampleCatalog
                eq_refl eq_refl eq_refl eq_refl) as (Hget & _ & _ & Hres).
  split; [exact Hget | exact (Hres eq_refl eq_refl)].
Defined.

(** C1 as stated fails on the class of the error: an identifier that stays
    unmatched after the forced refresh makes [resolveToolName] throw an
    [ApiError] (status 400), and [getTool] return undefined; no error class
    called UnknownToolError is thrown. *)
Lemma resolveToolName_unknown_counterexample :
  findExact sampleCatalog "missing" = None
  /\ findSuffix sampleCatalog "missing" = None
  /\ fst (resolveToolName emptyEnv quietWorld sampleTimeoutMessage "missing"
            (newClient Missing))
     = Throw (ApiError "Unknown tool: missing" 400)
  /\ className (ApiError "Unknown tool: missing" 400) <> "UnknownToolError"
  /\ fst (getTool emptyEnv quietWorld sampleTimeoutMessage "missing"
            (newClient Missing))
     = Return None
  /\ log (snd (resolveToolName emptyEnv quietWorld sampleTimeoutMessage
                 "missing" (newClient Missing)))
     = [ EvReadFile; EvCreate; EvRegister; EvGetTools; EvNow 0;
         EvWriteFile (JData (Some 1) (Some 0) (Some sampleCatalog));
         EvGetTools; EvNow 0;
         EvWriteFile (JData (Some 1) (Some 0) (Some sampleCatalog)) ].
Proof. repeat split; try reflexivity. discriminate. Qed.


(* ===================================================================== *)
(** * Further properties of the client                                     *)
(* ===================================================================== *)

Import Checks Cli Reports Silence MoreWorlds.

Section ClientMore.

Variable env : Env.
Variable world : World.
Variable JSON_parse : string -> option tree.
Variable timeoutMessage : num -> string.

Local Abbreviation readToolsCache := (Mcp.readToolsCache env world).
Local Abbreviation writeToolsCache := (Mcp.writeToolsCache env world).
Local Abbreviation init := (Mcp.init env world timeoutMessage).
Local Abbreviation close := (Mcp.close world).
Local Abbreviation afterClose := (Mcp.afterClose world).
Local Abbreviation afterSleep := (Mcp.afterSleep env world).
Local Abbreviation listTools := (Mcp.listTools env world timeoutMessage).
Local Abbreviation getTool := (Mcp.getTool env world timeoutMessage).
Local Abbreviation resolveToolName := (Mcp.resolveToolName env world timeoutMessage).
Local Abbreviation callToolLoop :=
  (Mcp.callToolLoop env world JSON_parse timeoutMessage).
Local Abbreviation callTool := (Mcp.callTool env world JSON_parse timeoutMessage).
Local Abbreviation callToolRaw := (Mcp.callToolRaw env world JSON_parse timeoutMessage).

Lemma classifyInitError_typed (e : Thrown) :
  isTyped (classifyInitError env timeoutMessage e) = true.
Proof.
  unfold classifyInitError.
  repeat match goal with |- context [if ?b then _ else _] => destruct b end;
    reflexivity.
Qed.


(** The ways [init] can go on a state that holds no settled promise. *)
Lemma init_cases (st : State) :
  consistent st ->
  (isInitialized st = true /\ init st = (Return tt, st))
  \/ (isInitialized st = false
      /\ exists r st',
           init st = (r, st')
           /\ ((r = Return tt /\ isInitialized st' = true
                /\ log st' = log st ++ [EvCreate; EvRegister])
               \/ (exists e, r = Throw e /\ isTyped e = true
                             /\ isInitialized st' = false
                             /\ initPromise st' = None
                             /\ exists rest, log st' = log st ++ EvCreate :: rest))).
Proof.
  unfold consistent, Mcp.init. intros Hinv.
  destruct (isInitialized st) eqn:Hi; [left; split; reflexivity|].
  right. split; [reflexivity|]. rewrite Hinv.
  unfold _doInit, tryCatch, bind, ask.
  destruct (createOutcome world (log st)) as [e|c] eqn:Hc.
  { unfold emit, throw, setInitPromise, bind. simpl.
    destruct (isApiError e) eqn:Ha; (eexists _, _; split; [reflexivity|]);
      right; eexists; (split; [reflexivity|]); simpl; rewrite Hi.
    - destruct e; try discriminate. repeat split; auto. now exists [].
    - rewrite classifyInitError_typed. repeat split; auto. now exists []. }
  unfold emit, ret, setClient, bind. simpl.
  destruct (registerOutcome world (log st ++ [EvCreate])) as [e|res] eqn:Hr.
  { unfold throw, setInitPromise. simpl.
    destruct (isApiError e) eqn:Ha; (eexists _, _; split; [reflexivity|]);
      right; eexists; (split; [reflexivity|]); simpl; rewrite Hi.
    - destruct e; try discriminate. repeat split; auto.
      exists [EvRegister]. now rewrite <- app_assoc.
    - rewrite classifyInitError_typed. repeat split; auto.
      exists [EvRegister]. now rewrite <- app_assoc. }
  simpl. destruct (success res) eqn:Hs; simpl.
  - unfold setIsInitialized, setInitPromise. simpl.
    eexists _, _. split; [reflexivity|]. left. simpl.
    repeat split; auto. now rewrite <- app_assoc.
  - unfold throw, setInitPromise. simpl.
    eexists _, _. split; [reflexivity|]. right. eexists.
    split; [reflexivity|]. simpl. rewrite Hi. repeat split; auto.
    exists [EvRegister]. now rewrite <- app_assoc.
Qed.

(** X1: An initialization that has succeeded is not repeated: the next [init]
    returns at once and leaves the state as it is; and a successful [init]
    has either found the client initialized or made exactly one [create]
    and one [registerManual]. *)
Theorem init_once (st st1 : State) :
  consistent st ->
  init st = (Return tt, st1) ->
  init st1 = (Return tt, st1)
  /\ (log st1 = log st \/ log st1 = log st ++ [EvCreate; EvRegister]).
Proof.
  intros Hinv Hrun.
  assert (Hi1 : isInitialized st1 = true).
  { destruct (init_spec env world timeoutMessage st Hinv)
      as (r & st' & Hi & _ & _ & _ & _ & Hlive).
    rewrite Hrun in Hi. injection Hi as <- <-. now apply Hlive. }
  split.
  - unfold Mcp.init. now rewrite Hi1.
  - destruct (init_cases st Hinv) as [[_ H]|[_ (r & st' & H & Hcase)]];
      rewrite Hrun in H;
      [assert (Hst : st = st1) by congruence
      |assert (Hst : st' = st1) by congruence;
       assert (Hr : r = Return tt) by congruence; subst r]; subst; clear H.
    + now left.
    + destruct Hcase as [(_ & _ & Hlog)|(e & He & _)]; [now right|discriminate].
Qed.

(** X2: An initialization that fails throws an [ApiError], an [AuthError], a
    [TimeoutError] or a [NetworkError] and leaves the client uninitialized
    without a stored promise, so that the next [init] starts again by asking
    the transport for a client. *)
Theorem init_failure (st st1 : State) (e : Thrown) :
  consistent st ->
  init st = (Throw e, st1) ->
  isTyped e = true
  /\ isInitialized st1 = false /\ initPromise st1 = None
  /\ exists rest, log (snd (init st1)) = log st1 ++ EvCreate :: rest.
Proof.
  intros Hinv Hrun.
  destruct (init_cases st Hinv) as [[_ H]|[_ (r & st' & H & Hcase)]];
    rewrite Hrun in H; [discriminate|].
  assert (Hr : r = Throw e) by congruence.
  assert (Hst : st' = st1) by congruence. subst r st'. clear H.
  destruct Hcase as [(Hr & _)|(e' & He & Ht & Hi & Hp & _)]; [discriminate|].
  assert (e' = e) by congruence. subst e'. clear He. repeat split; auto.
  assert (Hinv1 : consistent st1) by (unfold consistent; now rewrite Hi).
  destruct (init_cases st1 Hinv1) as [[H _]|[_ (r & st' & H & Hcase)]];
    [congruence|].
  rewrite H. simpl.
  destruct Hcase as [(_ & _ & Hlog)|(e' & _ & _ & _ & _ & rest & Hlog)].
  - exists [EvRegister]. exact Hlog.
  - exists rest. exact Hlog.
Qed.

(** ** Every invocation ends *)

Lemma afterClose_count (st : State) (p : Event -> bool) :
  (forall d, p (EvClose d) = false) ->
  countEvents p (log (afterClose st)) = countEvents p (log st).
Proof.
  intros Hp. unfold Mcp.afterClose, tryCatch, Mcp.close.
  destruct (client st); [|reflexivity].
  unfold bind, emit, setClient, setIsInitialized, setInitPromise, throw, ret.
  simpl.
  destruct (fst (race (closeBehaviour world (log st)) 2000)); simpl;
    rewrite countEvents_snoc, Hp; lia.
Qed.

Lemma afterSleep_count (attempt : Z) (st : State) (p : Event -> bool) :
  (forall r, p (EvRandom r) = false) ->
  countEvents p (log (afterSleep attempt st))
  = (countEvents p (log st)
     + if p (EvSleep (retryDelay env attempt (randomNumerator world (log st))))
       then 1 else 0)%nat.
Proof.
  intros Hp. unfold Mcp.afterSleep, sleep, emit. simpl.
  rewrite !countEvents_snoc, Hp. lia.
Qed.


(** One iteration whose transport call succeeds. *)
Lemma callToolLoop_returns (fuel : nat) (toolName : string) (args : tree)
      (maxRetries attempt : Z) (st st1 : State) (c : UtcpClient)
      (result : tree) :
  init st = (Return tt, st1) ->
  client st1 = Some c ->
  callToolOutcome world (log st1) toolName args = inr result ->
  callToolLoop (S fuel) toolName args maxRetries attempt st
  = (Return (parseResult JSON_parse result),
     snd (emit (EvCallTool toolName args) st1)).
Proof.
  intros Hinit Hc Hout. simpl. unfold bind at 1. rewrite Hinit, Hc.
  unfold tryCatch, bind, ask. rewrite Hout. unfold emit, ret. simpl.
  rewrite ?Hc. reflexivity.
Qed.






Section Recovering.

Variable toolName : string.
Variable args : tree.
Variable result : tree.
(** The transport calls made before the invocation, and the calls that fail
    from then on. *)
Variables start failures : nat.

Hypothesis create_ok : forall l, exists c, createOutcome world l = inr c.
Hypothesis register_ok :
  forall l, exists res, registerOutcome world l = inr res
                        /\ success res = true.
Hypothesis fails_first :
  forall l, (countEvents isCallTool l < start + failures)%nat ->
            exists e, callToolOutcome world l toolName args = inl e
                      /\ isRetriableError e = true.
Hypothesis then_answers :
  forall l, countEvents isCallTool l = (start + failures)%nat ->
            callToolOutcome world l toolName args = inr result.

Lemma callToolLoop_recovers (maxRetries : Z) (d : nat) :
  forall (attempt : Z) (fuel : nat) (st : State),
    consistent st ->
    (countEvents isCallTool (log st) + d = start + failures)%nat ->
    attempt + Z.of_nat d <= maxRetries ->
    (d < fuel)%nat ->
    exists st',
      callToolLoop fuel toolName args maxRetries attempt st
      = (Return (parseResult JSON_parse result), st')
      /\ countEvents isCallTool (log st') = (start + failures + 1)%nat
      /\ countEvents isSleep (log st')
         = (countEvents isSleep (log st) + d)%nat.
Proof.
  induction d as [|d IH]; intros attempt fuel st Hinv Hcalls Hbudget Hfuel;
    (destruct fuel as [|fuel]; [lia|]);
    destruct (init_succeeds env world timeoutMessage create_ok register_ok
                st Hinv) as (st1 & c & Hinit & Hc & Hinv1 & Hcnt);
    pose proof (init_log env world timeoutMessage st isSleep eq_refl eq_refl)
      as Hsl; rewrite Hinit in Hsl; simpl in Hsl.
  - rewrite (callToolLoop_returns fuel toolName args maxRetries attempt
               st st1 c result Hinit Hc).
    2:{ apply then_answers. lia. }
    eexists. split; [reflexivity|]. simpl. rewrite !countEvents_snoc. simpl.
    lia.
  - destruct (fails_first (log st1)) as (e & Hout & Hretri); [lia|].
    rewrite (callToolLoop_retry env world JSON_parse timeoutMessage fuel
               toolName args maxRetries attempt st st1 c e Hinit Hc Hout).
    2:{ rewrite Hretri, andb_true_r. apply Z.leb_le. lia. }
    set (st2 := snd (emit (EvCallTool toolName args) st1)).
    assert (Hinv2 : consistent st2) by exact Hinv1.
    destruct (afterClose_spec world st2) as (_ & Hinv3 & _).
    destruct (afterSleep_spec env world (attempt + 1) (afterClose st2))
      as (Hinv4 & _).
    assert (Hcalls2 : countEvents isCallTool
                        (log (afterSleep (attempt + 1) (afterClose st2)))
                      = (countEvents isCallTool (log st) + 1)%nat).
    { rewrite afterSleep_count, afterClose_count by reflexivity.
      unfold st2. simpl. rewrite countEvents_snoc. simpl. lia. }
    assert (Hsleeps2 : countEvents isSleep
                         (log (afterSleep (attempt + 1) (afterClose st2)))
                       = (countEvents isSleep (log st) + 1)%nat).
    { rewrite afterSleep_count, afterClose_count by reflexivity.
      unfold st2. simpl. rewrite countEvents_snoc. simpl. lia. }
    destruct (IH (attempt + 1) fuel (afterSleep (attempt + 1) (afterClose st2)))
      as (st' & Hrun & Hc' & Hs'); [auto | lia | lia | lia |].
    exists st'. split; [exact Hrun|]. split; [exact Hc'|]. lia.
Qed.

End Recovering.

(** X5: When the transport fails [failures] times with a retriable error and
    then answers, and the retry budget covers the failures, the invocation
    returns the answer (parsed when it is a JSON string) after
    [failures + 1] transport attempts and [failures] sleeps. *)
Theorem callTool_recovers (toolName : string) (args result : tree)
        (failures fuel : nat) (st : State) :
  (forall l, exists c, createOutcome world l = inr c) ->
  (forall l, exists res, registerOutcome world l = inr res
                         /\ success res = true) ->
  (forall l, (countEvents isCallTool l
              < countEvents isCallTool (log st) + failures)%nat ->
             exists e, callToolOutcome world l toolName args = inl e
                       /\ isRetriableError e = true) ->
  (forall l, countEvents isCallTool l
             = (countEvents isCallTool (log st) + failures)%nat ->
             callToolOutcome world l toolName args = inr result) ->
  consistent st ->
  Z.of_nat failures <= getRetryCount env toolName ->
  (failures < fuel)%nat ->
  exists st',
    callTool fuel toolName args st
    = (Return (parseResult JSON_parse result), st')
    /\ countEvents isCallTool (log st')
       = (countEvents isCallTool (log st) + failures + 1)%nat
    /\ countEvents isSleep (log st')
       = (countEvents isSleep (log st) + failures)%nat.
Proof.
  intros Hcreate Hreg Hfail Hok Hinv Hbudget Hfuel. unfold Mcp.callTool.
  apply (callToolLoop_recovers toolName args result
           (countEvents isCallTool (log st)) failures Hcreate Hreg Hfail Hok
           (getRetryCount env toolName) failures 0 fuel st); auto; lia.
Qed.

(** ** Listing and resolution settle *)

Lemma readToolsCache_settles (refresh : bool) (st : State) :
  exists cached st',
    readToolsCache refresh st = (Return cached, st')
    /\ (consistent st -> consistent st').
Proof.
  unfold Mcp.readToolsCache, consistent.
  destruct (negb (TOOL_CACHE_ENABLED env) || refresh);
    [eexists _, _; split; [reflexivity | auto]|].
  destruct (numLe (DEFAULT_TOOL_CACHE_TTL_MS env) (Some (Int 0)));
    [eexists _, _; split; [reflexivity | auto]|].
  destruct (readFails world (log st));
    [eexists _, _; split; [reflexivity | auto]|].
  unfold bind, emit, ret. simpl.
  destruct (cacheFile st) as [| |[|version timestamp tools]];
    try (eexists _, _; split; [reflexivity | auto]).
  destruct version as [v|], tools as [ts|];
    try (eexists _, _; split; [reflexivity | auto]).
  destruct (negb (v =? TOOL_CACHE_VERSION));
    [eexists _, _; split; [reflexivity | auto]|].
  simpl.
  destruct (DEFAULT_TOOL_CACHE_TTL_MS env) as [y|];
    [destruct (extLtb y _)|];
    eexists _, _; (split; [reflexivity | auto]).
Qed.

Lemma writeToolsCache_settles (tools : list Tool) (st : State) :
  exists st',
    writeToolsCache tools st = (Return tt, st')
    /\ (consistent st -> consistent st').
Proof.
  unfold Mcp.writeToolsCache, consistent.
  destruct (negb (TOOL_CACHE_ENABLED env)
            || numLe (DEFAULT_TOOL_CACHE_TTL_MS env) (Some (Int 0)));
    [eexists; split; [reflexivity | auto]|].
  destruct (writeFails world (log st));
    [eexists; split; [reflexivity | auto]|].
  unfold bind, emit, setCacheFile. simpl.
  eexists; split; [reflexivity | auto].
Qed.




(** ** Listing *)

(** X6: A listing that finds a fresh entry in the cache file returns its
    catalog without touching the client or the transport: the only events
    are the read of the file and the look at the clock. *)
Theorem listTools_from_cache (st : State) (T ttl : Z) (tools : list Tool) :
  TOOL_CACHE_ENABLED env = true ->
  DEFAULT_TOOL_CACHE_TTL_MS env = Some (Int ttl) -> 0 < ttl ->
  readFails world (log st) = false ->
  cacheFile st
  = Parsed (JData (Some TOOL_CACHE_VERSION) (Some T) (Some tools)) ->
  dateNow world (log st ++ [EvReadFile]) - T <= ttl ->
  exists st',
    listTools false st = (Return tools, st')
    /\ log st'
       = log st ++ [EvReadFile; EvNow (dateNow world (log st ++ [EvReadFile]))]
    /\ client st' = client st
    /\ isInitialized st' = isInitialized st
    /\ initPromise st' = initPromise st
    /\ cacheFile st' = cacheFile st.
Proof.
  intros Hen Httl Hpos Hr Hfile Hage.
  unfold Mcp.listTools, Mcp.readToolsCache. rewrite Hen, Httl. simpl.
  replace (ttl <=? 0) with false by (symmetry; apply Z.leb_gt; lia).
  unfold bind at 1. rewrite Hr. unfold bind, emit, ret. simpl.
  rewrite Hfile. simpl.
  replace (ttl <? _) with false by (symmetry; apply Z.ltb_ge; lia).
  eexists. split; [reflexivity|]. simpl. rewrite <- app_assoc.
  repeat split; auto.
Qed.

(** X7: A forced listing that returns has initialized the client and returns
    the catalog exactly as the transport gave it; what it leaves in the
    cache file, when the cache is on and the write goes through, is the
    redacted copy, stamped with the time of the write. *)
Theorem listTools_live (st st' : State) (tools : list Tool) :
  listTools true st = (Return tools, st') ->
  exists st1,
    init st = (Return tt, st1)
    /\ getToolsOutcome world (log st1) = inr tools
    /\ st' = snd (writeToolsCache tools (snd (emit EvGetTools st1)))
    /\ forall ttl,
         TOOL_CACHE_ENABLED env = true ->
         DEFAULT_TOOL_CACHE_TTL_MS env = Some (Int ttl) -> 0 < ttl ->
         writeFails world (log st1 ++ [EvGetTools]) = false ->
         cacheFile st'
         = Parsed (JData (Some TOOL_CACHE_VERSION)
                         (Some (dateNow world (log st1 ++ [EvGetTools])))
                         (Some (map (redactTool (activeApiKey env)) tools))).
Proof.
  unfold Mcp.listTools, Mcp.readToolsCache.
  rewrite orb_true_r. unfold bind at 1. unfold ret at 1. unfold bind at 1.
  destruct (init st) as [[[]| |] st1] eqn:Hinit; try discriminate.
  destruct (client st1); [|discriminate].
  unfold bind at 1. unfold ask.
  destruct (getToolsOutcome world (log st1)) as [e|ts] eqn:Hget;
    unfold bind at 1; unfold emit at 1; unfold throw, ret;
    [discriminate|].
  unfold bind.
  pose proof (writeToolsCache_entry env world ts (snd (emit EvGetTools st1)))
    as Hentry.
  destruct (writeToolsCache_log env world ts (snd (emit EvGetTools st1))
              isGetTools) as [Hw1 _]; [reflexivity | reflexivity |].
  change (snd (emit EvGetTools st1))
    with {| client := client st1; initPromise := initPromise st1;
            isInitialized := isInitialized st1; cacheFile := cacheFile st1;
            log := log st1 ++ [EvGetTools] |} in Hentry, Hw1.
  destruct (writeToolsCache ts _) as [[[]| |] s'] eqn:Hw; try discriminate.
  intros H. assert (ts = tools) by congruence. assert (s' = st') by congruence.
  subst ts s'. clear H.
  exists st1. split; [reflexivity|]. split; [exact Hget|]. split.
  - unfold emit. simpl. now rewrite Hw.
  - intros ttl Hen Httl Hpos Hwf. exact (Hentry ttl Hen Httl Hpos Hwf).
Qed.

Section Reachable.

Hypothesis create_ok : forall l, exists c, createOutcome world l = inr c.
Hypothesis register_ok :
  forall l, exists res, registerOutcome world l = inr res
                        /\ success res = true.
Hypothesis getTools_ok : forall l, exists ts, getToolsOutcome world l = inr ts.

(** X8: No fault of the cache makes a listing fail: when the transport can be
    created, registered and asked for its tools, [listTools] returns a
    catalog, whether the cache file is missing, corrupt, unreadable or
    unwritable. *)
Theorem listTools_survives_cache_faults (refresh : bool) (st : State) :
  consistent st ->
  exists tools st',
    listTools refresh st = (Return tools, st') /\ consistent st'.
Proof.
  intros Hinv. unfold Mcp.listTools. unfold bind at 1.
  destruct (readToolsCache_settles refresh st) as (cached & st0 & -> & Hinv0).
  destruct cached as [tools|]; [exists tools, st0; split; auto|].
  unfold bind at 1.
  destruct (init_succeeds env world timeoutMessage create_ok register_ok
              st0 (Hinv0 Hinv)) as (st1 & c & -> & Hc & Hinv1 & _).
  rewrite Hc. unfold bind at 1. unfold ask.
  destruct (getTools_ok (log st1)) as [ts ->].
  unfold bind at 1. unfold emit at 1. unfold ret at 1. unfold bind.
  match goal with
  | |- context [writeToolsCache ts ?s] =>
      destruct (writeToolsCache_settles ts s) as (st2 & -> & Hinv2)
  end.
  exists ts, st2. split; [reflexivity|]. apply Hinv2. exact Hinv1.
Qed.

End Reachable.

(** ** Resolution *)

Lemma findExact_name (tools : list Tool) (toolName : string) (t : Tool) :
  findExact tools toolName = Some t -> In t tools /\ name t = toolName.
Proof.
  intros H. apply find_some in H as [Hin Heq].
  split; [exact Hin | now apply String.eqb_eq].
Qed.

Lemma findSuffix_name (tools : list Tool) (toolName : string) (t : Tool) :
  findSuffix tools toolName = Some t ->
  In t tools /\ endsWith (name t) ("." +:+ toolName) = true.
Proof. intros H. now apply find_some in H. Qed.

Lemma resolveToolName_matches (toolName resolved : string)
      (st st' : State) :
  resolveToolName toolName st = (Return resolved, st') ->
  resolved = toolName \/ endsWith resolved ("." +:+ toolName) = true.
Proof.
  unfold Mcp.resolveToolName, Mcp.getTool. unfold bind at 1. unfold bind at 1.
  destruct (listTools false st) as [[tools1| |] st1]; try discriminate.
  destruct (findExact tools1 toolName) as [t|] eqn:He1.
  { unfold ret. intros [= <- _]. left. now apply (findExact_name tools1). }
  destruct (findSuffix tools1 toolName) as [t|] eqn:Hs1.
  { unfold ret. intros [= <- _]. right. now apply (findSuffix_name tools1). }
  unfold bind at 1.
  destruct (listTools true st1) as [[tools2| |] st2]; try discriminate.
  destruct (findExact tools2 toolName) as [t|] eqn:He2.
  { unfold ret. intros [= <- _]. left. now apply (findExact_name tools2). }
  unfold ret.
  destruct (findSuffix tools2 toolName) as [t|] eqn:Hs2; [|discriminate].
  intros [= <- _]. right. now apply (findSuffix_name tools2).
Qed.

(** X9: A resolved name is the identifier itself or ends with a dot followed
    by the identifier. *)
Theorem resolveToolName_sound (toolName resolved : string) (st st' : State) :
  resolveToolName toolName st = (Return resolved, st') ->
  resolved = toolName \/ endsWith resolved ("." +:+ toolName) = true.
Proof. apply resolveToolName_matches. Qed.

Lemma findExact_present (tools : list Tool) (t : Tool) :
  In t tools ->
  exists t', findExact tools (name t) = Some t' /\ name t' = name t.
Proof.
  intros Hin. unfold findExact.
  destruct (find (fun tool => String.eqb (name tool) (name t)) tools)
    as [t'|] eqn:Hf.
  - exists t'. split; [reflexivity|]. apply find_some in Hf as [_ Heq].
    now apply String.eqb_eq.
  - apply (find_none _ _ Hf) in Hin. now rewrite String.eqb_refl in Hin.
Qed.

Lemma findExact_same_names (tools1 tools2 : list Tool) (toolName : string)
      (t : Tool) :
  map name tools1 = map name tools2 ->
  findExact tools1 toolName = Some t ->
  exists t', findExact tools2 toolName = Some t' /\ name t' = name t.
Proof.
  revert tools2. unfold findExact.
  induction tools1 as [|x tools1 IH]; intros [|y tools2] Hmap Hf;
    try discriminate.
  simpl in Hmap. injection Hmap as Hxy Hrest. simpl in *. rewrite <- Hxy.
  destruct (String.eqb (name x) toolName) eqn:Heq.
  - injection Hf as <-. exists y. split; [reflexivity | now symmetry].
  - now apply IH.
Qed.

(** X10: Resolving a resolved name again gives the same name: when the first
    listing holds a match (the exact one, or the first suffix match when
    there is no exact one) and the next listing holds tools of the same
    names, as the cached copy does, the identifier resolves without a forced
    refresh and its resolution resolves to itself. *)
Theorem resolveToolName_stable (toolName : string) (st st1 st2 : State)
        (tools1 tools2 : list Tool) (t : Tool) :
  listTools false st = (Return tools1, st1) ->
  findExact tools1 toolName = Some t
  \/ (findExact tools1 toolName = None /\ findSuffix tools1 toolName = Some t) ->
  listTools false st1 = (Return tools2, st2) ->
  map name tools2 = map name tools1 ->
  resolveToolName toolName st = (Return (name t), st1)
  /\ resolveToolName (name t) st1 = (Return (name t), st2).
Proof.
  intros H1 Hfound H2 Hnames. split.
  - unfold Mcp.resolveToolName, Mcp.getTool. unfold bind at 1. unfold bind at 1.
    rewrite H1. destruct Hfound as [->|[-> ->]]; reflexivity.
  - assert (Hin : In t tools1).
    { destruct Hfound as [H|[_ H]]; now apply find_some in H. }
    destruct (findExact_present tools1 t Hin) as (t1 & Hf1 & Hn1).
    destruct (findExact_same_names tools1 tools2 (name t) t1
                (eq_sym Hnames) Hf1) as (t2 & Hf2 & Hn2).
    unfold Mcp.resolveToolName, Mcp.getTool. unfold bind at 1. unfold bind at 1.
    rewrite H2, Hf2. unfold ret. congruence.
Qed.

(** ** A session after a close *)

(** X11: After a [close] that has resolved on a live session the next [init]
    starts a new session: right after the close it asks the transport for a
    new client. *)
Theorem close_then_init_reconnects (timeoutMs : Z) (st st1 : State) :
  consistent st ->
  close timeoutMs st = (Return tt, st1) ->
  client st <> None ->
  exists elapsed rest,
    log (snd (init st1)) = log st ++ EvClose elapsed :: EvCreate :: rest.
Proof.
  intros Hinv Hrun Hlive.
  destruct (close_spec world timeoutMs st Hinv)
    as (r & st' & Hc & _ & Hinv' & _ & _ & Hcl).
  rewrite Hrun in Hc.
  assert (r = Return tt) by congruence. assert (st' = st1) by congruence.
  subst r st'. destruct (Hcl eq_refl) as (_ & Hi & Hp).
  assert (Hlog : exists elapsed, log st1 = log st ++ [EvClose elapsed]).
  { revert Hrun. unfold Mcp.close.
    destruct (client st); [|congruence].
    unfold bind, emit, setClient, setIsInitialized, setInitPromise, throw.
    simpl.
    destruct (fst (race (closeBehaviour world (log st)) timeoutMs));
      simpl; [discriminate|].
    intros [= <-]. simpl. eexists. reflexivity. }
  destruct Hlog as [elapsed Hlog]. exists elapsed.
  destruct (init_cases st1 Hinv') as [[H _]|[_ (r & st2 & H & Hcase)]];
    [congruence|].
  rewrite H. simpl.
  destruct Hcase as [(_ & _ & Hl)|(e' & _ & _ & _ & _ & rest & Hl)].
  - exists [EvRegister]. rewrite Hl, Hlog, <- app_assoc. reflexivity.
  - exists rest. rewrite Hl, Hlog, <- app_assoc. reflexivity.
Qed.

(** ** Resolution makes no tool call *)

Lemma readToolsCache_log (refresh : bool) (st : State) (p : Event -> bool) :
  p EvReadFile = false ->
  (forall t, p (EvNow t) = false) ->
  countEvents p (log (snd (readToolsCache refresh st)))
  = countEvents p (log st).
Proof.
  intros Hp1 Hp2. unfold Mcp.readToolsCache.
  destruct (negb (TOOL_CACHE_ENABLED env) || refresh); [reflexivity|].
  destruct (numLe (DEFAULT_TOOL_CACHE_TTL_MS env) (Some (Int 0))); [reflexivity|].
  destruct (readFails world (log st));
    [unfold bind, emit, ret; simpl; rewrite countEvents_snoc, Hp1; lia|].
  unfold bind, emit, ret. simpl.
  destruct (cacheFile st) as [| |[|version timestamp tools]]; simpl;
    try (rewrite countEvents_snoc, Hp1; lia).
  destruct version as [v|], tools as [ts|]; simpl;
    try (rewrite countEvents_snoc, Hp1; lia).
  destruct (negb (v =? TOOL_CACHE_VERSION)); simpl;
    [rewrite countEvents_snoc, Hp1; lia|].
  destruct (DEFAULT_TOOL_CACHE_TTL_MS env) as [y|]; [destruct (extLtb y _)|];
    simpl; rewrite !countEvents_snoc, Hp1, Hp2; lia.
Qed.

Lemma listTools_log (refresh : bool) (st : State) (p : Event -> bool) :
  p EvReadFile = false -> (forall t, p (EvNow t) = false) ->
  (forall d, p (EvWriteFile d) = false) ->
  p EvCreate = false -> p EvRegister = false -> p EvGetTools = false ->
  countEvents p (log (snd (listTools refresh st))) = countEvents p (log st).
Proof.
  intros Hr Hn Hw Hc Hg Ht. unfold Mcp.listTools. unfold bind at 1.
  pose proof (readToolsCache_log refresh st p Hr Hn) as H0.
  destruct (readToolsCache_settles refresh st) as (cached & st0 & Hread & _).
  rewrite Hread in *. simpl in H0.
  destruct cached as [tools|]; [exact H0|].
  unfold bind at 1.
  pose proof (init_log env world timeoutMessage st0 p Hc Hg) as H1.
  destruct (init st0) as [[[]| |] st1]; simpl in H1;
    try (simpl; congruence).
  destruct (client st1); [|simpl; congruence].
  unfold bind at 1. unfold ask.
  destruct (getToolsOutcome world (log st1)) as [e|ts];
    unfold bind at 1; unfold emit at 1; unfold throw, ret.
  { simpl. rewrite countEvents_snoc, Ht. lia. }
  unfold bind.
  destruct (writeToolsCache_log env world ts (snd (emit EvGetTools st1)) p
              Hn Hw) as [Hw1 Hw2].
  change (snd (emit EvGetTools st1))
    with {| client := client st1; initPromise := initPromise st1;
            isInitialized := isInitialized st1; cacheFile := cacheFile st1;
            log := log st1 ++ [EvGetTools] |} in Hw1, Hw2.
  destruct (writeToolsCache ts _) as [[[]| |] s']; try discriminate.
  simpl in *. rewrite Hw2, countEvents_snoc, Ht. lia.
Qed.

Lemma resolveToolName_log (toolName : string) (st : State)
      (p : Event -> bool) :
  p EvReadFile = false -> (forall t, p (EvNow t) = false) ->
  (forall d, p (EvWriteFile d) = false) ->
  p EvCreate = false -> p EvRegister = false -> p EvGetTools = false ->
  countEvents p (log (snd (resolveToolName toolName st)))
  = countEvents p (log st).
Proof.
  intros Hr Hn Hw Hc Hg Ht.
  unfold Mcp.resolveToolName, Mcp.getTool. unfold bind at 1. unfold bind at 1.
  pose proof (listTools_log false st p Hr Hn Hw Hc Hg Ht) as H1.
  destruct (listTools false st) as [[tools1| |] st1]; simpl in H1;
    try exact H1.
  destruct (findExact tools1 toolName) as [t|]; [exact H1|].
  destruct (findSuffix tools1 toolName) as [t|]; [exact H1|].
  unfold bind at 1.
  pose proof (listTools_log true st1 p Hr Hn Hw Hc Hg Ht) as H2.
  destruct (listTools true st1) as [[tools2| |] st2]; simpl in H2;
    try (simpl; congruence).
  destruct (findExact tools2 toolName) as [t|]; [simpl; congruence|].
  unfold ret.
  destruct (findSuffix tools2 toolName) as [t|]; simpl; congruence.
Qed.

(** X12: Name resolution never calls a tool: when the identifier does not
    resolve, [callToolRaw] throws what the resolution throws and the
    transport has seen no tool call. *)
Theorem callToolRaw_unresolved (fuel : nat) (toolName : string) (args : tree)
        (st st' : State) (e : Thrown) :
  resolveToolName toolName st = (Throw e, st') ->
  callToolRaw fuel toolName args st = (Throw e, st')
  /\ countEvents isCallTool (log st') = countEvents isCallTool (log st).
Proof.
  intros Hres. split.
  - unfold Mcp.callToolRaw, bind. now rewrite Hres.
  - pose proof (resolveToolName_log toolName st isCallTool eq_refl
                  (fun _ => eq_refl) (fun _ => eq_refl) eq_refl eq_refl
                  eq_refl) as H.
    now rewrite Hres in H.
Qed.

End ClientMore.

(* ===================================================================== *)
(** * More runs on concrete worlds                                         *)
(* ===================================================================== *)

Lemma init_once_witness :
  init emptyEnv quietWorld sampleTimeoutMessage (readyClient quietWorld)
  = (Return tt, readyClient quietWorld)
  /\ (log (readyClient quietWorld) = log (newClient Missing)
      \/ log (readyClient quietWorld)
         = log (newClient Missing) ++ [EvCreate; EvRegister]).
Proof.
  apply (init_once emptyEnv quietWorld sampleTimeoutMessage
           (newClient Missing) (readyClient quietWorld)); reflexivity.
Defined.

Lemma init_failure_witness :
  isTyped (NetworkError "connect ECONNREFUSED 127.0.0.1:443") = true
  /\ isInitialized (readyClient unreachableWorld) = false
  /\ initPromise (readyClient unreachableWorld) = None
  /\ exists rest,
       log (snd (init emptyEnv unreachableWorld sampleTimeoutMessage
                   (readyClient unreachableWorld)))
       = log (readyClient unreachableWorld) ++ EvCreate :: rest.
Proof.
  apply (init_failure emptyEnv unreachableWorld sampleTimeoutMessage
           (newClient Missing) (readyClient unreachableWorld)
           (NetworkError "connect ECONNREFUSED 127.0.0.1:443"));
    reflexivity.
Defined.



Lemma callTool_recovers_witness :
  exists st',
    callTool emptyEnv (flakyWorld 2) noJson sampleTimeoutMessage 3
             "zai.vision.analyze_image" TNull (newClient Missing)
    = (Return (parseResult noJson (TStr "ok")), st')
    /\ countEvents isCallTool (log st')
       = (countEvents isCallTool (log (newClient Missing)) + 2 + 1)%nat
    /\ countEvents isSleep (log st')
       = (countEvents isSleep (log (newClient Missing)) + 2)%nat.
Proof.
  apply (callTool_recovers emptyEnv (flakyWorld 2) noJson sampleTimeoutMessage
           "zai.vision.analyze_image" TNull (TStr "ok") 2 3
           (newClient Missing)).
  - intros l. eexists. reflexivity.
  - intros l. eexists. split; reflexivity.
  - intros l Hl. simpl in *. apply Nat.ltb_lt in Hl. rewrite Hl.
    eexists. split; reflexivity.
  - intros l Hl. simpl in *. rewrite Hl. reflexivity.
  - reflexivity.
  - vm_compute. discriminate.
  - lia.
Defined.

Lemma listTools_from_cache_witness :
  exists st',
    listTools emptyEnv (clockWorld 2000) sampleTimeoutMessage false
              (cachedClient 1000 sampleCatalog)
    = (Return sampleCatalog, st')
    /\ log st'
       = log (cachedClient 1000 sampleCatalog)
         ++ [EvReadFile;
             EvNow (dateNow (clockWorld 2000)
                            (log (cachedClient 1000 sampleCatalog)
                             ++ [EvReadFile]))]
    /\ client st' = client (cachedClient 1000 sampleCatalog)
    /\ isInitialized st' = isInitialized (cachedClient 1000 sampleCatalog)
    /\ initPromise st' = initPromise (cachedClient 1000 sampleCatalog)
    /\ cacheFile st' = cacheFile (cachedClient 1000 sampleCatalog).
Proof.
  apply (listTools_from_cache emptyEnv (clockWorld 2000) sampleTimeoutMessage
           (cachedClient 1000 sampleCatalog) 1000 86400000 sampleCatalog);
    try reflexivity.
  simpl. lia.
Defined.

Lemma listTools_live_witness :
  exists st1,
    init emptyEnv quietWorld sampleTimeoutMessage (newClient Missing)
    = (Return tt, st1)
    /\ getToolsOutcome quietWorld (log st1) = inr sampleCatalog
    /\ snd (listTools emptyEnv quietWorld sampleTimeoutMessage true
              (newClient Missing))
       = snd (writeToolsCache emptyEnv quietWorld sampleCatalog
                (snd (emit EvGetTools st1)))
    /\ forall ttl,
         TOOL_CACHE_ENABLED emptyEnv = true ->
         DEFAULT_TOOL_CACHE_TTL_MS emptyEnv = Some (Int ttl) -> 0 < ttl ->
         writeFails quietWorld (log st1 ++ [EvGetTools]) = false ->
         cacheFile (snd (listTools emptyEnv quietWorld sampleTimeoutMessage
                           true (newClient Missing)))
         = Parsed (JData (Some TOOL_CACHE_VERSION)
                         (Some (dateNow quietWorld (log st1 ++ [EvGetTools])))
                         (Some (map (redactTool (activeApiKey emptyEnv))
                                    sampleCatalog))).
Proof.
  apply (listTools_live emptyEnv quietWorld sampleTimeoutMessage
           (newClient Missing)).
  reflexivity.
Defined.

Lemma listTools_survives_cache_faults_witness :
  exists tools st',
    listTools emptyEnv brokenDiskWorld sampleTimeoutMessage false
              (cachedClient 1000 sampleCatalog)
    = (Return tools, st')
    /\ consistent st'.
Proof.
  apply (listTools_survives_cache_faults emptyEnv brokenDiskWorld
           sampleTimeoutMessage).
  - intros l. eexists. reflexivity.
  - intros l. eexists. split; reflexivity.
  - intros l. eexists. reflexivity.
  - reflexivity.
Defined.

Lemma resolveToolName_sound_witness :
  fst (resolveToolName emptyEnv quietWorld sampleTimeoutMessage
                       "analyze_image" (newClient Missing))
  = Return "zai.vision.analyze_image"
  /\ ("zai.vision.analyze_image" = "analyze_image"
      \/ endsWith "zai.vision.analyze_image" ("." +:+ "analyze_image")
         = true).
Proof.
  split; [reflexivity|].
  apply (resolveToolName_sound emptyEnv quietWorld sampleTimeoutMessage
           "analyze_image" "zai.vision.analyze_image" (newClient Missing)
           (snd (resolveToolName emptyEnv quietWorld sampleTimeoutMessage
                   "analyze_image" (newClient Missing)))).
  reflexivity.
Defined.

Lemma resolveToolName_stable_witness :
  resolveToolName emptyEnv quietWorld sampleTimeoutMessage "analyze_image"
                  (newClient Missing)
  = (Return "zai.vision.analyze_image",
     snd (listTools emptyEnv quietWorld sampleTimeoutMessage false
            (newClient Missing)))
  /\ resolveToolName emptyEnv quietWorld sampleTimeoutMessage
                     "zai.vision.analyze_image"
                     (snd (listTools emptyEnv quietWorld sampleTimeoutMessage
                             false (newClient Missing)))
     = (Return "zai.vision.analyze_image",
        snd (listTools emptyEnv quietWorld sampleTimeoutMessage false
               (snd (listTools emptyEnv quietWorld sampleTimeoutMessage false
                       (newClient Missing))))).
Proof.
  apply (resolveToolName_stable emptyEnv quietWorld sampleTimeoutMessage
           "analyze_image" (newClient Missing)
           (snd (listTools emptyEnv quietWorld sampleTimeoutMessage false
                   (newClient Missing)))
           (snd (listTools emptyEnv quietWorld sampleTimeoutMessage false
                   (snd (listTools emptyEnv quietWorld sampleTimeoutMessage
                           false (newClient Missing)))))
           sampleCatalog sampleCatalog
           (mkTool "zai.vision.analyze_image" [])).
  - vm_compute; reflexivity.
  - right. split; vm_compute; reflexivity.
  - vm_compute; reflexivity.
  - reflexivity.
Defined.

Lemma callToolRaw_unresolved_witness :
  callToolRaw emptyEnv quietWorld noJson sampleTimeoutMessage 1 "missing"
              TNull (newClient Missing)
  = (Throw (ApiError "Unknown tool: missing" 400),
     snd (resolveToolName emptyEnv quietWorld sampleTimeoutMessage "missing"
            (newClient Missing)))
  /\ countEvents isCallTool
       (log (snd (resolveToolName emptyEnv quietWorld sampleTimeoutMessage
                    "missing" (newClient Missing))))
     = countEvents isCallTool (log (newClient Missing)).
Proof.
  apply (callToolRaw_unresolved emptyEnv quietWorld noJson
           sampleTimeoutMessage 1 "missing" TNull (newClient Missing)).
  vm_compute; reflexivity.
Defined.

Lemma close_then_init_reconnects_witness :
  exists elapsed rest,
    log (snd (init emptyEnv closingWorld sampleTimeoutMessage
                (snd (close closingWorld 2000 (readyClient closingWorld)))))
    = log (readyClient closingWorld) ++ EvClose elapsed :: EvCreate :: rest.
Proof.
  apply (close_then_init_reconnects emptyEnv closingWorld sampleTimeoutMessage
           2000 (readyClient closingWorld)).
  - unfold consistent. simpl. discriminate.
  - reflexivity.
  - simpl. discriminate.
Defined.

Section RedactMore.

Lemma sanitized_sealed (apiKey : option string) (t : tree) :
  sealed (sanitized apiKey t) = true.
Proof.
  induction t as [| | | | |items IH|entries IH] using tree_nested_ind;
    try reflexivity.
  - simpl. induction IH as [|x items Hx _ IHl]; [reflexivity|].
    simpl. now rewrite Hx, IHl.
  - simpl. induction IH as [|[k v] entries Hx _ IHl]; [reflexivity|].
    simpl in *. destruct (String.eqb k "__proto__"); [exact IHl|].
    simpl. rewrite IHl, andb_true_r.
    change (sensitive k) with (isRedactKey k).
    destruct (isRedactKey k); [reflexivity | now rewrite Hx].
Qed.

Lemma toolTree_sealed (apiKey : option string) (tool : Tool) :
  sealed (toolTree (redactTool apiKey tool)) = true.
Proof.
  unfold toolTree, redactTool. cbn [name fields].
  change (sealed (TObj (("name", TStr (redactString (name tool) apiKey))
                        :: sanitizedEntries (sanitized apiKey)
                             (cloneEntries jsonClone (fields tool)))))
    with (sealed (TObj (sanitizedEntries (sanitized apiKey)
                          (cloneEntries jsonClone (fields tool))))).
  exact (sanitized_sealed apiKey (TObj (cloneEntries jsonClone (fields tool)))).
Qed.

(** X13: After the clone and the redaction no property under a sensitive key
    holds anything but the marker, at any depth of the value; so it is with
    every tool that [redactTool] returns. *)
Theorem redactTool_sealed (apiKey : option string) (tool : Tool) :
  sealed (sanitized apiKey (jsonClone (toolTree tool))) = true
  /\ sealed (toolTree (redactTool apiKey tool)) = true.
Proof. split; [apply sanitized_sealed | apply toolTree_sealed]. Qed.

Lemma dropWhile_stopsAt (p : ascii -> bool) (s : string) :
  stopsAt p (dropWhile p s) = true.
Proof.
  induction s as [|c s IH]; [reflexivity|]. simpl.
  destruct (p c) eqn:Hc; [exact IH|]. simpl. now rewrite Hc.
Qed.

Lemma matchBearer_rest (s rest : string) :
  matchBearer s = Some rest -> stopsAt notSpace rest = true.
Proof.
  unfold matchBearer. destruct (startsWith s "Bearer"); [|discriminate].
  destruct (_ && _); [|discriminate]. intros [= <-].
  apply (dropWhile_stopsAt notSpace).
Qed.

Lemma redactString_idempotent (s : string) :
  redactString (redactString s None) None = redactString s None.
Proof.
  unfold redactString, scrubCredential, testBearer.
  destruct (matchBearer s) as [rest|] eqn:Hm.
  - rewrite (replaceBearer_at_start s rest Hm).
    pose proof (matchBearer_shape " " MARKER rest) as Hshape.
    change ("Bearer" +:+ " " +:+ MARKER +:+ rest)
      with ("Bearer [REDACTED]" +:+ rest) in Hshape.
    rewrite Hshape; try reflexivity; try discriminate.
    + now apply replaceBearer_at_start, Hshape;
        try reflexivity; try discriminate;
        apply (matchBearer_rest s).
    + now apply (matchBearer_rest s).
  - now rewrite Hm.
Qed.

Lemma sanitized_idempotent (t : tree) :
  sanitized None (sanitized None t) = sanitized None t.
Proof.
  induction t as [| | | | |items IH|entries IH] using tree_nested_ind;
    try reflexivity.
  - simpl. now rewrite redactString_idempotent.
  - simpl. f_equal. induction IH as [|x items Hx _ IHl]; [reflexivity|].
    simpl. now rewrite Hx, IHl.
  - simpl. f_equal. induction IH as [|[k v] entries Hx _ IHl]; [reflexivity|].
    simpl in *. destruct (String.eqb k "__proto__") eqn:Hk; [exact IHl|].
    simpl. rewrite Hk, IHl. f_equal. f_equal.
    destruct (isRedactKey k); [reflexivity | exact Hx].
Qed.

Lemma jsonClone_defined (t : tree) : defined (jsonClone t) = true.
Proof.
  induction t as [| | | | |items IH|entries IH] using tree_nested_ind;
    try reflexivity.
  - simpl. induction IH as [|x items Hx _ IHl]; [reflexivity|].
    simpl. now rewrite Hx, IHl.
  - simpl. induction IH as [|[k v] entries Hx _ IHl]; [reflexivity|].
    simpl in *. destruct v; simpl; rewrite ?IHl; try reflexivity;
      simpl in Hx; rewrite ?Hx; reflexivity.
Qed.

Lemma sanitized_defined (apiKey : option string) (t : tree) :
  defined t = true -> defined (sanitized apiKey t) = true.
Proof.
  induction t as [| | | | |items IH|entries IH] using tree_nested_ind;
    try (intros; reflexivity); try discriminate.
  - simpl. induction IH as [|x items Hx _ IHl]; [reflexivity|].
    simpl. intros H. apply andb_true_iff in H as [H1 H2].
    now rewrite Hx, IHl.
  - simpl. induction IH as [|[k v] entries Hx _ IHl]; [reflexivity|].
    simpl in *. intros H. apply andb_true_iff in H as [H1 H2].
    destruct (String.eqb k "__proto__"); [now apply IHl|].
    simpl. rewrite (IHl H2), andb_true_r.
    destruct (isRedactKey k); [reflexivity | now apply Hx].
Qed.

Lemma jsonClone_fixed (t : tree) : defined t = true -> jsonClone t = t.
Proof.
  induction t as [| | | | |items IH|entries IH] using tree_nested_ind;
    try (intros; reflexivity); try discriminate.
  - simpl. intros H. f_equal.
    induction IH as [|x items Hx _ IHl]; [reflexivity|].
    simpl in *. apply andb_true_iff in H as [H1 H2].
    now rewrite Hx, IHl.
  - simpl. intros H. f_equal.
    induction IH as [|[k v] entries Hx _ IHl]; [reflexivity|].
    simpl in *. apply andb_true_iff in H as [H1 H2].
    rewrite (IHl H2), (Hx H1). now destruct v.
Qed.

(** X14: Without a credential in the environment, redacting a redacted tool
    changes nothing. *)
Theorem redactTool_idempotent (tool : Tool) :
  redactTool None (redactTool None tool) = redactTool None tool.
Proof.
  unfold redactTool. cbn [name fields]. rewrite redactString_idempotent.
  f_equal.
  set (es := cloneEntries jsonClone (fields tool)).
  pose proof (jsonClone_defined (TObj (fields tool))) as Hdef.
  pose proof (sanitized_defined None _ Hdef) as Hdef2.
  pose proof (jsonClone_fixed _ Hdef2) as Hfix.
  pose proof (sanitized_idempotent (TObj es)) as Hidem.
  simpl in Hfix, Hidem. fold es in Hfix.
  injection Hfix as Hfix. injection Hidem as Hidem.
  now rewrite Hfix, Hidem.
Qed.

End RedactMore.

Section CommandLine.

Lemma extractFrom_plain (args : list string) :
  forall (outputFormat : option string) (rest : list string),
    Forall (fun a => isOutputFlag a = false) args ->
    extractFrom args outputFormat rest = (outputFormat, rest ++ args).
Proof.
  induction args as [|a args IH]; intros fmt rest H.
  - now rewrite app_nil_r.
  - inversion H as [|? ? Ha Hrest]; subst. simpl. rewrite Ha.
    rewrite (IH _ _ Hrest), <- app_assoc. reflexivity.
Qed.

(** What the loop leaves: the arguments collected so far, then a
    subsequence of the remaining ones that holds no output flag. *)
Lemma extractFrom_rest (n : nat) :
  forall (args : list string) (outputFormat : option string)
         (rest : list string),
    (length args <= n)%nat ->
    exists kept,
      snd (extractFrom args outputFormat rest) = rest ++ kept
      /\ kept `sublist_of` args
      /\ Forall (fun a => isOutputFlag a = false) kept.
Proof.
  induction n as [|n IH]; intros args fmt rest Hlen.
  { destruct args; [|simpl in Hlen; lia]. exists []. simpl.
    rewrite app_nil_r. repeat split; constructor. }
  destruct args as [|a tail].
  { exists []. simpl. rewrite app_nil_r. repeat split; constructor. }
  simpl in Hlen. simpl. destruct (isOutputFlag a) eqn:Ha.
  - destruct tail as [|value tail'].
    + exists []. simpl. rewrite app_nil_r.
      repeat split; [apply sublist_nil_l | constructor].
    + simpl in Hlen.
      destruct (IH tail' (Some value) rest) as (kept & Hk & Hsub & Hno);
        [lia|].
      exists kept. split; [exact Hk|]. split; [|exact Hno].
      now apply sublist_cons, sublist_cons.
  - destruct (IH tail fmt (rest ++ [a])) as (kept & Hk & Hsub & Hno); [lia|].
    exists (a :: kept). split; [|split].
    + rewrite Hk, <- app_assoc. reflexivity.
    + now apply sublist_skip.
    + now constructor.
Qed.

(** X15: The remaining arguments hold no output flag, keep the order of the
    command line, and are left alone by a second extraction. *)
Theorem extractGlobalOptions_rest (args : list string) :
  Forall (fun a => isOutputFlag a = false) (snd (extractGlobalOptions args))
  /\ snd (extractGlobalOptions args) `sublist_of` args
  /\ extractGlobalOptions (snd (extractGlobalOptions args))
     = (None, snd (extractGlobalOptions args)).
Proof.
  unfold extractGlobalOptions.
  destruct (extractFrom_rest (length args) args None [] (le_n _))
    as (kept & Hk & Hsub & Hno).
  rewrite Hk. simpl. repeat split; auto.
  now rewrite (extractFrom_plain kept None [] Hno).
Qed.

(** X16: The output flag is found wherever it stands among arguments that are no
    output flags; it leaves with its value, and the format is that value. *)
Theorem extractGlobalOptions_anywhere (pre post : list string)
        (flag value : string) :
  Forall (fun a => isOutputFlag a = false) pre ->
  Forall (fun a => isOutputFlag a = false) post ->
  isOutputFlag flag = true ->
  extractGlobalOptions (pre ++ flag :: value :: post)
  = (Some value, pre ++ post).
Proof.
  intros Hpre Hpost Hflag. unfold extractGlobalOptions.
  assert (Hgo : forall fmt rest,
             extractFrom (pre ++ flag :: value :: post) fmt rest
             = (Some value, rest ++ pre ++ post)).
  { induction Hpre as [|a pre Ha _ IH]; intros fmt rest.
    - simpl. rewrite Hflag. now rewrite (extractFrom_plain post _ _ Hpost).
    - simpl. rewrite Ha, IH, <- app_assoc. reflexivity. }
  now rewrite Hgo.
Qed.

Lemma startsWith_dash2 (a : string) :
  startsWith a "-" = false -> startsWith a "--" = false.
Proof.
  destruct a as [|c a]; [reflexivity|]. cbn [startsWith]. intros H.
  apply andb_false_iff in H as [H|H]; [now rewrite H | discriminate].
Qed.

Lemma parseFrom_plain (args : list string) :
  forall (flags : gmap string FlagValue) (positional : list string),
    Forall (fun a => startsWith a "-" = false) args ->
    parseFrom args flags positional = (flags, positional ++ args).
Proof.
  induction args as [|a args IH]; intros flags positional H.
  - now rewrite app_nil_r.
  - inversion H as [|? ? Ha Hrest]; subst. cbn [parseFrom].
    rewrite (startsWith_dash2 a Ha), Ha. cbn [andb].
    rewrite (IH _ _ Hrest), <- app_assoc. reflexivity.
Qed.

(** X17: Arguments none of which starts with a dash are all positional. *)
Theorem parseArgs_plain (args : list string) :
  Forall (fun a => startsWith a "-" = false) args ->
  parseArgs args = (∅, args).
Proof. intros H. exact (parseFrom_plain args ∅ [] H). Qed.

Lemma setFlag_proper (flags : gmap string FlagValue) (key : string)
      (v : FlagValue) :
  map_Forall (fun _ => properValue) flags -> properValue v ->
  map_Forall (fun _ => properValue) (setFlag flags key v).
Proof.
  intros Hm Hv. unfold setFlag. destruct (String.eqb key "__proto__"); [exact Hm|].
  now apply map_Forall_insert_2.
Qed.

Lemma takesValue_proper (nextArg : string) (tail : list string) :
  takesValue (nextArg :: tail) = true -> properValue (FlagStr nextArg).
Proof.
  simpl. intros H. apply andb_true_iff in H as [H1 H2].
  split; [exact H1|]. now apply negb_true_iff.
Qed.

Lemma parseFrom_invariant (n : nat) :
  forall (args : list string) (flags : gmap string FlagValue)
         (positional : list string),
    (length args <= n)%nat ->
    map_Forall (fun _ => properValue) flags ->
    map_Forall (fun _ => properValue) (fst (parseFrom args flags positional))
    /\ exists kept,
         snd (parseFrom args flags positional) = positional ++ kept
         /\ kept `sublist_of` args.
Proof.
  induction n as [|n IH]; intros args flags positional Hlen Hm.
  { destruct args; [|simpl in Hlen; lia]. split; [exact Hm|].
    exists []. simpl. rewrite app_nil_r. split; constructor. }
  destruct args as [|a tail].
  { split; [exact Hm|]. exists []. simpl. rewrite app_nil_r.
    split; constructor. }
  simpl in Hlen.
  assert (Hflag : forall key,
             (let r := match tail with
                       | nextArg :: tail' =>
                           if takesValue tail
                           then parseFrom tail'
                                          (setFlag flags key (FlagStr nextArg))
                                          positional
                           else parseFrom tail
                                          (setFlag flags key (FlagBool true))
                                          positional
                       | [] => (setFlag flags key (FlagBool true), positional)
                       end in
              map_Forall (fun _ => properValue) (fst r)
              /\ exists kept, snd r = positional ++ kept
                              /\ kept `sublist_of` (a :: tail))).
  { intros key. destruct tail as [|nextArg tail']; cbv zeta.
    - split; [now apply setFlag_proper|]. exists []. simpl.
      rewrite app_nil_r. split; [reflexivity | apply sublist_nil_l].
    - destruct (takesValue (nextArg :: tail')) eqn:Ht.
      + simpl in Hlen.
        destruct (IH tail' (setFlag flags key (FlagStr nextArg)) positional)
          as (Hm' & kept & Hk & Hsub); [lia | |].
        { apply setFlag_proper; [exact Hm|].
          now apply (takesValue_proper nextArg tail'). }
        split; [exact Hm'|]. exists kept. split; [exact Hk|].
        now apply sublist_cons, sublist_cons.
      + destruct (IH (nextArg :: tail') (setFlag flags key (FlagBool true))
                     positional) as (Hm' & kept & Hk & Hsub);
          [simpl in *; lia | now apply setFlag_proper |].
        split; [exact Hm'|]. exists kept. split; [exact Hk|].
        now apply sublist_cons. }
  cbn [parseFrom]. destruct (startsWith a "--").
  - destruct (startsWith (drop 2 a) "no-"); [|apply Hflag].
    destruct (IH tail
                 (setFlag (setFlag flags (drop 3 (drop 2 a)) (FlagBool false))
                          (drop 2 a) (FlagBool true)) positional)
      as (Hm' & kept & Hk & Hsub);
      [lia | now repeat apply setFlag_proper |].
    split; [exact Hm'|]. exists kept. split; [exact Hk|].
    now apply sublist_cons.
  - destruct (startsWith a "-" && (String.length a =? 2)%nat); [apply Hflag|].
    destruct (IH tail flags (positional ++ [a])) as (Hm' & kept & Hk & Hsub);
      [lia | exact Hm |].
    split; [exact Hm'|]. exists (a :: kept). split.
    + rewrite Hk, <- app_assoc. reflexivity.
    + now apply sublist_skip.
Qed.

(** X18: No flag ever holds an empty string or a string that starts with a dash,
    and the positional arguments are a subsequence of the command line. *)
Theorem parseArgs_invariant (args : list string) :
  map_Forall (fun _ => properValue) (fst (parseArgs args))
  /\ snd (parseArgs args) `sublist_of` args.
Proof.
  destruct (parseFrom_invariant (length args) args ∅ [] (le_n _))
    as (Hm & kept & Hk & Hsub); [apply map_Forall_empty|].
  split; [exact Hm|]. unfold parseArgs. now rewrite Hk.
Qed.

(** An argument that starts with a dash is never taken as the value of the
    flag before it: parsing up to it is parsing without it. *)
Lemma parseFrom_dash_last (n : nat) (dashed : string) :
  startsWith dashed "-" = true ->
  forall (args : list string) (flags : gmap string FlagValue)
         (positional : list string),
    (length args <= n)%nat ->
    parseFrom (args ++ [dashed]) flags positional
    = parseFrom [dashed] (fst (parseFrom args flags positional))
                (snd (parseFrom args flags positional)).
Proof.
  intros Hd. induction n as [|n IH]; intros args flags positional Hlen.
  { destruct args; [reflexivity | simpl in Hlen; lia]. }
  destruct args as [|a tail]; [reflexivity|].
  simpl in Hlen.
  assert (Hnot : takesValue [dashed] = false).
  { cbn [takesValue]. rewrite Hd. apply andb_false_r. }
  assert (Hflag : forall key,
             match tail ++ [dashed] with
             | nextArg :: tail' =>
                 if takesValue (tail ++ [dashed])
                 then parseFrom tail' (setFlag flags key (FlagStr nextArg))
                                positional
                 else parseFrom (tail ++ [dashed])
                                (setFlag flags key (FlagBool true)) positional
             | [] => (setFlag flags key (FlagBool true), positional)
             end
             = (let r := match tail with
                         | nextArg :: tail' =>
                             if takesValue tail
                             then parseFrom tail'
                                    (setFlag flags key (FlagStr nextArg))
                                    positional
                             else parseFrom tail
                                    (setFlag flags key (FlagBool true))
                                    positional
                         | [] => (setFlag flags key (FlagBool true),
                                  positional)
                         end in
                parseFrom [dashed] (fst r) (snd r))).
  { intros key. destruct tail as [|nextArg tail']; cbv zeta.
    - change ([] ++ [dashed]) with [dashed]. rewrite Hnot. reflexivity.
    - change ((nextArg :: tail') ++ [dashed])
        with (nextArg :: (tail' ++ [dashed])).
      change (takesValue (nextArg :: tail' ++ [dashed]))
        with (takesValue (nextArg :: tail')).
      destruct (takesValue (nextArg :: tail')).
      + apply IH. simpl in Hlen. lia.
      + change (nextArg :: tail' ++ [dashed])
          with ((nextArg :: tail') ++ [dashed]).
        apply IH. simpl in *. lia. }
  change ((a :: tail) ++ [dashed]) with (a :: (tail ++ [dashed])).
  cbn [parseFrom]. destruct (startsWith a "--").
  - destruct (startsWith (drop 2 a) "no-"); [apply IH; lia | apply Hflag].
  - destruct (startsWith a "-" && (String.length a =? 2)%nat);
      [apply Hflag | apply IH; lia].
Qed.

(** X19: A negated flag at the end of the command line: [--no-x] sets [x] to
    false and [no-x] to true, whatever precedes it. *)
Theorem parseArgs_negation (args : list string) (x : string) :
  parseArgs (args ++ ["--no-" +:+ x])
  = (setFlag (setFlag (fst (parseArgs args)) x (FlagBool false))
             ("no-" +:+ x) (FlagBool true),
     snd (parseArgs args)).
Proof.
  unfold parseArgs.
  rewrite (parseFrom_dash_last (length args) ("--no-" +:+ x) eq_refl args ∅ []
             (le_n _)).
  reflexivity.
Qed.

End CommandLine.


(** A command line as the shell hands it over. *)
Example extractGlobalOptions_sample :
  extractGlobalOptions ["search"; "-O"; "json"; "rust"; "--count"; "3"]
  = (Some "json", ["search"; "rust"; "--count"; "3"])
  /\ extractGlobalOptions ["search"; "rust"; "--output-format"]
     = (None, ["search"; "rust"]).
Proof. split; reflexivity. Qed.

Lemma extractGlobalOptions_anywhere_witness :
  extractGlobalOptions (["search"; "rust"] ++ "-O" :: "json" :: ["--count"; "3"])
  = (Some "json", ["search"; "rust"] ++ ["--count"; "3"]).
Proof.
  apply (extractGlobalOptions_anywhere ["search"; "rust"] ["--count"; "3"]
           "-O" "json").
  - repeat constructor.
  - repeat constructor.
  - reflexivity.
Defined.

Lemma parseArgs_plain_witness :
  parseArgs ["facebook/react"; "server components"]
  = (∅, ["facebook/react"; "server components"]).
Proof.
  apply (parseArgs_plain ["facebook/react"; "server components"]).
  repeat constructor.
Defined.

(** A value that starts with a dash is not taken: [--count -5] sets
    [count] to true and [5] to true. *)
Example parseArgs_dash_value :
  fst (parseArgs ["rust"; "--count"; "-5"]) !! "count" = Some (FlagBool true)
  /\ fst (parseArgs ["rust"; "--count"; "-5"]) !! "5" = Some (FlagBool true)
  /\ snd (parseArgs ["rust"; "--count"; "-5"]) = ["rust"].
Proof. repeat split; reflexivity. Qed.

(** [--no-vision] at the end switches vision off. *)
Example parseArgs_negation_sample :
  fst (parseArgs (["--filter"; "vision"] ++ ["--no-" +:+ "vision"]))
  !! "vision"
  = Some (FlagBool false).
Proof. reflexivity. Qed.

Section ReportFacts.

(** ** Search results *)

Lemma formatResults_lookup (results : list WebSearchResult) (i : nat) :
  formatResults results !! i = formatResult i <$> results !! i.
Proof. unfold formatResults. apply list_lookup_imap. Qed.

Lemma limited_prefix {A} (count : option num) (l : list A) :
  exists n, limited count l = firstn n l.
Proof.
  unfold limited, slice0.
  destruct count as [[[c| |]|]|];
    try (exists (length l); now rewrite firstn_all);
    [|now exists 0%nat].
  destruct (c =? 0); [exists (length l); now rewrite firstn_all|].
  destruct (c <? 0); eexists; reflexivity.
Qed.

(** X20: The entry at position [i] of the output is the result at position [i]
    with rank [i + 1], limited or not; a positive count keeps that many
    entries, a negative one drops that many from the end, a count that is
    undefined, not a number, zero or [Infinity] keeps them all, and
    [-Infinity] keeps none. *)
Theorem search_ranks (results : list WebSearchResult) (count : option num) :
  (forall (i : nat) (f : Formatted),
      limited count (formatResults results) !! i = Some f ->
      rank f = Z.of_nat i + 1
      /\ exists r, results !! i = Some r /\ f = formatResult i r)
  /\ (forall c, count = Some (Some (Int c)) -> 0 < c ->
        length (limited count (formatResults results))
        = Nat.min (Z.to_nat c) (length results))
  /\ (forall c, count = Some (Some (Int c)) -> c < 0 ->
        length (limited count (formatResults results))
        = (length results - Z.to_nat (- c))%nat)
  /\ (count = None \/ count = Some None \/ count = Some (Some (Int 0))
      \/ count = Some (Some PlusInfinity) ->
      limited count (formatResults results) = formatResults results)
  /\ (count = Some (Some MinusInfinity) ->
      limited count (formatResults results) = []).
Proof.
  assert (Hlen : length (formatResults results) = length results)
    by (unfold formatResults; apply length_imap).
  split; [|split; [|split; [|split]]].
  - intros i f Hf.
    destruct (limited_prefix count (formatResults results)) as [n Hn].
    rewrite Hn in Hf.
    assert (Hi : formatResults results !! i = Some f).
    { destruct (decide (i < n)%nat) as [Hlt|Hge].
      - now rewrite lookup_take_lt in Hf by exact Hlt.
      - rewrite lookup_take_ge in Hf by lia. discriminate. }
    rewrite formatResults_lookup in Hi.
    destruct (results !! i) as [r|]; [|discriminate].
    injection Hi as <-. split; [reflexivity|]. now exists r.
  - intros c -> Hc. unfold limited, slice0.
    replace (c =? 0) with false by (symmetry; apply Z.eqb_neq; lia).
    replace (c <? 0) with false by (symmetry; apply Z.ltb_ge; lia).
    rewrite length_firstn, Hlen. reflexivity.
  - intros c -> Hc. unfold limited, slice0.
    replace (c =? 0) with false by (symmetry; apply Z.eqb_neq; lia).
    replace (c <? 0) with true by (symmetry; apply Z.ltb_lt; lia).
    rewrite length_firstn, Hlen. lia.
  - intros [->|[->|[->| ->]]]; reflexivity.
  - intros ->. reflexivity.
Qed.

(** ** The filter of the tool listing *)




(** ** Tools by server *)

Lemma split_nonempty (sep : ascii) (s : string) : split sep s <> [].
Proof.
  destruct s as [|c s]; simpl; [discriminate|].
  destruct (Ascii.eqb c sep); [discriminate|].
  destruct (split sep s); discriminate.
Qed.

(** The number of tools of a catalog that belong to [server]. *)
Lemma bump_other (acc : gmap string Tally) (server key : string) :
  key <> server -> bump acc server !! key = acc !! key.
Proof.
  intros Hne. unfold bump.
  destruct (String.eqb server "__proto__"); [reflexivity|].
  now rewrite lookup_insert_ne by congruence.
Qed.

Lemma bump_same (acc : gmap string Tally) (server : string) :
  isInherited server = false ->
  bump acc server !! server
  = Some match acc !! server with
         | Some (Count n) => Count ((if n =? 0 then 0 else n) + 1)
         | Some Text => Text
         | None => Count 1
         end.
Proof.
  intros Hin. unfold bump. rewrite Hin.
  destruct (String.eqb server "__proto__") eqn:Hp.
  { apply String.eqb_eq in Hp. subst. discriminate. }
  rewrite lookup_insert_eq. destruct (acc !! server) as [[n|]|]; reflexivity.
Qed.

Lemma byServer_lookup (tools : list Tool) (server : string) :
  isInherited server = false ->
  forall acc,
    (match acc !! server with
     | Some (Count n) => 0 < n
     | Some Text => False
     | None => True
     end) ->
    fold_left (fun acc tool => bump acc (serverOf (name tool))) tools acc
    !! server
    = let before := match acc !! server with
                    | Some (Count n) => n
                    | _ => 0
                    end in
      let here :=
        Z.of_nat (length (List.filter
                            (fun tool => String.eqb (serverOf (name tool))
                                                    server) tools)) in
      if before + here =? 0 then None else Some (Count (before + here)).
Proof.
  intros Hin. induction tools as [|tool tools IH]; intros acc Hacc.
  - simpl. change (Z.of_nat 0) with 0.
    destruct (acc !! server) as [[n|]|]; try reflexivity; try tauto.
    rewrite Z.add_0_r.
    replace (n =? 0) with false by (symmetry; apply Z.eqb_neq; lia).
    reflexivity.
  - simpl fold_left. rewrite IH.
    + cbv zeta. simpl List.filter.
      destruct (String.eqb (serverOf (name tool)) server) eqn:Heq.
      * apply String.eqb_eq in Heq. rewrite Heq, (bump_same acc server Hin).
        simpl length.
        destruct (acc !! server) as [[n|]|]; try tauto.
        -- replace (n =? 0) with false by (symmetry; apply Z.eqb_neq; lia).
           replace (n + 1 + _) with (n + Z.of_nat (S (length (List.filter
             (fun tool0 => String.eqb (serverOf (name tool0)) server)
             tools)))) by lia.
           reflexivity.
        -- replace (1 + _) with (0 + Z.of_nat (S (length (List.filter
             (fun tool0 => String.eqb (serverOf (name tool0)) server)
             tools)))) by lia.
           reflexivity.
      * apply String.eqb_neq in Heq.
        rewrite (bump_other acc _ server) by congruence. reflexivity.
    + destruct (String.eqb (serverOf (name tool)) server) eqn:Heq.
      * apply String.eqb_eq in Heq. rewrite Heq, (bump_same acc server Hin).
        destruct (acc !! server) as [[n|]|]; try tauto; try lia.
        replace (n =? 0) with false by (symmetry; apply Z.eqb_neq; lia). lia.
      * apply String.eqb_neq in Heq.
        now rewrite (bump_other acc _ server) by congruence.
Qed.

(** X22: The entry of a server in the report is the number of tools of the
    catalog whose name has that server as its second segment; a server
    without tool has no entry.  This holds for every server name that
    [Object.prototype] does not define. *)
Theorem byServer_counts (tools : list Tool) (server : string) :
  isInherited server = false ->
  byServer tools !! server
  = let here :=
      Z.of_nat (length (List.filter
                          (fun tool => String.eqb (serverOf (name tool))
                                                  server) tools)) in
    if here =? 0 then None else Some (Count here).
Proof.
  intros Hin. unfold byServer.
  rewrite (byServer_lookup tools server Hin ∅); [reflexivity|].
  now rewrite lookup_empty.
Qed.

Lemma total_insert (acc : gmap string Tally) (key : string) (v : Tally) :
  acc !! key = None ->
  total (<[key := v]> acc)
  = match v with Count n => n + total acc | Text => total acc end.
Proof.
  intros Hnone. unfold total.
  rewrite map_fold_insert_L; [reflexivity | | exact Hnone].
  intros j1 j2 z1 z2 y _ _ _. destruct z1, z2; lia.
Qed.

Lemma total_update (acc : gmap string Tally) (key : string) (v w : Tally) :
  acc !! key = Some v ->
  total (<[key := w]> acc)
  = match w with Count n => n | Text => 0 end
    - match v with Count n => n | Text => 0 end
    + total acc.
Proof.
  intros Hsome.
  rewrite <- (insert_delete_eq acc key w).
  rewrite <- (insert_delete_id acc key v Hsome) at 2.
  rewrite !total_insert by apply lookup_delete_eq.
  destruct v, w; lia.
Qed.

Lemma bump_counting (acc : gmap string Tally) (server : string) :
  isInherited server = false ->
  counting acc ->
  counting (bump acc server) /\ total (bump acc server) = total acc + 1.
Proof.
  intros Hin Hacc. unfold bump. rewrite Hin.
  destruct (String.eqb server "__proto__") eqn:Hp.
  { apply String.eqb_eq in Hp. subst. discriminate. }
  destruct (acc !! server) as [v|] eqn:Hv.
  - destruct (Hacc server v Hv) as (n & -> & Hn).
    replace (n =? 0) with false by (symmetry; apply Z.eqb_neq; lia).
    split.
    + apply map_Forall_insert_2; [|exact Hacc]. exists (n + 1). split; [reflexivity | lia].
    + rewrite (total_update acc server (Count n) _ Hv). lia.
  - split.
    + apply map_Forall_insert_2; [|exact Hacc]. exists 1. split; [reflexivity | lia].
    + rewrite (total_insert acc server _ Hv). lia.
Qed.

(** X23: When no tool has a server segment that [Object.prototype] defines, the
    report holds positive numbers only and they add up to the number of
    tools, the [toolCount] of the report. *)
Theorem byServer_total (tools : list Tool) :
  Forall (fun tool => isInherited (serverOf (name tool)) = false) tools ->
  map_Forall (fun _ v => exists n, v = Count n /\ 0 < n) (byServer tools)
  /\ total (byServer tools) = Z.of_nat (length tools).
Proof.
  intros Hall. unfold byServer.
  assert (Hgo : forall acc,
             counting acc ->
             counting (fold_left (fun acc tool =>
                                    bump acc (serverOf (name tool))) tools acc)
             /\ total (fold_left (fun acc tool =>
                                    bump acc (serverOf (name tool))) tools acc)
                = total acc + Z.of_nat (length tools)).
  { induction Hall as [|tool tools Htool _ IH]; intros acc Hacc.
    - simpl. split; [exact Hacc | lia].
    - simpl fold_left.
      destruct (bump_counting acc _ Htool Hacc) as [Hc Ht].
      destruct (IH _ Hc) as [Hc' Ht'].
      split; [exact Hc'|]. rewrite Ht', Ht. simpl length. lia. }
  destruct (Hgo ∅) as [Hc Ht]; [apply map_Forall_empty|].
  split; [exact Hc|]. rewrite Ht. unfold total. rewrite map_fold_empty. lia.
Qed.

End ReportFacts.


Lemma search_ranks_witness :
  (forall (i : nat) (f : Formatted),
      limited (Some (Some (Int 1))) (formatResults sampleResults) !! i
      = Some f ->
      rank f = Z.of_nat i + 1
      /\ exists r, sampleResults !! i = Some r /\ f = formatResult i r)
  /\ length (limited (Some (Some (Int 1))) (formatResults sampleResults))
     = Nat.min (Z.to_nat 1) (length sampleResults)
  /\ limited (Some (Some (Int 0))) (formatResults sampleResults)
     = formatResults sampleResults
  /\ limited (Some (Some MinusInfinity)) (formatResults sampleResults) = [].
Proof.
  split; [|split; [|split]].
  - exact (proj1 (search_ranks sampleResults (Some (Some (Int 1))))).
  - apply (proj1 (proj2 (search_ranks sampleResults
                                       (Some (Some (Int 1))))) 1);
      [reflexivity | lia].
  - apply (proj1 (proj2 (proj2 (proj2 (search_ranks sampleResults
                                         (Some (Some (Int 0)))))))).
    right. right. left. reflexivity.
  - apply (proj2 (proj2 (proj2 (proj2 (search_ranks sampleResults
                                         (Some (Some MinusInfinity))))))).
    reflexivity.
Defined.

(** The output for the sample results, and what a negative count keeps. *)
Example search_sample :
  formatResults sampleResults
  = [ {| rank := 1; f_title := "First"; url := "https://a.example";
         summary := "alpha"; source := Some "A";
         date := Some "2024-01-15" |};
      {| rank := 2; f_title := "Second"; url := "https://b.example";
         summary := "beta"; source := None; date := None |} ]
  /\ limited (Some (Some (Int (-1)))) (formatResults sampleResults)
     = firstn 1 (formatResults sampleResults)
  /\ limited (Some None) (formatResults sampleResults)
     = formatResults sampleResults.
Proof. repeat split; reflexivity. Qed.


Example filterTools_sample :
  map name (filterTools (Some "VISION") mixedCatalog)
  = ["zai.vision.analyze_image"; "zai.vision.extract_text"]
  /\ filterTools (Some "") mixedCatalog = mixedCatalog.
Proof. split; reflexivity. Qed.

Lemma byServer_counts_witness :
  byServer mixedCatalog !! "vision"
  = let here :=
      Z.of_nat (length (List.filter
                          (fun tool => String.eqb (serverOf (name tool))
                                                  "vision") mixedCatalog)) in
    if here =? 0 then None else Some (Count here).
Proof. apply (byServer_counts mixedCatalog "vision"). reflexivity. Defined.

Lemma byServer_total_witness :
  map_Forall (fun _ v => exists n, v = Count n /\ 0 < n) (byServer mixedCatalog)
  /\ total (byServer mixedCatalog) = Z.of_nat (length mixedCatalog).
Proof. apply (byServer_total mixedCatalog). repeat constructor. Defined.

(** The report for the sample catalog; and a tool whose server segment is a
    name of [Object.prototype] leaves a text, not a count. *)
Example byServer_sample :
  byServer mixedCatalog !! "vision" = Some (Count 2)
  /\ byServer mixedCatalog !! "search" = Some (Count 1)
  /\ byServer mixedCatalog !! "reader" = None
  /\ byServer [mkTool "plain" []] !! "unknown" = Some (Count 1)
  /\ byServer [mkTool "zai.constructor.run" []] !! "constructor" = Some Text
  /\ byServer [mkTool "zai.__proto__.run" []] = ∅.
Proof. repeat split; reflexivity. Qed.

(* ===================================================================== *)
(** * The commands of tools.ts                                             *)
(* ===================================================================== *)

Section CommandFacts.

Import Commands.

Variable env : Env.
Variable world : World.
Variable JSON_parse : string -> option tree.
Variable timeoutMessage : num -> string.
Variable formatErrorOutput : Thrown -> string.
Variable outputSuccessThrows : tree -> option Thrown.

Local Abbreviation guarded := (Commands.guarded world formatErrorOutput).
Local Abbreviation outputSuccess := (Commands.outputSuccess outputSuccessThrows).
Local Abbreviation listToolsCommand :=
  (Commands.listTools env world timeoutMessage formatErrorOutput
                      outputSuccessThrows).
Local Abbreviation showToolCommand :=
  (Commands.showTool env world timeoutMessage formatErrorOutput
                     outputSuccessThrows).
Local Abbreviation callToolCommand :=
  (Commands.callTool env world JSON_parse timeoutMessage formatErrorOutput
                     outputSuccessThrows).

Lemma silenceConsole_silenced (c : Console) :
  silenced (silenceConsole c) = true.
Proof. unfold silenceConsole. destruct (silenced c) eqn:H; [exact H | reflexivity]. Qed.

Lemma restoreConsole_loaded (c : Console) :
  silenced c = true -> restoreConsole c = loaded.
Proof. intros H. unfold restoreConsole. now rewrite H. Qed.

Lemma restoreConsole_idle (c : Console) :
  silenced c = false -> restoreConsole c = c.
Proof. intros H. unfold restoreConsole. now rewrite H. Qed.


(** The process a command body starts from. *)
Local Abbreviation started p := (newSession (onConsole silenceConsole p)).



(** ** The raw call *)



(** ** Every command settles in order *)

Lemma onSession_spec {A} (m : M A) (p : Process) :
  onSession m p
  = (fst (m (session p)),
     {| console := console p; emitted := emitted p;
        session := snd (m (session p)) |}).
Proof. unfold onSession. now destruct (m (session p)). Qed.






(** ** What the listing and the description let out *)








(** X27: A description of a tool that no listing knows ends the process with
    code 1 and the report of a [ValidationError] that names the tool; no
    payload is let out and the client is not closed. *)
Theorem showTool_unknown (name : string) (p : Process) (st' : State) :
  getTool env world timeoutMessage name (session (started p))
  = (Return None, st') ->
  showToolCommand name p
  = (Exits 1,
     {| console := loaded;
        emitted := emitted p
                   ++ [ConsoleError
                         (formatErrorOutput
                            (ValidationError ("Unknown tool: " +:+ name)))];
        session := st' |}).
Proof.
  intros Hget. unfold Commands.showTool, Commands.guarded, bindP.
  rewrite onSession_spec, Hget. simpl.
  unfold callConsoleError, onConsole, emitting. simpl.
  rewrite (restoreConsole_loaded _ (silenceConsole_silenced (console p))).
  reflexivity.
Qed.

End CommandFacts.


(** A call that keeps failing: the vision tool fails three times, the
    error is reported and the process exits; the session of the last attempt
    is left open. *)
Example callTool_command_failing :
  Commands.callTool emptyEnv failingWorld noJson sampleTimeoutMessage
                    sampleFormat quietOutput 3 "analyze_image"
                    (Commands.ArgsParsed TNull) false (bootProcess Missing)
  = (Commands.Exits 1,
     {| Commands.console := loaded;
        Commands.emitted :=
          [Commands.ConsoleError
             "ApiError: MCP tool call failed: HTTP 503 from upstream"];
        Commands.session :=
          snd (callToolRaw emptyEnv failingWorld noJson sampleTimeoutMessage
                           3 "zai.vision.analyze_image" TNull
                           (snd (resolveToolName emptyEnv failingWorld
                                   sampleTimeoutMessage "analyze_image"
                                   (newClient Missing)))) |})
  /\ client (snd (callToolRaw emptyEnv failingWorld noJson
                              sampleTimeoutMessage 3
                              "zai.vision.analyze_image" TNull
                              (snd (resolveToolName emptyEnv failingWorld
                                      sampleTimeoutMessage "analyze_image"
                                      (newClient Missing)))))
     <> None.
Proof. split; [vm_compute; reflexivity | vm_compute; discriminate]. Qed.

(** A dry run in a world whose tool calls would fail. *)
Example callTool_dry_run_sample :
  fst (Commands.callTool emptyEnv failingWorld noJson sampleTimeoutMessage
                         sampleFormat quietOutput 0 "analyze_image"
                         (Commands.ArgsParsed (TObj [("prompt", TStr "hi")]))
                         true (bootProcess Missing))
  = Commands.Returns
  /\ Commands.emitted
       (snd (Commands.callTool emptyEnv failingWorld noJson
                               sampleTimeoutMessage sampleFormat quietOutput
                               0 "analyze_image"
                               (Commands.ArgsParsed
                                  (TObj [("prompt", TStr "hi")]))
                               true (bootProcess Missing)))
     = [Commands.OutputSuccess
          (TObj [("tool", TStr "zai.vision.analyze_image");
                 ("args", TObj [("prompt", TStr "hi")])])].
Proof. split; vm_compute; reflexivity. Qed.

Lemma showTool_unknown_witness :
  Commands.showTool emptyEnv quietWorld sampleTimeoutMessage sampleFormat
                    quietOutput "missing" (bootProcess Missing)
  = (Commands.Exits 1,
     {| Commands.console := loaded;
        Commands.emitted :=
          Commands.emitted (bootProcess Missing)
          ++ [Commands.ConsoleError
                (sampleFormat (ValidationError ("Unknown tool: " +:+ "missing")))];
        Commands.session :=
          snd (getTool emptyEnv quietWorld sampleTimeoutMessage "missing"
                       (newClient Missing)) |}).
Proof.
  apply (showTool_unknown emptyEnv quietWorld sampleTimeoutMessage
           sampleFormat quietOutput "missing" (bootProcess Missing)).
  vm_compute; reflexivity.
Defined.
